(** * The rule-based scoring engine of the team goal tracker

    A shallow embedding of [backend/services/ai/smartFeatures.js]
    (class [SmartFeaturesService]): the assignee recommender, the
    completion predictor, the risk scorer and the workload balancer,
    together with the properties the specification states about them; and
    of the code around it: the placeholder conversion of
    [backend/database.js] and the two routes of
    [backend/routes/ai.routes.js] that hand arrays of rows to the engine.

    Layout:
    - [JsNum]: the numbers of JavaScript, as far as the engine uses them,
      with the rounding of binary64, and the binary64 of the processor to
      check it against;
    - the records the engine reads and builds;
    - the store (arrays are mutable and allocated) and the clock
      ([new Date()] reads it), with a small state-and-exception monad;
    - the functions of the class, translated statement by statement;
    - the placeholder conversion and the routes, translated likewise;
    - what the functions compute, in the terms of the specification;
    - sample data;
    - the properties: the sort, the runs of the functions, the rounding,
      what a call leaves unchanged and what its result depends on, and the
      statements of the specification, each marked with its number;
    - more of the code: further properties of the engine, of the
      placeholder conversion and of the routes, marked X1, X2, ... *)

From Stdlib Require Import ZArith QArith Qabs Qround Qpower Lqa Sorted Lia Ascii.
From Stdlib Require PrimFloat FloatOps SpecFloat Uint63.
From stdpp Require Import base option list strings pretty.

Local Open Scope Z_scope.

(** ** JavaScript numbers

    A JavaScript number is a binary64 float.  The engine relies on the
    special values: an invalid date gives [NaN], a zero-length interval
    divides by zero, and [Math.ceil] of a value in (-1, 0) is the negative
    zero, whose sign decides the sign of an infinity.  Those are modelled
    exactly.  A finite value is the rational it stands for; [Fin q] with
    [q == 0] is the positive zero.

    The arithmetic of finite values comes in two kinds.

    - [fadd], [fsub], [fmul] and [fdiv] round the exact result to the
      nearest binary64 number, a tie going to the even significand
      ([round64]).  The completion predictor computes with them: there the
      rounding decides the result ([11 / 20 * 100] is 55.00000000000001).
    - [add], [sub] and [div] give the exact result.  They are used where
      the engine only takes [Math.ceil] of the result or compares it with
      a whole number, and the operands are time values, whole days and
      hours: the difference of two time values, its quotient by the length
      of a day, and the quotient of the estimated hours by 6.  There the
      rounded operations give the same, for time values less than [2^26]
      days apart and fewer than [2^50] days ([ceilDays_binary64] and
      [requiredDays_binary64] below). *)
Module JsNum.

Inductive num : Type :=
| NaN
| PInf
| NInf
| NZero
| Fin (q : Q).

Definition of_Z (z : Z) : num := Fin (inject_Z z).

Definition Qneg_b (q : Q) : bool := negb (Qle_bool 0 q).
Definition Qzero_b (q : Q) : bool := Qeq_bool q 0.

(** The rational a finite number stands for. *)
Definition val (x : num) : Q :=
match x with Fin q => q | _ => 0%Q end.

Definition is_nan (x : num) : bool :=
match x with NaN => true | _ => false end.
Definition is_inf (x : num) : bool :=
match x with PInf | NInf => true | _ => false end.
Definition is_zero (x : num) : bool :=
match x with NZero => true | Fin q => Qzero_b q | _ => false end.
(** The sign bit. *)
Definition sign (x : num) : bool :=
match x with NInf | NZero => true | Fin q => Qneg_b q | _ => false end.
Definition is_finite (x : num) : bool :=
match x with NZero | Fin _ => true | _ => false end.

Definition inf_of (s : bool) : num := if s then NInf else PInf.
Definition zero_of (s : bool) : num := if s then NZero else Fin 0.

Definition neg (x : num) : num :=
match x with
| NaN => NaN
| PInf => NInf
| NInf => PInf
| NZero => Fin 0
| Fin q => if Qzero_b q then NZero else Fin (Qred (- q))
end.

Definition add (x y : num) : num :=
match x, y with
| NaN, _ | _, NaN => NaN
| PInf, NInf | NInf, PInf => NaN
| PInf, _ | _, PInf => PInf
| NInf, _ | _, NInf => NInf
| NZero, NZero => NZero
| NZero, Fin q | Fin q, NZero => Fin q
| Fin a, Fin b => Fin (Qred (a + b))
end.

Definition sub (x y : num) : num := add x (neg y).

Definition div (x y : num) : num :=
if is_nan x || is_nan y then NaN
else if (is_inf x && is_inf y) || (is_zero x && is_zero y) then NaN
else if is_inf x || is_zero y then inf_of (xorb (sign x) (sign y))
else if is_inf y || is_zero x then zero_of (xorb (sign x) (sign y))
else Fin (Qred (val x / val y)).

(** *** Rounding to binary64 *)

(** [2^e], for any integer [e]. *)
Definition pow2 (e : Z) : Q := (2 ^ e)%Q.

(** The largest [e] with [2^e <= q], for [q] positive. *)
Definition ilog2 (q : Q) : Z :=
  let k := Z.log2 (Qnum q) - Z.log2 (Zpos (Qden q)) in
  if Qle_bool (pow2 k) q then k else k - 1.

(** The nearest integer, a tie going to the even one. *)
Definition rne (q : Q) : Z :=
  let f := Qfloor q in
  match (q - inject_Z f ?= 1 # 2)%Q with
  | Lt => f
  | Gt => f + 1
  | Eq => if Z.even f then f else f + 1
  end.

(** The exponent of the unit in the last place of the binary64 numbers
    around a positive [q]: 52 below the exponent of [q], and -1074 for the
    subnormal numbers. *)
Definition ulpExp (q : Q) : Z := Z.max (ilog2 q - 52) (-1074).

(** The multiple of the unit in the last place nearest to a positive [q]. *)
Definition nearest (q : Q) : Q :=
  inject_Z (rne (q / pow2 (ulpExp q))) * pow2 (ulpExp q).

(** The binary64 number nearest to [q]; beyond the largest one, an
    infinity; a result that rounds to zero keeps the sign of [q]. *)
Definition round64 (q : Q) : num :=
  match (q ?= 0)%Q with
  | Eq => Fin 0
  | Gt =>
      let r := nearest q in
      if Qle_bool (pow2 1024) r then PInf else Fin (Qred r)
  | Lt =>
      let r := nearest (- q) in
      if Qle_bool (pow2 1024) r then NInf
      else if Qzero_b r then NZero else Fin (Qred (- r))
  end.

(** [x + y], [x - y], [x * y] and [x / y] of binary64 numbers: the exact
    result, rounded. *)
Definition fadd (x y : num) : num :=
  match x, y with
  | NaN, _ | _, NaN => NaN
  | PInf, NInf | NInf, PInf => NaN
  | PInf, _ | _, PInf => PInf
  | NInf, _ | _, NInf => NInf
  | NZero, NZero => NZero
  | NZero, Fin q | Fin q, NZero => Fin q
  | Fin a, Fin b => round64 (a + b)
  end.

Definition fsub (x y : num) : num := fadd x (neg y).

Definition fmul (x y : num) : num :=
  if is_nan x || is_nan y then NaN
  else if (is_inf x && is_zero y) || (is_zero x && is_inf y) then NaN
  else if is_inf x || is_inf y then inf_of (xorb (sign x) (sign y))
  else if is_zero x || is_zero y then zero_of (xorb (sign x) (sign y))
  else round64 (val x * val y).

Definition fdiv (x y : num) : num :=
  if is_nan x || is_nan y then NaN
  else if (is_inf x && is_inf y) || (is_zero x && is_zero y) then NaN
  else if is_inf x || is_zero y then inf_of (xorb (sign x) (sign y))
  else if is_inf y || is_zero x then zero_of (xorb (sign x) (sign y))
  else round64 (val x / val y).

(** [x < y]; false as soon as one side is [NaN]; the two zeros are equal. *)
Definition ltb (x y : num) : bool :=
match x, y with
| NaN, _ | _, NaN => false
| PInf, _ | _, NInf => false
| NInf, _ | _, PInf => true
| _, _ => negb (Qle_bool (val y) (val x))
end.

(** [x <= y]. *)
Definition leb (x y : num) : bool :=
match x, y with
| NaN, _ | _, NaN => false
| NInf, _ | _, PInf => true
| PInf, _ | _, NInf => false
| _, _ => Qle_bool (val x) (val y)
end.

Definition gtb (x y : num) : bool := ltb y x.
Definition geb (x y : num) : bool := leb y x.

(** [Math.ceil]. *)
Definition ceil (x : num) : num :=
match x with
| Fin q =>
    let c := Qceiling q in
    if (c =? 0) && Qneg_b q then NZero else of_Z c
| _ => x
end.

(** [Math.round]: the nearest integer, a tie going towards +∞. *)
Definition round (x : num) : num :=
match x with
| Fin q =>
    let r := Qfloor (q + (1 # 2)) in
    if (r =? 0) && Qneg_b q then NZero else of_Z r
| _ => x
end.

(** [Math.abs]. *)
Definition abs (x : num) : num :=
match x with
| NaN => NaN
| PInf | NInf => PInf
| NZero => Fin 0
| Fin q => Fin (Qabs q)
end.

(** Truthiness of a number: [NaN] and the zeros are falsy. *)
Definition truthy (x : num) : bool := negb (is_nan x || is_zero x).

(** The string a template literal gives a number.  The engine formats
  only integral values (results of [Math.ceil], counts); a finite value
  that is not integral is shown as the fraction it is in the model. *)
Definition toString (x : num) : string :=
match x with
| NaN => "NaN"
| PInf => "Infinity"
| NInf => "-Infinity"
| NZero => "0"
| Fin q =>
    let r := Qred q in
    if (Zpos (Qden r) =? 1) then pretty (Qnum r)
    else pretty (Qnum r) +:+ "/" +:+ pretty (Zpos (Qden r))
end.

End JsNum.

Import JsNum.

(** ** The binary64 of the processor

    Rocq's primitive floats are the binary64 numbers of the processor,
    with the processor's operations.  They serve as a check of [round64]:
    on sample numbers, the operations of [JsNum] are compared with them. *)

(** The number a float is. *)
Definition ofSpecFloat (f : SpecFloat.spec_float) : num :=
  match f with
  | SpecFloat.S754_zero s => zero_of s
  | SpecFloat.S754_infinity s => inf_of s
  | SpecFloat.S754_nan => NaN
  | SpecFloat.S754_finite s m e =>
      let q := (inject_Z (Z.pos m) * pow2 e)%Q in
      Fin (Qred (if s then - q else q))
  end.

Definition ofFloat (f : PrimFloat.float) : num := ofSpecFloat (FloatOps.Prim2SF f).

(** The float of a whole number from 0 to [2^53]. *)
Definition toFloat (z : Z) : PrimFloat.float := PrimFloat.of_uint63 (Uint63.of_Z z).

(** The same number, the same zero. *)
Definition sameNum (x y : num) : bool :=
  match x, y with
  | NaN, NaN | PInf, PInf | NInf, NInf | NZero, NZero => true
  | Fin a, Fin b => Qeq_bool a b
  | _, _ => false
  end.

(** The four operations of the model give what the processor gives. *)
Definition agreeOn (x y : PrimFloat.float) : bool :=
  sameNum (fadd (ofFloat x) (ofFloat y)) (ofFloat (PrimFloat.add x y))
  && sameNum (fsub (ofFloat x) (ofFloat y)) (ofFloat (PrimFloat.sub x y))
  && sameNum (fmul (ofFloat x) (ofFloat y)) (ofFloat (PrimFloat.mul x y))
  && sameNum (fdiv (ofFloat x) (ofFloat y)) (ofFloat (PrimFloat.div x y)).

(** With their opposites. *)
Definition withOpposites (l : list PrimFloat.float) : list PrimFloat.float :=
  l ++ map PrimFloat.opp l.

(** Fractions and whole numbers, the zeros, the infinities and [NaN]. *)
Definition sampleFloats : list PrimFloat.float :=
  withOpposites
    (map (fun '(a, b) => PrimFloat.div (toFloat a) (toFloat b))
       [ (0, 1); (1, 1); (1, 3); (1, 10); (11, 20); (23, 40); (100, 1);
         (86400000, 1); (9007199254740991, 1); (1, 0) ])
  ++ [ PrimFloat.div (toFloat 0) (toFloat 0) ].

(** Where the results overflow, underflow or are subnormal: the largest
    number with half the unit in its last place and with 2, and the
    smallest number [2^-1074], three times it and the smallest normal
    number [2^-1022] with 2 and 3. *)
Definition extremePairs : list (PrimFloat.float * PrimFloat.float) :=
  let one := toFloat 1 in
  let two := toFloat 2 in
  let three := toFloat 3 in
  let largest := FloatOps.Z.ldexp (toFloat (2 ^ 53 - 1)) 971 in
  let halfUnit := FloatOps.Z.ldexp one 970 in
  let normal := FloatOps.Z.ldexp one (-1022) in
  let smallest := FloatOps.Z.ldexp one (-1074) in
  let smallest3 := FloatOps.Z.ldexp three (-1074) in
  [ (largest, halfUnit); (largest, two); (smallest, two); (smallest3, two);
    (PrimFloat.opp smallest, three); (normal, three) ].

(** [(daysElapsed / totalDays) * 100] and [actualProgress - expectedProgress]
    give what the processor gives. *)
Definition progressAgrees (daysElapsed totalDays actualProgress : Z) : bool :=
  let expected := fmul (fdiv (of_Z daysElapsed) (of_Z totalDays)) (of_Z 100) in
  let expected' :=
    PrimFloat.mul (PrimFloat.div (toFloat daysElapsed) (toFloat totalDays))
      (toFloat 100) in
  sameNum expected (ofFloat expected')
  && sameNum (fsub (of_Z actualProgress) expected)
       (ofFloat (PrimFloat.sub (toFloat actualProgress) expected')).

(** Day counts: every [daysElapsed] and [totalDays] up to 12, and some
    of longer intervals. *)
Definition sampleDays : list (Z * Z) :=
  let upTo12 := map Z.of_nat (seq 1 12) in
  flat_map (fun elapsed => map (fun total => (elapsed, total)) upTo12) upTo12
  ++ [ (11, 20); (23, 40); (7, 30); (29, 30); (1, 365); (364, 365); (400, 365) ].

(** ** The records the engine reads

    A row is an object whose properties the engine only reads: no statement
    of the source assigns to a property.  Rows, and the collections they
    hold, are therefore values.  A date column is kept as the time value
    that [new Date(column)] has: milliseconds since the epoch, or [None]
    for an Invalid Date (whose time value is [NaN]). *)

Inductive Status : Type := pending | in_progress | completed | cancelled.
Inductive Priority : Type := low | medium | high.

Definition Date : Type := option Z.

Module Task.
Record t : Type := mk {
  id : Z;
  assigned_to : option Z;
  status : Status;
  priority : Priority;
  due_date : Date;
  progress : option Z;          (* [None]: the property is undefined *)
  estimated_hours : option Q;   (* [None]: null or undefined *)
  depends_on : option (list Z);
  tags : option (list string)
}.
End Task.

Module Member.
Record t : Type := mk {
  id : Z;
  name : string;
  skills : option (list string)
}.
End Member.

(** The goal, plan or task handed to [predictCompletion]. *)
Module Item.
Record t : Type := mk {
  created_at : Date;
  due_date : Date;
  progress : option Z
}.
End Item.

#[global] Instance Status_eq_dec : EqDecision Status.
Proof. solve_decision. Defined.
#[global] Instance Priority_eq_dec : EqDecision Priority.
Proof. solve_decision. Defined.

(** ** The store and the clock

    Arrays are mutable objects.  An array is a cell of the store when the
    engine receives it as an argument, mutates it ([push], [sort]) or
    returns it, possibly inside a record; a location is an index into the
    store and allocation appends a cell.  Arrays that are only read and
    dropped (a [filter] whose [length] is taken, the literal
    [['pending', 'in_progress']]) are list values.

    [new Date()] reads the ambient clock: [clock k] is the time value that
    the [k]-th read returns, and [reads] counts the reads so far. *)

Definition loc : Type := nat.

Inductive Severity : Type := Medium | High.

Module RiskEntry.
Record t : Type := mk {
  task : Task.t;
  riskScore : Z;
  severity : Severity;
  reasons : loc     (* an array of strings *)
}.
End RiskEntry.

Module Candidate.
Record t : Type := mk {
  member : Member.t;
  score : Z;
  activeTasks : Z;
  overdueCount : Z;
  reasoning : string
}.
End Candidate.

Module Workload.
Record t : Type := mk {
  member : Member.t;
  taskCount : Z;
  tasks : loc       (* an array of tasks *)
}.
End Workload.

Inductive cell : Type :=
| Tasks (a : list Task.t)
| Members (a : list Member.t)
| Strings (a : list string)
| Risks (a : list RiskEntry.t)
| Candidates (a : list Candidate.t)
| Workloads (a : list Workload.t).

Record State : Type := mkState {
  heap : list cell;
  clock : nat -> Z;
  reads : nat
}.

(** What a call ends in: a value, or a thrown [TypeError] (a property read
    on [undefined]). *)
Inductive Exn : Type := TypeError.

Inductive Result (A : Type) : Type :=
| Ok (a : A)
| Throw (e : Exn).
Arguments Ok {A} a.
Arguments Throw {A} e.

Definition M (A : Type) : Type := State -> Result A * State.

Definition ret {A} (a : A) : M A := fun s => (Ok a, s).

Definition bind {A B} (m : M A) (k : A -> M B) : M B :=
  fun s =>
    match m s with
    | (Ok a, s') => k a s'
    | (Throw e, s') => (Throw e, s')
    end.

Definition throw {A} (e : Exn) : M A := fun s => (Throw e, s).

Declare Scope js_scope.
Delimit Scope js_scope with js.
Notation "'let*' x ':=' m 'in' k" := (bind m (fun x => k))
  (at level 10, x name, m at level 100, k at level 200,
   only parsing) : js_scope.
Notation "m ;;; k" := (bind m (fun _ => k))
  (at level 100, k at level 200, right associativity, only parsing) : js_scope.
Local Open Scope js_scope.

(** [new Date()], as a time value. *)
Definition newDate : M Z :=
  fun s => (Ok (clock s (reads s)),
            {| heap := heap s; clock := clock s; reads := S (reads s) |}).

(** A new array. *)
Definition alloc (c : cell) : M loc :=
  fun s => (Ok (length (heap s)),
            {| heap := heap s ++ [c]; clock := clock s; reads := reads s |}).

Definition load (l : loc) : M cell :=
  fun s => match heap s !! l with
           | Some c => (Ok c, s)
           | None => (Throw TypeError, s)
           end.

Definition store (l : loc) (c : cell) : M unit :=
  fun s => (Ok tt, {| heap := <[l := c]> (heap s); clock := clock s; reads := reads s |}).

Definition loadTasks (l : loc) : M (list Task.t) :=
  let* c := load l in match c with Tasks a => ret a | _ => throw TypeError end.
Definition loadMembers (l : loc) : M (list Member.t) :=
  let* c := load l in match c with Members a => ret a | _ => throw TypeError end.
Definition loadStrings (l : loc) : M (list string) :=
  let* c := load l in match c with Strings a => ret a | _ => throw TypeError end.
Definition loadRisks (l : loc) : M (list RiskEntry.t) :=
  let* c := load l in match c with Risks a => ret a | _ => throw TypeError end.
Definition loadCandidates (l : loc) : M (list Candidate.t) :=
  let* c := load l in match c with Candidates a => ret a | _ => throw TypeError end.
Definition loadWorkloads (l : loc) : M (list Workload.t) :=
  let* c := load l in match c with Workloads a => ret a | _ => throw TypeError end.

(** *** Array methods *)

(** [a.map(f)], [a.filter(p)] and [a.forEach(f)] over the elements [a] has
    when the method is entered; no callback of the engine writes to the
    array it iterates. *)
Fixpoint mapM {A B} (f : A -> M B) (a : list A) : M (list B) :=
  match a with
  | [] => ret []
  | x :: a' => let* y := f x in let* ys := mapM f a' in ret (y :: ys)
  end.

Fixpoint filterM {A} (p : A -> M bool) (a : list A) : M (list A) :=
  match a with
  | [] => ret []
  | x :: a' =>
      let* b := p x in let* ys := filterM p a' in ret (if b then x :: ys else ys)
  end.

Fixpoint forEach {A} (f : A -> M unit) (a : list A) : M unit :=
  match a with
  | [] => ret tt
  | x :: a' => f x ;;; forEach f a'
  end.

(** [a.push(x)]. *)
Definition pushString (l : loc) (x : string) : M unit :=
  let* a := loadStrings l in store l (Strings (a ++ [x])).
Definition pushRisk (l : loc) (x : RiskEntry.t) : M unit :=
  let* a := loadRisks l in store l (Risks (a ++ [x])).

(** [a.sort(cmp)] sorts in place and is stable.  With a comparator that is
    a difference of integer keys every stable sort gives the same array;
    the model inserts each element, from the last to the first, in front of
    the first element it must precede or tie with. *)
Section Sort.
Context {A : Type} (cmp : A -> A -> Z).

Fixpoint insert_sorted (x : A) (a : list A) : list A :=
  match a with
  | [] => [x]
  | y :: a' => if 0 <? cmp x y then y :: insert_sorted x a' else x :: y :: a'
  end.

Fixpoint sort (a : list A) : list A :=
  match a with
  | [] => []
  | x :: a' => insert_sorted x (sort a')
  end.
End Sort.

Definition sortRisks (cmp : RiskEntry.t -> RiskEntry.t -> Z) (l : loc) : M unit :=
  let* a := loadRisks l in store l (Risks (sort cmp a)).
Definition sortCandidates (cmp : Candidate.t -> Candidate.t -> Z) (l : loc) : M unit :=
  let* a := loadCandidates l in store l (Candidates (sort cmp a)).
Definition sortWorkloads (cmp : Workload.t -> Workload.t -> Z) (l : loc) : M unit :=
  let* a := loadWorkloads l in store l (Workloads (sort cmp a)).

(** [a.join(sep)]. *)
Fixpoint join (sep : string) (a : list string) : string :=
  match a with
  | [] => ""
  | [x] => x
  | x :: a' => x +:+ sep +:+ join sep a'
  end.

(** [a.includes(x)]. *)
Definition includes {A} `{EqDecision A} (a : list A) (x : A) : bool :=
  existsb (fun y => bool_decide (y = x)) a.

(** ** Dates and days *)

(** [1000 * 60 * 60 * 24]. *)
Definition MS_PER_DAY : num := of_Z (1000 * 60 * 60 * 24).

(** The number a date converts to in [d1 - d2] and [d1 < d2]. *)
Definition timeValue (d : Date) : num :=
  match d with Some t => of_Z t | None => NaN end.

(** The number an optional integer property converts to in a comparison:
    [undefined] becomes [NaN]. *)
Definition toNumber (p : option Z) : num :=
  match p with Some z => of_Z z | None => NaN end.

(** [Math.ceil((d1 - d2) / (1000 * 60 * 60 * 24))], of the exact difference
    and the exact quotient; the rounded ones give the same number of days
    ([ceilDays_binary64]). *)
Definition ceilDays (d1 d2 : num) : num := ceil (div (sub d1 d2) MS_PER_DAY).

(** [t.assigned_to === member.id && ['pending', 'in_progress'].includes(t.status)] *)
Definition isActiveTaskOf (member : Member.t) (t : Task.t) : bool :=
  bool_decide (Task.assigned_to t = Some (Member.id member))
  && includes [pending; in_progress] (Task.status t).

(** ** The assignee recommender *)

Definition generateReasoning (member : Member.t) (taskCount overdueCount score : Z)
  : M string :=
  let* reasons := alloc (Strings []) in
  (if taskCount =? 0 then pushString reasons "no active tasks"
   else if taskCount <=? 2 then
     pushString reasons
       ("only " +:+ pretty taskCount +:+ " active task"
        +:+ (if 1 <? taskCount then "s" else ""))
   else pushString reasons (pretty taskCount +:+ " active tasks")) ;;;
  (if 0 <? overdueCount then pushString reasons (pretty overdueCount +:+ " overdue")
   else ret tt) ;;;
  let* rs := loadStrings reasons in
  if 80 <=? score then
    ret (Member.name member +:+ " - Best fit: " +:+ join ", " rs)
  else if 50 <=? score then
    ret (Member.name member +:+ " - Good fit: " +:+ join ", " rs)
  else
    ret (Member.name member +:+ " - Available but busy: " +:+ join ", " rs).

(** [t => new Date(t.due_date) < new Date()] *)
Definition isOverdueAt (now : Z) (t : Task.t) : bool :=
  ltb (timeValue (Task.due_date t)) (of_Z now).

(** [t => Math.ceil((new Date(t.due_date) - new Date()) / day) <= 3] *)
Definition isUpcomingAt (now : Z) (t : Task.t) : bool :=
  let daysUntilDue := ceilDays (timeValue (Task.due_date t)) (of_Z now) in
  leb daysUntilDue (of_Z 3).

(** [taskData.tags.filter(tag => member.skills.includes(tag)).length], when
    both [taskData.tags] and [member.skills] are there. *)
Definition matchingSkills (taskData : Task.t) (member : Member.t) : Z :=
  match Task.tags taskData, Member.skills member with
  | Some tags, Some skills =>
      Z.of_nat (length (List.filter (fun tag => includes skills tag) tags))
  | _, _ => 0
  end.

(** The callback of [teamMembers.map] in [suggestAssignee]. *)
Definition scoreMember (taskData : Task.t) (existingTasks : loc) (member : Member.t)
  : M Candidate.t :=
  let score := 100 in
  let* ts := loadTasks existingTasks in
  let memberTasks := List.filter (isActiveTaskOf member) ts in
  let score := score - Z.of_nat (length memberTasks) * 15 in
  let* overdue :=
    filterM (fun t => let* now := newDate in ret (isOverdueAt now t)) memberTasks in
  let overdueCount := Z.of_nat (length overdue) in
  let score := score - overdueCount * 25 in
  let score := score + matchingSkills taskData member * 20 in
  let* upcoming :=
    filterM (fun t => let* now := newDate in ret (isUpcomingAt now t)) memberTasks in
  let upcomingDeadlines := Z.of_nat (length upcoming) in
  let score := score - upcomingDeadlines * 10 in
  let* reasoning :=
    generateReasoning member (Z.of_nat (length memberTasks)) overdueCount score in
  ret {| Candidate.member := member;
         Candidate.score := Z.max 0 score;
         Candidate.activeTasks := Z.of_nat (length memberTasks);
         Candidate.overdueCount := overdueCount;
         Candidate.reasoning := reasoning |}.

(** [suggestAssignee(taskData, teamMembers, existingTasks)]: the value the
    returned promise resolves to; [scores[0]] of an empty array is
    [undefined], here [None]. *)
Definition suggestAssignee (taskData : Task.t) (teamMembers existingTasks : loc)
  : M (option Candidate.t) :=
  let* ms := loadMembers teamMembers in
  let* cs := mapM (scoreMember taskData existingTasks) ms in
  let* scores := alloc (Candidates cs) in
  sortCandidates (fun a b => Candidate.score b - Candidate.score a) scores ;;;
  let* sorted := loadCandidates scores in
  ret (sorted !! 0%nat).

(** ** The completion predictor *)

Inductive Schedule : Type :=
| overdue | ahead_of_schedule | on_track | at_risk | behind_schedule.

Module Metrics.
Record t : Type := mk {
  expectedProgress : num;
  actualProgress : num;
  progressDelta : num;
  daysRemaining : num
}.
End Metrics.

Module Prediction.
Record t : Type := mk {
  status : Schedule;
  confidence : Z;
  recommendation : string;
  metrics : Metrics.t
}.
End Prediction.

(** [item.progress || 0] *)
Definition progressOrZero (p : option Z) : num :=
  match p with
  | Some z => if truthy (of_Z z) then of_Z z else of_Z 0
  | None => of_Z 0
  end.

Definition predictCompletion (item : Item.t) : M Prediction.t :=
  let* now := newDate in
  let startDate := timeValue (Item.created_at item) in
  let dueDate := timeValue (Item.due_date item) in
  let totalDays := ceilDays dueDate startDate in
  let daysElapsed := ceilDays (of_Z now) startDate in
  let daysRemaining := ceilDays dueDate (of_Z now) in
  let expectedProgress := fmul (fdiv daysElapsed totalDays) (of_Z 100) in
  let actualProgress := progressOrZero (Item.progress item) in
  let progressDelta := fsub actualProgress expectedProgress in
  let '(status, confidence, recommendation) :=
    if ltb daysRemaining (of_Z 0) then
      (overdue, 100, "Immediate action required")
    else if geb progressDelta (of_Z 10) then
      (ahead_of_schedule, 90, "On track, maintain momentum")
    else if geb progressDelta (of_Z (-10)) then
      (on_track, 80, "Progressing well")
    else if geb progressDelta (of_Z (-25)) then
      (at_risk, 70, "May need additional resources")
    else
      (behind_schedule, 85, "Requires immediate attention") in
  ret {| Prediction.status := status;
         Prediction.confidence := confidence;
         Prediction.recommendation := recommendation;
         Prediction.metrics :=
           {| Metrics.expectedProgress := round expectedProgress;
              Metrics.actualProgress := round actualProgress;
              Metrics.progressDelta := round progressDelta;
              Metrics.daysRemaining := daysRemaining |} |}.

(** ** The risk scorer *)

(** [task.depends_on && task.depends_on.length > 0] *)
Definition hasDependencies (task : Task.t) : bool :=
  match Task.depends_on task with
  | Some deps => (0 <? Z.of_nat (length deps))
  | None => false
  end.

Definition calculateRiskScore (task : Task.t) : M Z :=
  let score := 0 in
  let* now := newDate in
  let dueDate := timeValue (Task.due_date task) in
  let daysUntilDue := ceilDays dueDate (of_Z now) in
  let progress := toNumber (Task.progress task) in
  (* Already overdue *)
  let score := if ltb daysUntilDue (of_Z 0) then score + 5 else score in
  (* Due very soon with low progress *)
  let score :=
    if leb daysUntilDue (of_Z 1) && ltb progress (of_Z 80) then score + 4
    else if leb daysUntilDue (of_Z 3) && ltb progress (of_Z 50) then score + 3
    else score in
  (* High priority task with low progress *)
  let score :=
    if bool_decide (Task.priority task = high) && ltb progress (of_Z 30)
    then score + 2 else score in
  (* Task has dependencies that are incomplete *)
  let score := if hasDependencies task then score + 1 else score in
  (* Estimated hours vs days remaining *)
  let score :=
    match Task.estimated_hours task with
    | Some hours =>
        if truthy (Fin hours) && gtb daysUntilDue (of_Z 0) then
          let hoursPerDay := of_Z 6 in
          let requiredDays := div (Fin hours) hoursPerDay in
          if gtb requiredDays daysUntilDue then score + 2 else score
        else score
    | None => score
    end in
  ret (Z.min 10 score).

(** How [`${task.progress}`] reads. *)
Definition showProgress (p : option Z) : string :=
  match p with Some z => pretty z | None => "undefined" end.

Definition getRiskReasons (task : Task.t) (score : Z) : M loc :=
  let* reasons := alloc (Strings []) in
  let* now := newDate in
  let dueDate := timeValue (Task.due_date task) in
  let daysUntilDue := ceilDays dueDate (of_Z now) in
  let progress := toNumber (Task.progress task) in
  (if ltb daysUntilDue (of_Z 0) then
     pushString reasons ("Overdue by " +:+ toString (abs daysUntilDue) +:+ " day(s)")
   else if leb daysUntilDue (of_Z 1) then
     pushString reasons ("Due in " +:+ toString daysUntilDue +:+ " day(s)")
   else ret tt) ;;;
  (if ltb progress (of_Z 50) && leb daysUntilDue (of_Z 3) then
     pushString reasons ("Only " +:+ showProgress (Task.progress task) +:+ "% complete")
   else ret tt) ;;;
  (if bool_decide (Task.priority task = high) then pushString reasons "High priority"
   else ret tt) ;;;
  (if hasDependencies task then pushString reasons "Has dependencies" else ret tt) ;;;
  ret reasons.

(** The callback of [tasks.forEach] in [detectRisks]. *)
Definition assessTask (risks : loc) (task : Task.t) : M unit :=
  let* riskScore := calculateRiskScore task in
  if 7 <=? riskScore then
    let* reasons := getRiskReasons task riskScore in
    pushRisk risks {| RiskEntry.task := task;
                      RiskEntry.riskScore := riskScore;
                      RiskEntry.severity := High;
                      RiskEntry.reasons := reasons |}
  else if 4 <=? riskScore then
    let* reasons := getRiskReasons task riskScore in
    pushRisk risks {| RiskEntry.task := task;
                      RiskEntry.riskScore := riskScore;
                      RiskEntry.severity := Medium;
                      RiskEntry.reasons := reasons |}
  else ret tt.

(** [detectRisks(tasks)] returns the array [risks], sorted in place. *)
Definition detectRisks (tasks : loc) : M loc :=
  let* risks := alloc (Risks []) in
  let* ts := loadTasks tasks in
  forEach (assessTask risks) ts ;;;
  sortRisks (fun a b => RiskEntry.riskScore b - RiskEntry.riskScore a) risks ;;;
  ret risks.

(** ** The workload balancer *)

Module Balancing.
Record t : Type := mk {
  needsBalancing : bool;
  overloaded : option Workload.t;
  underutilized : option Workload.t;
  suggestion : option string;
  message : option string
}.
End Balancing.

(** The callback of [teamMembers.map] in [suggestWorkloadBalancing]. *)
Definition workloadOf (tasks : loc) (member : Member.t) : M Workload.t :=
  let* ts := loadTasks tasks in
  let* memberTasks := alloc (Tasks (List.filter (isActiveTaskOf member) ts)) in
  let* mts := loadTasks memberTasks in
  ret {| Workload.member := member;
         Workload.taskCount := Z.of_nat (length mts);
         Workload.tasks := memberTasks |}.

(** [a[i].taskCount] and the like: reading a property of [a[i]] throws
    when [a[i]] is [undefined]. *)
Definition elementAt {A} (a : list A) (i : Z) : M A :=
  match (if 0 <=? i then a !! Z.to_nat i else None) with
  | Some x => ret x
  | None => throw TypeError
  end.

Definition suggestWorkloadBalancing (teamMembers tasks : loc) : M Balancing.t :=
  let* ms := loadMembers teamMembers in
  let* ws := mapM (workloadOf tasks) ms in
  let* workload := alloc (Workloads ws) in
  sortWorkloads (fun a b => Workload.taskCount b - Workload.taskCount a) workload ;;;
  let* w := loadWorkloads workload in
  let* first := elementAt w 0 in
  let maxLoad := Workload.taskCount first in
  let* last := elementAt w (Z.of_nat (length w) - 1) in
  let minLoad := Workload.taskCount last in
  if 3 <=? maxLoad - minLoad then
    ret {| Balancing.needsBalancing := true;
           Balancing.overloaded := Some first;
           Balancing.underutilized := Some last;
           Balancing.suggestion :=
             Some ("Consider reassigning tasks from "
                   +:+ Member.name (Workload.member first)
                   +:+ " (" +:+ pretty maxLoad +:+ " tasks) to "
                   +:+ Member.name (Workload.member last)
                   +:+ " (" +:+ pretty minLoad +:+ " tasks)");
           Balancing.message := None |}
  else
    ret {| Balancing.needsBalancing := false;
           Balancing.overloaded := None;
           Balancing.underutilized := None;
           Balancing.suggestion := None;
           Balancing.message := Some "Workload is balanced across team" |}.

(** * The database helpers

    [backend/database.js] rewrites the placeholders of a query before it
    sends it.  A text is the string of its bytes in UTF-8, in which the
    byte of [?] stands for the character [?] only. *)

(** The replacer [() => `$${index++}`] of [convertPlaceholders]: it gives
    the text of the placeholder number [index] and leaves the counter one
    further. *)
Definition nextPlaceholder (index : N) : string * N :=
  ("$" +:+ pretty index, (index + 1)%N).

(** [sql.replace(/\?/g, replacer)], from left to right; the counter is
    threaded through the calls of the replacer. *)
Fixpoint replaceQuestionMarks (sql : string) (index : N) : string * N :=
  match sql with
  | EmptyString => (EmptyString, index)
  | String c rest =>
      if Ascii.eqb c "?"%char then
        let '(placeholder, index) := nextPlaceholder index in
        let '(rest', index) := replaceQuestionMarks rest index in
        (placeholder +:+ rest', index)
      else
        let '(rest', index) := replaceQuestionMarks rest index in
        (String c rest', index)
  end.

Definition convertPlaceholders (sql : string) : string :=
  let index := 1%N in
  (replaceQuestionMarks sql index).1.

(** * The routes that call the engine

    [backend/routes/ai.routes.js] asks the database for rows and hands
    them to the engine.  A handler is modelled from its [try] to the
    response it sends; the middleware in front of it (authentication, rate
    limit) and [console.error] are not.  [GET /risks] and
    [GET /suggestions] pass arrays of task and member rows, which are cells
    of the store. *)

#[global] Instance Severity_eq_dec : EqDecision Severity.
Proof. solve_decision. Defined.

(** [req.user]. *)
Module User.
Record t : Type := mk {
  id : Z;
  role : string;
  dept : string
}.
End User.

(** A parameter of a query. *)
Inductive SqlValue : Type :=
| SqlNumber (z : Z)
| SqlText (s : string).

(** The module the routes require as [db], as far as they use it: its
    property [query], [None] when the module has none.  A call of
    [db.query(text, params)] gives the array [rows] of its result, or
    throws. *)
Module Database.
Record t : Type := mk {
  query : option (string -> list SqlValue -> M loc)
}.
End Database.

(** [module.exports = { pool, runQuery, getOne, getAll }] of
    [backend/database.js], the module [require('../database')] gives the
    routes: it has no property [query]. *)
Definition database : Database.t := {| Database.query := None |}.

(** [(await db.query(text, params)).rows]; calling a property that is
    [undefined] throws a [TypeError]. *)
Definition dbQuery (db : Database.t) (text : string) (params : list SqlValue)
  : M loc :=
  match Database.query db with
  | Some query => query text params
  | None => throw TypeError
  end.

(** [try { body } catch (error) { handler }]. *)
Definition tryCatch {A} (body : M A) (handler : Exn -> M A) : M A :=
  fun s =>
    match body s with
    | (Ok a, s') => (Ok a, s')
    | (Throw e, s') => handler e s'
    end.

(** What a handler sends: [res.status(code).json(body)], the status being
    200 when it is not set. *)
Inductive Body : Type :=
| ErrorBody (error : string)
| RisksBody (risks : loc) (count high_severity medium_severity : Z)
| SuggestionBody (member_id : Z) (member_name : string) (score : Z)
    (reasoning : string) (activeTasks : Z).

Module Response.
Record t : Type := mk {
  status : Z;
  body : Body
}.
End Response.

Definition json (body : Body) : Response.t :=
  {| Response.status := 200; Response.body := body |}.

Definition statusJson (code : Z) (body : Body) : Response.t :=
  {| Response.status := code; Response.body := body |}.

(** [GET /api/ai/risks]. *)
Definition getRisks (db : Database.t) (user : User.t) : M Response.t :=
  tryCatch
    (let query := "SELECT * FROM weekly_tasks WHERE status IN ($1, $2)" in
     let params := [SqlText "pending"; SqlText "in_progress"] in
     (* If not admin, only show user's tasks or department tasks for leads *)
     let '(query, params) :=
       if String.eqb (User.role user) "employee"
          || String.eqb (User.role user) "intern"
       then (query +:+ " AND assigned_to = $3", params ++ [SqlNumber (User.id user)])
       else if String.eqb (User.role user) "lead"
       then (query +:+ " AND dept = $3", params ++ [SqlText (User.dept user)])
       else (query, params) in
     let* tasks := dbQuery db query params in
     let* risks := detectRisks tasks in
     let* rs := loadRisks risks in
     ret (json (RisksBody risks
                  (Z.of_nat (length rs))
                  (Z.of_nat (length (List.filter
                     (fun r => bool_decide (RiskEntry.severity r = High)) rs)))
                  (Z.of_nat (length (List.filter
                     (fun r => bool_decide (RiskEntry.severity r = Medium)) rs))))))
    (fun error => ret (statusJson 500 (ErrorBody "Failed to detect risks"))).

(** [context === 'task_assignment' && task_id], for the two parameters
    of the query string; the task id is [Some] when the guard holds. *)
Definition assignmentRequest (context task_id : option string) : option string :=
  match context, task_id with
  | Some c, Some i =>
      if String.eqb c "task_assignment" && negb (String.eqb i "") then Some i else None
  | _, _ => None
  end.

(** [GET /api/ai/suggestions]. *)
Definition getSuggestions (db : Database.t) (user : User.t)
  (context task_id : option string) : M Response.t :=
  tryCatch
    (match assignmentRequest context task_id with
     | Some task_id =>
         (* Get task details *)
         let* task :=
           dbQuery db "SELECT * FROM weekly_tasks WHERE id = $1" [SqlText task_id] in
         let* taskRows := loadTasks task in
         match taskRows with
         | [] => ret (statusJson 404 (ErrorBody "Task not found"))
         | taskData :: _ =>
             (* Get team members in same department *)
             let* teamMembers :=
               dbQuery db
                 "SELECT id, name, email, role FROM users WHERE dept = $1 AND status = $2 AND role IN ($3, $4)"
                 [SqlText (User.dept user); SqlText "active";
                  SqlText "employee"; SqlText "intern"] in
             (* Get all active tasks *)
             let* activeTasks :=
               dbQuery db "SELECT * FROM weekly_tasks WHERE status IN ($1, $2)"
                 [SqlText "pending"; SqlText "in_progress"] in
             (* Use smart features to suggest best assignee *)
             let* suggestion := suggestAssignee taskData teamMembers activeTasks in
             match suggestion with
             | Some suggestion =>
                 ret (json (SuggestionBody
                              (Member.id (Candidate.member suggestion))
                              (Member.name (Candidate.member suggestion))
                              (Candidate.score suggestion)
                              (Candidate.reasoning suggestion)
                              (Candidate.activeTasks suggestion)))
             | None => throw TypeError   (* [suggestion.member] of [undefined] *)
             end
         end
     | None =>
         ret (statusJson 400 (ErrorBody "Invalid context or missing parameters"))
     end)
    (fun error => ret (statusJson 500 (ErrorBody "Failed to generate suggestions"))).

(** * The engine, as the specification words it

    The definitions of this part state what the functions above compute,
    in the terms of the specification: as functions of the arguments, of the
    arrays in the store and of the times the clock gives.  The properties
    below relate the two. *)

(** ** Sorting *)

(** Every comparator of the engine is [fun a b => key b - key a] for an
    integer key: the sort is descending by key. *)
Definition byKeyDesc {A} (key : A -> Z) : A -> A -> Z := fun a b => key b - key a.

(** The array is in descending order of key. *)
Definition Descending {A} (key : A -> Z) (a : list A) : Prop :=
  StronglySorted (fun x y => key y <= key x) a.

(** [h] is the first element of the largest key. *)
Definition FirstMax {A} (key : A -> Z) (h : A) (a : list A) : Prop :=
  exists pre post, a = pre ++ h :: post
    /\ (forall x, x ∈ pre -> key x < key h)
    /\ (forall x, x ∈ post -> key x <= key h).

(** [u] is the last element of the smallest key. *)
Definition LastMin {A} (key : A -> Z) (u : A) (a : list A) : Prop :=
  exists pre post, a = pre ++ u :: post
    /\ (forall x, x ∈ pre -> key u <= key x)
    /\ (forall x, x ∈ post -> key u < key x).

(** ** States *)

(** The state after [n] more reads of the clock. *)
Definition advance (n : nat) (s : State) : State :=
  {| heap := heap s; clock := clock s; reads := n + reads s |}.

(** The state after the cells [cs] are allocated. *)
Definition extend (cs : list cell) (s : State) : State :=
  {| heap := heap s ++ cs; clock := clock s; reads := reads s |}.

(** The time the next [new Date()] returns. *)
Definition now (s : State) : Z := clock s (reads s).

(** A filter whose predicate reads the clock once per element. *)
Fixpoint filterAt {A} (p : Z -> A -> bool) (ck : nat -> Z) (k : nat) (a : list A)
  : list A :=
  match a with
  | [] => []
  | x :: a' =>
      if p (ck k) x then x :: filterAt p ck (S k) a' else filterAt p ck (S k) a'
  end.

(** ** The risk scorer *)

(** [days_until_due]: the ceiling of (due_date − now) in days. *)
Definition daysUntilDueAt (now : Z) (task : Task.t) : num :=
  ceilDays (timeValue (Task.due_date task)) (of_Z now).

(** The bonuses of the scoring rule, in the order of the rule: overdue
    ([days] negative), due soon with little progress, high priority with
    little progress, dependencies, and more estimated work than days left.
    A bonus that does not apply is 0. *)
Definition riskBonuses (days : num) (task : Task.t) : list Z :=
  let progress := toNumber (Task.progress task) in
  [ if ltb days (of_Z 0) then 5 else 0;
    if leb days (of_Z 1) && ltb progress (of_Z 80) then 4
    else if leb days (of_Z 3) && ltb progress (of_Z 50) then 3 else 0;
    if bool_decide (Task.priority task = high) && ltb progress (of_Z 30) then 2 else 0;
    if hasDependencies task then 1 else 0;
    match Task.estimated_hours task with
    | Some hours =>
        if truthy (Fin hours) && gtb days (of_Z 0)
           && gtb (div (Fin hours) (of_Z 6)) days
        then 2 else 0
    | None => 0
    end ].

Definition sumZ (l : list Z) : Z := foldr Z.add 0 l.

(** The score at the time [now]: the sum of the bonuses, at most 10. *)
Definition riskScoreAt (now : Z) (task : Task.t) : Z :=
  Z.min 10 (sumZ (riskBonuses (daysUntilDueAt now task) task)).

(** The reasons of a risk entry, in the order of the checks. *)
Definition riskReasonsAt (now : Z) (task : Task.t) : list string :=
  let days := daysUntilDueAt now task in
  let progress := toNumber (Task.progress task) in
  (if ltb days (of_Z 0) then
     ["Overdue by " +:+ toString (abs days) +:+ " day(s)"]
   else if leb days (of_Z 1) then
     ["Due in " +:+ toString days +:+ " day(s)"]
   else [])
  ++ (if ltb progress (of_Z 50) && leb days (of_Z 3) then
        ["Only " +:+ showProgress (Task.progress task) +:+ "% complete"]
      else [])
  ++ (if bool_decide (Task.priority task = high) then ["High priority"] else [])
  ++ (if hasDependencies task then ["Has dependencies"] else []).

(** The severity of an entry of score [score]. *)
Definition severityOf (score : Z) : Severity := if 7 <=? score then High else Medium.

(** The entries [detectRisks] pushes, in input order: the task scored at
    the [k]-th read of the clock gets an entry when its score is at least
    4; [l] is where the next array of reasons is allocated. *)
Fixpoint riskEntries (ck : nat -> Z) (k : nat) (l : loc) (ts : list Task.t)
  : list RiskEntry.t :=
  match ts with
  | [] => []
  | t :: ts' =>
      let s := riskScoreAt (ck k) t in
      if 4 <=? s then
        {| RiskEntry.task := t; RiskEntry.riskScore := s;
           RiskEntry.severity := severityOf s; RiskEntry.reasons := l |}
        :: riskEntries ck (S (S k)) (S l) ts'
      else riskEntries ck (S k) l ts'
  end.

(** The arrays of reasons allocated on the way. *)
Fixpoint riskReasonCells (ck : nat -> Z) (k : nat) (ts : list Task.t) : list cell :=
  match ts with
  | [] => []
  | t :: ts' =>
      if 4 <=? riskScoreAt (ck k) t then
        Strings (riskReasonsAt (ck (S k)) t) :: riskReasonCells ck (S (S k)) ts'
      else riskReasonCells ck (S k) ts'
  end.

(** ** The assignee recommender *)

(** The member's active tasks among [ts]. *)
Definition memberTasksOf (member : Member.t) (ts : list Task.t) : list Task.t :=
  List.filter (isActiveTaskOf member) ts.

(** The number of [a]'s elements that satisfy [p], the [i]-th element being
    tested at the read [k + i] of the clock. *)
Definition countAt (p : Z -> Task.t -> bool) (ck : nat -> Z) (k : nat)
  (a : list Task.t) : Z :=
  Z.of_nat (length (filterAt p ck k a)).

(** The score of a member before it is clamped. *)
Definition rawScoreAt (ck : nat -> Z) (k : nat) (taskData : Task.t)
  (ts : list Task.t) (member : Member.t) : Z :=
  let memberTasks := memberTasksOf member ts in
  let n := length memberTasks in
  100 - 15 * Z.of_nat n
  - 25 * countAt isOverdueAt ck k memberTasks
  + 20 * matchingSkills taskData member
  - 10 * countAt isUpcomingAt ck (n + k) memberTasks.

(** The clauses of the reasoning string. *)
Definition reasoningClauses (taskCount overdueCount : Z) : list string :=
  [ if taskCount =? 0 then "no active tasks"
    else if taskCount <=? 2 then
      "only " +:+ pretty taskCount +:+ " active task"
      +:+ (if 1 <? taskCount then "s" else "")
    else pretty taskCount +:+ " active tasks" ]
  ++ (if 0 <? overdueCount then [pretty overdueCount +:+ " overdue"] else []).

(** The tier of a score that is not clamped. *)
Definition fitTier (score : Z) : string :=
  if 80 <=? score then "Best fit"
  else if 50 <=? score then "Good fit"
  else "Available but busy".

Definition reasoningText (member : Member.t) (taskCount overdueCount score : Z)
  : string :=
  Member.name member +:+ " - " +:+ fitTier score +:+ ": "
  +:+ join ", " (reasoningClauses taskCount overdueCount).

(** The candidate of a member whose tasks are tested from the read [k] of
    the clock on. *)
Definition candidateAt (ck : nat -> Z) (k : nat) (taskData : Task.t)
  (ts : list Task.t) (member : Member.t) : Candidate.t :=
  let memberTasks := memberTasksOf member ts in
  let overdueCount := countAt isOverdueAt ck k memberTasks in
  let score := rawScoreAt ck k taskData ts member in
  {| Candidate.member := member;
     Candidate.score := Z.max 0 score;
     Candidate.activeTasks := Z.of_nat (length memberTasks);
     Candidate.overdueCount := overdueCount;
     Candidate.reasoning :=
       reasoningText member (Z.of_nat (length memberTasks)) overdueCount score |}.

(** The candidates in member order; a member with [n] active tasks reads
    the clock [2 * n] times. *)
Fixpoint candidatesFrom (ck : nat -> Z) (k : nat) (taskData : Task.t)
  (ts : list Task.t) (ms : list Member.t) : list Candidate.t :=
  match ms with
  | [] => []
  | m :: ms' =>
      let n := length (memberTasksOf m ts) in
      candidateAt ck k taskData ts m :: candidatesFrom ck (n + n + k) taskData ts ms'
  end.

(** ** The workload balancer *)

(** [activeTaskCount]: the number of the member's pending or in-progress
    tasks. *)
Definition activeTaskCount (ts : list Task.t) (member : Member.t) : Z :=
  Z.of_nat (length (memberTasksOf member ts)).

(** The workload entries in member order; [l] is where the member's array
    of tasks is allocated. *)
Fixpoint workloadsFrom (l : loc) (ts : list Task.t) (ms : list Member.t)
  : list Workload.t :=
  match ms with
  | [] => []
  | m :: ms' =>
      {| Workload.member := m; Workload.taskCount := activeTaskCount ts m;
         Workload.tasks := l |} :: workloadsFrom (S l) ts ms'
  end.

(** What the balancer answers for the sorted workload [w]. *)
Definition balancingOf (w : list Workload.t) : Result Balancing.t :=
  match w !! 0%nat, last w with
  | Some first, Some last =>
      let maxLoad := Workload.taskCount first in
      let minLoad := Workload.taskCount last in
      if 3 <=? maxLoad - minLoad then
        Ok {| Balancing.needsBalancing := true;
              Balancing.overloaded := Some first;
              Balancing.underutilized := Some last;
              Balancing.suggestion :=
                Some ("Consider reassigning tasks from "
                      +:+ Member.name (Workload.member first)
                      +:+ " (" +:+ pretty maxLoad +:+ " tasks) to "
                      +:+ Member.name (Workload.member last)
                      +:+ " (" +:+ pretty minLoad +:+ " tasks)");
              Balancing.message := None |}
      else
        Ok {| Balancing.needsBalancing := false;
              Balancing.overloaded := None;
              Balancing.underutilized := None;
              Balancing.suggestion := None;
              Balancing.message := Some "Workload is balanced across team" |}
  | _, _ => Throw TypeError
  end.

(** ** The completion predictor *)

(** The quantities of the algorithm, for an item looked at at the time
    [now]. *)
Section Predictor.
Context (now : Z) (item : Item.t).

Definition totalDaysOf : num :=
  ceilDays (timeValue (Item.due_date item)) (timeValue (Item.created_at item)).
Definition daysElapsedAt : num :=
  ceilDays (of_Z now) (timeValue (Item.created_at item)).
Definition daysRemainingAt : num :=
  ceilDays (timeValue (Item.due_date item)) (of_Z now).
Definition expectedProgressAt : num :=
  fmul (fdiv daysElapsedAt totalDaysOf) (of_Z 100).
Definition actualProgressOf : num := progressOrZero (Item.progress item).
Definition progressDeltaAt : num := fsub actualProgressOf expectedProgressAt.
End Predictor.

(** The classification rules in their order; each is a condition and what
    it gives. *)
Definition classificationRules (daysRemaining progressDelta : num)
  : list (bool * (Schedule * Z * string)) :=
  [ (ltb daysRemaining (of_Z 0), (overdue, 100, "Immediate action required"));
    (geb progressDelta (of_Z 10), (ahead_of_schedule, 90, "On track, maintain momentum"));
    (geb progressDelta (of_Z (-10)), (on_track, 80, "Progressing well"));
    (geb progressDelta (of_Z (-25)), (at_risk, 70, "May need additional resources")) ].

(** First match wins. *)
Fixpoint firstMatch {A} (rules : list (bool * A)) (otherwise : A) : A :=
  match rules with
  | [] => otherwise
  | (cond, outcome) :: rules' => if cond then outcome else firstMatch rules' otherwise
  end.

(** Status, confidence and recommendation. *)
Definition classify (daysRemaining progressDelta : num) : Schedule * Z * string :=
  firstMatch (classificationRules daysRemaining progressDelta)
    (behind_schedule, 85, "Requires immediate attention").

(** The confidence that goes with a status. *)
Definition confidenceOf (status : Schedule) : Z :=
  match status with
  | overdue => 100
  | ahead_of_schedule => 90
  | on_track => 80
  | at_risk => 70
  | behind_schedule => 85
  end.

(** The prediction for an item looked at at the time [now]. *)
Definition predictionAt (now : Z) (item : Item.t) : Prediction.t :=
  let '(status, confidence, recommendation) :=
    classify (daysRemainingAt now item) (progressDeltaAt now item) in
  {| Prediction.status := status;
     Prediction.confidence := confidence;
     Prediction.recommendation := recommendation;
     Prediction.metrics :=
       {| Metrics.expectedProgress := round (expectedProgressAt now item);
          Metrics.actualProgress := round (actualProgressOf item);
          Metrics.progressDelta := round (progressDeltaAt now item);
          Metrics.daysRemaining := daysRemainingAt now item |} |}.

(** A number that is not finite: [NaN] or an infinity. *)
Definition nonfinite (x : num) : Prop := is_finite x = false.

(** ** What a call leaves unchanged, and what its result depends on *)

(** [keeps n m Q]: run from a store of at least [n] cells, [m] leaves the
    first [n] cells as they are, and a value it returns satisfies [Q].  The
    cells of the store a call starts from are the arrays that exist before
    the call, the arguments among them. *)
Definition keeps (n : nat) {A} (m : M A) (Q : A -> Prop) : Prop :=
  forall s, (n <= length (heap s))%nat ->
    take n (heap (m s).2) = take n (heap s)
    /\ (n <= length (heap (m s).2))%nat
    /\ forall a, (m s).1 = Ok a -> Q a.

Definition anything {A} : A -> Prop := fun _ => True.

(** [respects R m]: run from two states that [R] relates, [m] ends in the
    same result and in states that [R] relates. *)
Definition respects (R : State -> State -> Prop) {A} (m : M A) : Prop :=
  forall s1 s2, R s1 s2 -> (m s1).1 = (m s2).1 /\ R (m s1).2 (m s2).2.

(** The two states have one store, and their clocks give the same times
    from now on. *)
Definition sameReadings (s1 s2 : State) : Prop :=
  heap s1 = heap s2
  /\ forall i, clock s1 (i + reads s1)%nat = clock s2 (i + reads s2)%nat.

(** The two states have one store; their clocks are unrelated. *)
Definition sameStore (s1 s2 : State) : Prop := heap s1 = heap s2.

(** ** Integers *)

(** The number [x] is the integer [z] (either zero when [z] is 0). *)
Definition isInteger (x : num) (z : Z) : Prop :=
  x = of_Z z \/ (x = NZero /\ z = 0).

(** The ceiling of [a / b], for [b] positive. *)
Definition ceilDiv (a b : Z) : Z := - ((- a) / b).

(** The candidate's score is the formula of the specification, for the
    counts its member has at some read [k] of the clock. *)
Definition scoredByFormula (ck : nat -> Z) (taskData : Task.t) (ts : list Task.t)
  (c : Candidate.t) : Prop :=
  let member := Candidate.member c in
  let memberTasks := memberTasksOf member ts in
  exists k upcomingDeadlines,
    Candidate.activeTasks c = Z.of_nat (length memberTasks)
    /\ Candidate.overdueCount c = countAt isOverdueAt ck k memberTasks
    /\ upcomingDeadlines = countAt isUpcomingAt ck (length memberTasks + k) memberTasks
    /\ 0 <= Candidate.overdueCount c <= Candidate.activeTasks c
    /\ 0 <= upcomingDeadlines <= Candidate.activeTasks c
    /\ Candidate.score c
       = Z.max 0 (100 - 15 * Candidate.activeTasks c
                  - 25 * Candidate.overdueCount c
                  + 20 * matchingSkills taskData member
                  - 10 * upcomingDeadlines).

(** The largest and the smallest number of a list that is not empty. *)
Fixpoint maximum (l : list Z) : Z :=
  match l with
  | [] => 0
  | [x] => x
  | x :: l' => Z.max x (maximum l')
  end.

Fixpoint minimum (l : list Z) : Z :=
  match l with
  | [] => 0
  | [x] => x
  | x :: l' => Z.min x (minimum l')
  end.

(** The text of the suggestion. *)
Definition reassignText (fromName : string) (maxLoad : Z) (toName : string) (minLoad : Z)
  : string :=
  "Consider reassigning tasks from " +:+ fromName
  +:+ " (" +:+ pretty maxLoad +:+ " tasks) to " +:+ toName
  +:+ " (" +:+ pretty minLoad +:+ " tasks)".

(** ** Clocks, statuses, queries *)

(** The clock never goes back. *)
Definition nondecreasing (ck : nat -> Z) : Prop :=
  forall i j, (i <= j)%nat -> ck i <= ck j.

(** The statuses that depend on the progress, from the least progress to
    the most; [overdue] does not depend on it. *)
Definition progressRank (status : Schedule) : Z :=
  match status with
  | overdue => 0
  | behind_schedule => 0
  | at_risk => 1
  | on_track => 2
  | ahead_of_schedule => 3
  end.

(** The queries of [GET /suggestions]. *)
Definition taskByIdSql : string := "SELECT * FROM weekly_tasks WHERE id = $1".
Definition teamMembersSql : string :=
  "SELECT id, name, email, role FROM users WHERE dept = $1 AND status = $2 AND role IN ($3, $4)".
Definition activeTasksSql : string :=
  "SELECT * FROM weekly_tasks WHERE status IN ($1, $2)".

Definition teamMembersParams (user : User.t) : list SqlValue :=
  [SqlText (User.dept user); SqlText "active"; SqlText "employee"; SqlText "intern"].
Definition activeTasksParams : list SqlValue :=
  [SqlText "pending"; SqlText "in_progress"].

(** The answer of [GET /suggestions] for the result of [suggestAssignee]. *)
Definition suggestionResponse (suggestion : option Candidate.t) : Response.t :=
  match suggestion with
  | Some best =>
      json (SuggestionBody (Member.id (Candidate.member best))
              (Member.name (Candidate.member best))
              (Candidate.score best) (Candidate.reasoning best)
              (Candidate.activeTasks best))
  | None => statusJson 500 (ErrorBody "Failed to generate suggestions")
  end.

(** The number of question marks of a text. *)
Fixpoint questionMarks (sql : string) : N :=
  match sql with
  | EmptyString => 0
  | String c rest =>
      if Ascii.eqb c "?"%char then (1 + questionMarks rest)%N else questionMarks rest
  end.

(** * Sample data *)

(** A task due an hour ago that is nearly done. *)
Definition dueAnHourAgo : Task.t :=
  {| Task.id := 1; Task.assigned_to := Some 1; Task.status := pending;
     Task.priority := low; Task.due_date := Some 0; Task.progress := Some 90;
     Task.estimated_hours := None; Task.depends_on := None; Task.tags := None |}.

Definition anHourLater : State :=
  {| heap := [Tasks [dueAnHourAgo]]; clock := fun _ => 3600000; reads := 0 |}.

(** Two tasks, one two days late and one nine days away. *)
Definition twoDaysLate : Task.t :=
  {| Task.id := 7; Task.assigned_to := Some 1; Task.status := in_progress;
     Task.priority := high; Task.due_date := Some 86400000; Task.progress := Some 20;
     Task.estimated_hours := None; Task.depends_on := None; Task.tags := None |}.

Definition onDayThree : State :=
  {| heap := [Tasks [dueAnHourAgo; twoDaysLate]];
     clock := fun _ => 259200000; reads := 0 |}.

(** A completed task that was due a week ago. *)
Definition completedLastWeek : Task.t :=
  {| Task.id := 3; Task.assigned_to := Some 2; Task.status := completed;
     Task.priority := medium; Task.due_date := Some 0; Task.progress := Some 100;
     Task.estimated_hours := None; Task.depends_on := None; Task.tags := None |}.

Definition aWeekLater : State :=
  {| heap := [Tasks [completedLastWeek]]; clock := fun _ => 604800000; reads := 0 |}.

Definition mixedTasks : State :=
  {| heap := [Tasks [dueAnHourAgo; twoDaysLate; completedLastWeek]];
     clock := fun _ => 259200000; reads := 0 |}.

(** An item created and due at the same instant, looked at three days
    later. *)
Definition zeroLength : Item.t :=
  {| Item.created_at := Some 0; Item.due_date := Some 0; Item.progress := Some 40 |}.

Definition threeDaysOn : State :=
  {| heap := []; clock := fun _ => 259200000; reads := 0 |}.

(** Two members: Ann has three active tasks, one of them late; Bob has
    none and the skill the task asks for. *)
Definition ann : Member.t :=
  {| Member.id := 1; Member.name := "Ann"; Member.skills := None |}.

Definition bob : Member.t :=
  {| Member.id := 2; Member.name := "Bob"; Member.skills := Some ["sql"] |}.

Definition taskOf (i owner due : Z) : Task.t :=
  {| Task.id := i; Task.assigned_to := Some owner; Task.status := pending;
     Task.priority := medium; Task.due_date := Some due; Task.progress := None;
     Task.estimated_hours := None; Task.depends_on := None; Task.tags := None |}.

Definition newTask : Task.t :=
  {| Task.id := 9; Task.assigned_to := None; Task.status := pending;
     Task.priority := medium; Task.due_date := None; Task.progress := None;
     Task.estimated_hours := None; Task.depends_on := None;
     Task.tags := Some ["sql"] |}.

Definition annsTasks : list Task.t :=
  [taskOf 1 1 0; taskOf 2 1 864000000; taskOf 3 1 1728000000].

Definition office : State :=
  {| heap := [Members [ann; bob]; Tasks annsTasks];
     clock := fun _ => 259200000; reads := 0 |}.

(** Four members with 5, 4, 4 and 2 active tasks. *)
Definition cat : Member.t :=
  {| Member.id := 3; Member.name := "Cat"; Member.skills := None |}.

Definition dan : Member.t :=
  {| Member.id := 4; Member.name := "Dan"; Member.skills := None |}.

Definition teamTasks : list Task.t :=
  map (fun i => taskOf i 1 0) [1; 2; 3; 4; 5]
  ++ map (fun i => taskOf i 2 0) [6; 7; 8; 9]
  ++ map (fun i => taskOf i 3 0) [10; 11; 12; 13]
  ++ map (fun i => taskOf i 4 0) [14; 15].

Definition team : State :=
  {| heap := [Members [ann; bob; cat; dan]; Tasks teamTasks];
     clock := fun _ => 0; reads := 0 |}.

Definition emptyTeam : State :=
  {| heap := [Members []; Tasks teamTasks]; clock := fun _ => 0; reads := 0 |}.

(** The store of [onDayThree], with the clock at the epoch. *)
Definition onDayZero : State :=
  {| heap := heap onDayThree; clock := fun _ => 0; reads := 0 |}.

(** Two states of one store: in the first the clock was read twice. *)
Definition afterTwoReads : State :=
  {| heap := heap office; clock := fun k => 1000 * Z.of_nat k; reads := 2 |}.

Definition shiftedClock : State :=
  {| heap := heap office; clock := fun k => 1000 * (Z.of_nat k + 2); reads := 0 |}.

(** A task of high priority without a due date, which waits for another
    task. *)
Definition undated : Task.t :=
  {| Task.id := 4; Task.assigned_to := Some 1; Task.status := pending;
     Task.priority := high; Task.due_date := None; Task.progress := Some 0;
     Task.estimated_hours := Some 40%Q; Task.depends_on := Some [7];
     Task.tags := None |}.

Definition withUndated : State :=
  {| heap := [Tasks [undated; twoDaysLate]];
     clock := fun _ => 259200000; reads := 0 |}.

(** The tasks of [mixedTasks], with a clock that ticks. *)
Definition ticking : State :=
  {| heap := heap mixedTasks;
     clock := fun k => 259200000 + 1000 * Z.of_nat k; reads := 0 |}.

(** A goal: the table of goals has no due date. *)
Definition goalRow : Item.t :=
  {| Item.created_at := Some 0; Item.due_date := None; Item.progress := Some 60 |}.

(** An item that runs from day 0 to day 10, and the same item with more
    progress. *)
Definition tenDays (progress : Z) : Item.t :=
  {| Item.created_at := Some 0; Item.due_date := Some 864000000;
     Item.progress := Some progress |}.

(** The office, with two more tasks on record that are not active: one of
    Ann's that is completed and one that nobody is assigned to. *)
Definition officeArchive : State :=
  {| heap := [Members [ann; bob];
              Tasks (completedLastWeek :: annsTasks ++ [newTask])];
     clock := fun _ => 259200000; reads := 0 |}.

(** A team of one. *)
Definition soloTeam : State :=
  {| heap := [Members [ann]; Tasks teamTasks]; clock := fun _ => 0; reads := 0 |}.

(** A database that answers from three arrays of the store: the task
    asked for, the members of the department, the active tasks. *)
Definition cannedDatabase : Database.t :=
  {| Database.query :=
       Some (fun text _ =>
               ret (if String.eqb text taskByIdSql then 0%nat
                    else if String.eqb text teamMembersSql then 1%nat
                    else 2%nat)) |}.

Definition lead : User.t := {| User.id := 5; User.role := "lead"; User.dept := "ops" |}.

(** A department with two members, and one without members. *)
Definition staffed : State :=
  {| heap := [Tasks [newTask]; Members [ann; bob]; Tasks annsTasks];
     clock := fun _ => 259200000; reads := 0 |}.

Definition unstaffed : State :=
  {| heap := [Tasks [newTask]; Members []; Tasks annsTasks];
     clock := fun _ => 259200000; reads := 0 |}.

(** An item that runs from day 0 to day 20, looked at on day 11: binary64
    gives 11 / 20 * 100 = 55.00000000000001. *)
Definition twentyDays (progress : Z) : Item.t :=
  {| Item.created_at := Some 0; Item.due_date := Some 1728000000;
     Item.progress := Some progress |}.

Definition onDayEleven : State :=
  {| heap := []; clock := fun _ => 950400000; reads := 0 |}.

(** An item that runs from day 0 to day 40, looked at on day 23: binary64
    gives 23 / 40 * 100 = 57.49999999999999. *)
Definition fortyDays (progress : Z) : Item.t :=
  {| Item.created_at := Some 0; Item.due_date := Some 3456000000;
     Item.progress := Some progress |}.

Definition onDayTwentyThree : State :=
  {| heap := []; clock := fun _ => 1987200000; reads := 0 |}.

(** * Properties *)

(** ** The stable descending sort *)

Section SortFacts.
Context {A : Type} (key : A -> Z).

Lemma byKeyDesc_pos x y : (0 <? byKeyDesc key x y) = (key x <? key y).
Proof. unfold byKeyDesc. apply eq_iff_eq_true. rewrite !Z.ltb_lt. lia. Qed.

Lemma insert_sorted_cons x y a :
  insert_sorted (byKeyDesc key) x (y :: a)
  = if key x <? key y then y :: insert_sorted (byKeyDesc key) x a else x :: y :: a.
Proof. cbn [insert_sorted]. by rewrite byKeyDesc_pos. Qed.

Lemma insert_sorted_perm x a : insert_sorted (byKeyDesc key) x a ≡ₚ x :: a.
Proof.
  induction a as [|y a IH]; [done|].
  rewrite insert_sorted_cons. destruct (key x <? key y); [|done].
  rewrite IH. apply Permutation_swap.
Qed.

Lemma sort_perm a : sort (byKeyDesc key) a ≡ₚ a.
Proof.
  induction a as [|x a IH]; simpl; [done|].
  rewrite insert_sorted_perm. by rewrite IH.
Qed.

Lemma sort_elem x a : x ∈ sort (byKeyDesc key) a ↔ x ∈ a.
Proof. by rewrite sort_perm. Qed.

Lemma sort_length a : length (sort (byKeyDesc key) a) = length a.
Proof. by rewrite sort_perm. Qed.

Lemma insert_sorted_descending x a :
  Descending key a -> Descending key (insert_sorted (byKeyDesc key) x a).
Proof.
  unfold Descending.
  induction 1 as [|y a Hs IH Hy].
  - repeat constructor.
  - rewrite insert_sorted_cons.
    destruct (Z.ltb_spec (key x) (key y)) as [Hlt|Hge].
    + constructor; [done|].
      rewrite Forall_forall. intros z Hz.
      rewrite insert_sorted_perm in Hz.
      apply elem_of_cons in Hz as [->|Hz]; [lia|].
      rewrite Forall_forall in Hy. by apply Hy.
    + constructor; [by constructor|].
      constructor; [lia|].
      eapply Forall_impl; [exact Hy|]. simpl. intros. lia.
Qed.

Lemma sort_descending a : Descending key (sort (byKeyDesc key) a).
Proof.
  induction a as [|x a IH]; simpl; [constructor|].
  by apply insert_sorted_descending.
Qed.

(** Stability: the elements of one key keep their order. *)
Lemma insert_sorted_stable v x a :
  List.filter (fun y => key y =? v) (insert_sorted (byKeyDesc key) x a)
  = List.filter (fun y => key y =? v) (x :: a).
Proof.
  induction a as [|y a IH]; [done|].
  rewrite insert_sorted_cons.
  destruct (Z.ltb_spec (key x) (key y)) as [Hlt|Hge]; [|done].
  cbn [List.filter] in *. rewrite IH.
  destruct (Z.eqb_spec (key x) v), (Z.eqb_spec (key y) v); try done; lia.
Qed.

Lemma sort_stable v a :
  List.filter (fun y => key y =? v) (sort (byKeyDesc key) a)
  = List.filter (fun y => key y =? v) a.
Proof.
  induction a as [|x a IH]; [done|].
  cbn [sort]. rewrite insert_sorted_stable. cbn [List.filter].
  by rewrite IH.
Qed.



Lemma sort_head a h : sort (byKeyDesc key) a !! 0%nat = Some h -> FirstMax key h a.
Proof.
  revert h. induction a as [|x a IH]; intros h; [done|].
  cbn [sort]. destruct (sort (byKeyDesc key) a) as [|h' s] eqn:Hs.
  - assert (a = []) as ->.
    { apply length_zero_iff_nil. by rewrite <- sort_length, Hs. }
    simpl. intros [= <-]. exists [], [].
    split_and!; [done|..]; by intros ? ?%elem_of_nil.
  - destruct (IH h' eq_refl) as (pre & post & -> & Hpre & Hpost).
    rewrite insert_sorted_cons.
    destruct (Z.ltb_spec (key x) (key h')) as [Hlt|Hge]; simpl; intros [= <-].
    + exists (x :: pre), post. split_and!; [done| |done].
      intros z [->|Hz]%elem_of_cons; [lia|by apply Hpre].
    + exists [], (pre ++ h' :: post).
      split_and!; [done|by intros ? ?%elem_of_nil|].
      intros z [Hz|[->|Hz]%elem_of_cons]%elem_of_app.
      * specialize (Hpre _ Hz). lia.
      * lia.
      * specialize (Hpost _ Hz). lia.
Qed.

Lemma insert_sorted_last x a :
  last (insert_sorted (byKeyDesc key) x a)
  = if forallb (fun y => key x <? key y) a then Some x else last a.
Proof.
  induction a as [|y a IH]; [done|].
  rewrite insert_sorted_cons. cbn [forallb].
  destruct (key x <? key y); cbn [andb];
    [|rewrite last_cons, (last_cons y); by destruct (last a)].
  rewrite last_cons, IH.
  destruct (forallb _ a) eqn:Hall; [done|].
  rewrite last_cons. by destruct (last a).
Qed.

Lemma sort_last a u : last (sort (byKeyDesc key) a) = Some u -> LastMin key u a.
Proof.
  revert u. induction a as [|x a IH]; intros u; [done|].
  cbn [sort]. rewrite insert_sorted_last.
  destruct (forallb _ (sort (byKeyDesc key) a)) eqn:Hall.
  - intros [= <-]. exists [], a.
    split_and!; [done|by intros ? ?%elem_of_nil|].
    intros z Hz. rewrite forallb_forall in Hall.
    rewrite <- sort_elem in Hz. apply list_elem_of_In, Hall in Hz. lia.
  - intros Hu. destruct (IH u Hu) as (pre & post & -> & Hpre & Hpost).
    exists (x :: pre), post. split_and!; [done| |done].
    intros z [->|Hz]%elem_of_cons; [|by apply Hpre].
    destruct (Z.le_gt_cases (key u) (key x)) as [|Hlt]; [done|].
    exfalso. apply not_true_iff_false in Hall. apply Hall.
    apply forallb_forall. intros y Hy%list_elem_of_In.
    rewrite sort_elem in Hy.
    apply Z.ltb_lt.
    apply elem_of_app in Hy as [Hy|[->|Hy]%elem_of_cons].
    + specialize (Hpre _ Hy). lia.
    + lia.
    + specialize (Hpost _ Hy). lia.
Qed.
End SortFacts.

(** ** Running the monad *)

Lemma bind_run {A B} (m : M A) (k : A -> M B) s a s' :
  m s = (Ok a, s') -> bind m k s = k a s'.
Proof. unfold bind. by intros ->. Qed.

Lemma bind_throw {A B} (m : M A) (k : A -> M B) s e s' :
  m s = (Throw e, s') -> bind m k s = (Throw e, s').
Proof. unfold bind. by intros ->. Qed.

Lemma newDate_run s : newDate s = (Ok (now s), advance 1 s).
Proof. done. Qed.

Lemma alloc_run c s : alloc c s = (Ok (length (heap s)), extend [c] s).
Proof. done. Qed.

Lemma load_run l c s : heap s !! l = Some c -> load l s = (Ok c, s).
Proof. unfold load. by intros ->. Qed.

Lemma loadTasks_run l a s : heap s !! l = Some (Tasks a) -> loadTasks l s = (Ok a, s).
Proof. intros H. unfold loadTasks. by rewrite (bind_run _ _ _ _ _ (load_run _ _ _ H)). Qed.

Lemma loadMembers_run l a s :
  heap s !! l = Some (Members a) -> loadMembers l s = (Ok a, s).
Proof. intros H. unfold loadMembers. by rewrite (bind_run _ _ _ _ _ (load_run _ _ _ H)). Qed.

Lemma loadStrings_run l a s :
  heap s !! l = Some (Strings a) -> loadStrings l s = (Ok a, s).
Proof. intros H. unfold loadStrings. by rewrite (bind_run _ _ _ _ _ (load_run _ _ _ H)). Qed.

Lemma loadRisks_run l a s : heap s !! l = Some (Risks a) -> loadRisks l s = (Ok a, s).
Proof. intros H. unfold loadRisks. by rewrite (bind_run _ _ _ _ _ (load_run _ _ _ H)). Qed.

Lemma loadCandidates_run l a s :
  heap s !! l = Some (Candidates a) -> loadCandidates l s = (Ok a, s).
Proof.
  intros H. unfold loadCandidates.
  by rewrite (bind_run _ _ _ _ _ (load_run _ _ _ H)).
Qed.

Lemma loadWorkloads_run l a s :
  heap s !! l = Some (Workloads a) -> loadWorkloads l s = (Ok a, s).
Proof.
  intros H. unfold loadWorkloads.
  by rewrite (bind_run _ _ _ _ _ (load_run _ _ _ H)).
Qed.

Lemma lookup_middle {A} (h k : list A) x : (h ++ x :: k) !! length h = Some x.
Proof. by apply list_lookup_middle. Qed.

Lemma insert_middle {A} (h k : list A) x y :
  <[length h := y]> (h ++ x :: k) = h ++ y :: k.
Proof.
  replace (length h) with (length h + 0)%nat by lia.
  by rewrite insert_app_r.
Qed.

(** A [push] on the array at the end of the store. *)
Lemma pushString_run h a x ck rd :
  pushString (length h) x {| heap := h ++ [Strings a]; clock := ck; reads := rd |}
  = (Ok tt, {| heap := h ++ [Strings (a ++ [x])]; clock := ck; reads := rd |}).
Proof.
  unfold pushString.
  erewrite bind_run; [|apply loadStrings_run, lookup_middle].
  unfold store. cbn [heap clock reads]. by rewrite insert_middle.
Qed.

Lemma pushRisk_run h k a x ck rd :
  pushRisk (length h) x {| heap := h ++ Risks a :: k; clock := ck; reads := rd |}
  = (Ok tt, {| heap := h ++ Risks (a ++ [x]) :: k; clock := ck; reads := rd |}).
Proof.
  unfold pushRisk.
  erewrite bind_run; [|apply loadRisks_run, lookup_middle].
  unfold store. cbn [heap clock reads]. by rewrite insert_middle.
Qed.

Lemma filterM_clock {A} (p : Z -> A -> bool) (a : list A) s :
  filterM (fun t => let* now := newDate in ret (p now t)) a s
  = (Ok (filterAt p (clock s) (reads s) a), advance (length a) s).
Proof.
  revert s. induction a as [|x a IH]; intros s; [by destruct s|].
  cbn [filterM filterAt].
  erewrite bind_run; [|erewrite bind_run; [|apply newDate_run]; reflexivity].
  erewrite bind_run; [|apply IH].
  unfold ret, advance, now. cbn [heap clock reads length].
  f_equal. f_equal. lia.
Qed.

Lemma filterAt_length_le {A} (p : Z -> A -> bool) ck k (a : list A) :
  (length (filterAt p ck k a) <= length a)%nat.
Proof.
  revert k. induction a as [|x a IH]; intros k; simpl; [lia|].
  specialize (IH (S k)). destruct (p (ck k) x); simpl; lia.
Qed.

(** ** Numbers that are integers

    Time values, counts and the results of [Math.ceil] are integers; on
    them the operations of [JsNum] are those of [Z]. *)

Lemma Qle_bool_inject a b : Qle_bool (inject_Z a) (inject_Z b) = (a <=? b).
Proof.
  apply eq_iff_eq_true. by rewrite Qle_bool_iff, Z.leb_le, Zle_Qle.
Qed.

Lemma Qzero_b_inject a : Qzero_b (inject_Z a) = (a =? 0).
Proof.
  unfold Qzero_b. apply eq_iff_eq_true. rewrite Qeq_bool_iff, Z.eqb_eq.
  change 0%Q with (inject_Z 0). apply inject_Z_injective.
Qed.

Lemma Qred_inject z : Qred (inject_Z z) = inject_Z z.
Proof.
  unfold Qred, inject_Z.
  pose proof (Z.ggcd_gcd z 1) as Hg.
  pose proof (Z.ggcd_correct_divisors z 1) as Hd.
  destruct (Z.ggcd z 1) as [g [aa bb]]. cbn [fst snd] in *.
  rewrite Z.gcd_1_r in Hg. subst g. destruct Hd as [Ha Hb].
  f_equal; [lia|]. apply Pos2Z.inj. rewrite Z2Pos.id; lia.
Qed.

Lemma ltb_of_Z a b : ltb (of_Z a) (of_Z b) = (a <? b).
Proof. unfold ltb, of_Z, val. rewrite Qle_bool_inject. 
  rewrite Z.ltb_antisym. done. Qed.

Lemma leb_of_Z a b : leb (of_Z a) (of_Z b) = (a <=? b).
Proof. unfold leb, of_Z, val. apply Qle_bool_inject. Qed.

(** The difference of two time values. *)
Lemma sub_of_Z a b : exists q, sub (of_Z a) (of_Z b) = Fin q /\ (q == inject_Z (a - b))%Q.
Proof.
  unfold sub, of_Z, neg. rewrite Qzero_b_inject.
  destruct (Z.eqb_spec b 0) as [->|Hb]; cbn [add].
  - eexists; split; [done|]. by rewrite Z.sub_0_r.
  - eexists; split; [done|].
    rewrite !Qred_correct. unfold Z.sub. rewrite inject_Z_plus, inject_Z_opp. done.
Qed.

Lemma div_day q :
  exists q', div (Fin q) MS_PER_DAY = Fin q' /\ (q' == q / inject_Z 86400000)%Q.
Proof.
  unfold div, MS_PER_DAY. cbn [is_nan is_inf is_zero of_Z orb andb sign val].
  change (Qzero_b (inject_Z (1000 * 60 * 60 * 24))) with false.
  change (Qneg_b (inject_Z (1000 * 60 * 60 * 24))) with false.
  rewrite andb_false_r. cbn [orb].
  destruct (Qzero_b q) eqn:Hz.
  - apply Qeq_bool_iff in Hz. exists 0%Q. split.
    + unfold Qneg_b. rewrite Hz. done.
    + rewrite Hz. done.
  - eexists; split; [done|]. rewrite Qred_correct. done.
Qed.

Lemma Qceiling_div a b : 0 < b -> Qceiling (inject_Z a / inject_Z b) = - ((- a) / b).
Proof.
  intros Hb. unfold Qceiling. f_equal.
  rewrite Zdiv_Qdiv. apply Qfloor_comp.
  rewrite inject_Z_opp. unfold Qdiv. ring.
Qed.

Lemma Qneg_b_div a b : 0 < b -> Qneg_b (inject_Z a / inject_Z b) = (a <? 0).
Proof.
  intros Hb. unfold Qneg_b. rewrite Z.ltb_antisym. f_equal.
  apply eq_iff_eq_true. rewrite Qle_bool_iff, Z.leb_le.
  rewrite (Zle_Qle 0 a). change (inject_Z 0) with 0%Q.
  assert (inject_Z 0 < inject_Z b)%Q as Hb' by (by rewrite <- Zlt_Qlt).
  change (inject_Z 0) with 0%Q in Hb'.
  split; intros H.
  - apply (Qmult_le_r _ _ (/ inject_Z b)); [by apply Qinv_lt_0_compat|].
    rewrite Qmult_0_l. exact H.
  - apply Qle_shift_div_l; [done|]. by rewrite Qmult_0_l.
Qed.

Lemma ceilDays_of_Z d n :
  let c := - ((n - d) / 86400000) in
  ceilDays (of_Z d) (of_Z n) = if (c =? 0) && (d <? n) then NZero else of_Z c.
Proof.
  intros c. unfold ceilDays.
  destruct (sub_of_Z d n) as (q & -> & Hq).
  destruct (div_day q) as (q' & -> & Hq').
  rewrite Hq in Hq'. cbn [ceil].
  assert (Qceiling q' = c) as ->.
  { rewrite (Qceiling_comp _ _ Hq'), Qceiling_div by lia. unfold c. do 2 f_equal. lia. }
  assert (Qneg_b q' = (d <? n)) as ->.
  { unfold Qneg_b. rewrite Hq'. fold (Qneg_b (inject_Z (d - n) / inject_Z 86400000)).
    rewrite Qneg_b_div by lia.
    apply eq_iff_eq_true. rewrite !Z.ltb_lt. lia. }
  done.
Qed.

(** ** Rounding to binary64

    What the properties of the predictor use: rounding keeps the order,
    and it leaves the whole numbers below [2^53] as they are.  What the
    exact day counts and the exact quotient of the hours rest on: the
    code, which rounds, gets the same.  And a check of the rounding
    against the binary64 of the processor. *)

(** *** Powers of two *)

Lemma pow2_pos e : (0 < pow2 e)%Q.
Proof. apply Qpower_0_lt. reflexivity. Qed.

Lemma pow2_plus a b : (pow2 (a + b) == pow2 a * pow2 b)%Q.
Proof. apply Qpower_plus. discriminate. Qed.

Lemma pow2_le a b : a <= b -> (pow2 a <= pow2 b)%Q.
Proof. intros H. apply Qpower_le_compat_l; [done|]. discriminate. Qed.

Lemma pow2_lt a b : a < b -> (pow2 a < pow2 b)%Q.
Proof. intros H. apply Qpower_lt_compat_l; [done|]. reflexivity. Qed.

Lemma pow2_lt_inv a b : (pow2 a < pow2 b)%Q -> a < b.
Proof. intros H. apply (Qpower_lt_compat_l_inv 2); [done|reflexivity]. Qed.

Lemma pow2_Z e : 0 <= e -> (pow2 e == inject_Z (2 ^ e))%Q.
Proof. intros H. unfold pow2. by rewrite Zpower_Qpower. Qed.

(** [2^a / 2^b] is an integer when [b <= a]. *)
Lemma pow2_div a b : b <= a -> (pow2 a / pow2 b == inject_Z (2 ^ (a - b)))%Q.
Proof.
  intros H. rewrite <- pow2_Z by lia.
  replace a with ((a - b) + b) at 1 by lia. rewrite pow2_plus.
  field. pose proof (pow2_pos b). lra.
Qed.

(** *** The nearest integer *)

Lemma rne_cases q :
  let f := Qfloor q in
  (rne q = f /\ (q - inject_Z f <= 1 # 2)%Q)
  \/ (rne q = f + 1 /\ (1 # 2 <= q - inject_Z f)%Q).
Proof.
  intros f. unfold rne. fold f.
  destruct (Qcompare_spec (q - inject_Z f) (1 # 2)) as [H|H|H].
  - destruct (Z.even f); [left|right]; (split; [done|]); rewrite H; apply Qle_refl.
  - left. split; [done|]. by apply Qlt_le_weak.
  - right. split; [done|]. by apply Qlt_le_weak.
Qed.

Lemma rne_comp q1 q2 : (q1 == q2)%Q -> rne q1 = rne q2.
Proof.
  intros H. unfold rne. rewrite (Qfloor_comp _ _ H).
  assert (q1 - inject_Z (Qfloor q2) == q2 - inject_Z (Qfloor q2))%Q as H' by (by rewrite H).
  by rewrite (Qcompare_comp _ _ H' _ _ (Qeq_refl (1 # 2))).
Qed.

Lemma rne_Z q z : (q == inject_Z z)%Q -> rne q = z.
Proof.
  intros H. rewrite (rne_comp _ _ H). unfold rne. rewrite Qfloor_Z.
  assert (inject_Z z - inject_Z z == 0)%Q as E by ring.
  by rewrite (Qcompare_comp _ _ E _ _ (Qeq_refl (1 # 2))).
Qed.

Lemma rne_mono a b : (a <= b)%Q -> rne a <= rne b.
Proof.
  intros Hab. pose proof (Qfloor_resp_le _ _ Hab) as Hf.
  destruct (Z.eq_dec (Qfloor a) (Qfloor b)) as [Heq|Hne].
  - unfold rne. rewrite Heq.
    assert (a - inject_Z (Qfloor b) <= b - inject_Z (Qfloor b))%Q as Hfrac by lra.
    destruct (Qcompare_spec (a - inject_Z (Qfloor b)) (1 # 2)) as [Ha|Ha|Ha],
      (Qcompare_spec (b - inject_Z (Qfloor b)) (1 # 2)) as [Hb|Hb|Hb];
      try lia; try (destruct (Z.even (Qfloor b)); lia); exfalso; lra.
  - destruct (rne_cases a) as [[-> _]|[-> _]], (rne_cases b) as [[-> _]|[-> _]]; lia.
Qed.

Lemma rne_nonneg q : (0 <= q)%Q -> 0 <= rne q.
Proof. intros H. apply rne_mono in H. by rewrite (rne_Z 0 0) in H. Qed.

(** *** The exponent of a positive rational *)

Lemma ilog2_spec q :
  (0 < q)%Q -> (pow2 (ilog2 q) <= q)%Q /\ (q < pow2 (ilog2 q + 1))%Q.
Proof.
  intros Hq. destruct q as [n d].
  assert (0 < n) as Hn.
  { unfold Qlt in Hq. cbn in Hq. lia. }
  unfold ilog2. cbn [Qnum Qden].
  set (ln := Z.log2 n). set (ld := Z.log2 (Z.pos d)). set (k := ln - ld).
  pose proof (Z.log2_spec n Hn) as [Hn1 Hn2]. fold ln in Hn1, Hn2.
  pose proof (Z.log2_spec (Z.pos d) ltac:(lia)) as [Hd1 Hd2]. fold ld in Hd1, Hd2.
  pose proof (Z.log2_nonneg n) as Hln. fold ln in Hln.
  pose proof (Z.log2_nonneg (Z.pos d)) as Hld. fold ld in Hld.
  set (N := inject_Z n). set (D := inject_Z (Z.pos d)).
  assert (n # d == N / D)%Q as HqND by apply Qmake_Qdiv.
  assert (0 < D)%Q as HD.
  { unfold D. change 0%Q with (inject_Z 0). rewrite <- Zlt_Qlt. lia. }
  assert ((n # d) * D == N)%Q as Hmul.
  { rewrite HqND. field. lra. }
  assert (pow2 ln <= N)%Q as HN1.
  { rewrite pow2_Z by done. unfold N. by rewrite <- Zle_Qle. }
  assert (N < pow2 (ln + 1))%Q as HN2.
  { rewrite pow2_Z by lia. unfold N. by rewrite <- Zlt_Qlt. }
  assert (pow2 ld <= D)%Q as HD1.
  { rewrite pow2_Z by done. unfold D. by rewrite <- Zle_Qle. }
  assert (D < pow2 (ld + 1))%Q as HD2.
  { rewrite pow2_Z by lia. unfold D. by rewrite <- Zlt_Qlt. }
  assert ((n # d) < pow2 (k + 1))%Q as HA.
  { apply (Qmult_lt_r _ _ D HD). rewrite Hmul.
    eapply Qlt_le_trans; [exact HN2|].
    replace (pow2 (ln + 1)) with (pow2 ((k + 1) + ld)) by (f_equal; lia).
    rewrite pow2_plus.
    apply Qmult_le_l; [apply pow2_pos|done]. }
  assert (pow2 (k - 1) <= (n # d))%Q as HB.
  { apply (Qmult_le_r _ _ D HD). rewrite Hmul.
    eapply Qle_trans; [|exact HN1].
    replace (pow2 ln) with (pow2 ((k - 1) + (ld + 1))) by (f_equal; lia).
    rewrite pow2_plus.
    apply Qmult_le_l; [apply pow2_pos|]. by apply Qlt_le_weak. }
  destruct (Qle_bool (pow2 k) (n # d)) eqn:Hk.
  - split; [by apply Qle_bool_iff|done].
  - split; [done|]. replace (k - 1 + 1) with k by lia.
    apply Qnot_le_lt. intros H%Qle_bool_iff. congruence.
Qed.

Lemma ilog2_mono a b : (0 < a)%Q -> (a <= b)%Q -> ilog2 a <= ilog2 b.
Proof.
  intros Ha Hab.
  destruct (ilog2_spec a Ha) as [Ha1 _].
  destruct (ilog2_spec b) as [_ Hb2]; [by eapply Qlt_le_trans|].
  assert (pow2 (ilog2 a) < pow2 (ilog2 b + 1))%Q as H.
  { eapply Qle_lt_trans; [exact Ha1|]. by eapply Qle_lt_trans. }
  apply pow2_lt_inv in H. lia.
Qed.

Lemma ulpExp_mono a b : (0 < a)%Q -> (a <= b)%Q -> ulpExp a <= ulpExp b.
Proof. intros Ha Hab. unfold ulpExp. pose proof (ilog2_mono a b Ha Hab). lia. Qed.

(** *** The nearest binary64 number *)

Lemma nearest_nonneg q : (0 <= q)%Q -> (0 <= nearest q)%Q.
Proof.
  intros Hq. unfold nearest. apply Qmult_le_0_compat.
  - change 0%Q with (inject_Z 0). rewrite <- Zle_Qle. apply rne_nonneg.
    apply Qle_shift_div_l; [apply pow2_pos|]. by rewrite Qmult_0_l.
  - apply Qlt_le_weak, pow2_pos.
Qed.

(** A power of two that is a multiple of the unit [2^c] is where it is. *)
Lemma nearest_grid c e : c <= e -> (inject_Z (rne (pow2 e / pow2 c)) * pow2 c == pow2 e)%Q.
Proof.
  intros H. rewrite (rne_Z _ _ (pow2_div e c H)). rewrite <- (pow2_div e c H).
  field. pose proof (pow2_pos c). lra.
Qed.

Lemma nearest_same_unit c a b :
  (a <= b)%Q ->
  (inject_Z (rne (a / pow2 c)) * pow2 c <= inject_Z (rne (b / pow2 c)) * pow2 c)%Q.
Proof.
  intros Hab. apply Qmult_le_compat_r; [|apply Qlt_le_weak, pow2_pos].
  rewrite <- Zle_Qle. apply rne_mono.
  apply Qmult_le_compat_r; [done|]. apply Qlt_le_weak, Qinv_lt_0_compat, pow2_pos.
Qed.

Lemma nearest_mono a b : (0 < a)%Q -> (a <= b)%Q -> (nearest a <= nearest b)%Q.
Proof.
  intros Ha Hab. assert (0 < b)%Q as Hb by (by eapply Qlt_le_trans).
  pose proof (ulpExp_mono a b Ha Hab) as Hc.
  destruct (Z.eq_dec (ulpExp a) (ulpExp b)) as [Heq|Hne].
  - unfold nearest. rewrite Heq. by apply nearest_same_unit.
  - assert (ulpExp b = ilog2 b - 52) as Hcb by (unfold ulpExp in *; lia).
    assert (ilog2 a + 1 <= ilog2 b) as He by (unfold ulpExp in *; lia).
    destruct (ilog2_spec a Ha) as [_ Ha2]. destruct (ilog2_spec b Hb) as [Hb1 _].
    set (g := pow2 (ilog2 b)).
    assert (a <= g)%Q as Hag.
    { apply Qlt_le_weak. eapply Qlt_le_trans; [exact Ha2|]. by apply pow2_le. }
    apply Qle_trans with g.
    + unfold nearest.
      apply Qle_trans with (inject_Z (rne (g / pow2 (ulpExp a))) * pow2 (ulpExp a))%Q.
      * by apply nearest_same_unit.
      * unfold g. rewrite nearest_grid by lia. apply Qle_refl.
    + unfold nearest.
      apply Qle_trans with (inject_Z (rne (g / pow2 (ulpExp b))) * pow2 (ulpExp b))%Q.
      * unfold g. rewrite nearest_grid by lia. apply Qle_refl.
      * by apply nearest_same_unit.
Qed.

Lemma round64_not_nan q : is_nan (round64 q) = false.
Proof.
  unfold round64. destruct (q ?= 0)%Q; [done|..].
  - destruct (Qle_bool _ _); [done|]. by destruct (Qzero_b _).
  - by destruct (Qle_bool _ _).
Qed.

(** A result that is not negative is [+0], positive or [Infinity]. *)
Lemma round64_nonneg q :
  (0 <= q)%Q -> round64 q = PInf \/ exists r, round64 q = Fin r /\ (0 <= r)%Q.
Proof.
  intros Hq. unfold round64. destruct (Qcompare_spec q 0) as [H|H|H].
  - right. exists 0%Q. split; [done|apply Qle_refl].
  - exfalso. lra.
  - destruct (Qle_bool _ _); [by left|]. right. eexists. split; [done|].
    rewrite Qred_correct. by apply nearest_nonneg.
Qed.

Lemma leb_trans x y z : leb x y = true -> leb y z = true -> leb x z = true.
Proof.
  destruct x as [ | | | |a], y as [ | | | |b], z as [ | | | |c]; try done;
    unfold leb, val; rewrite !Qle_bool_iff; intros; by eapply Qle_trans.
Qed.

Ltac qbool H :=
  first
    [ apply Qle_bool_iff in H
    | apply not_true_iff_false in H; rewrite Qle_bool_iff in H; apply Qnot_le_lt in H
    | apply Qeq_bool_iff in H
    | apply Qeq_bool_neq in H ].

Ltac leb_goal :=
  first
    [ reflexivity
    | unfold leb, val; apply Qle_bool_iff; rewrite ?Qred_correct; lra
    | exfalso; lra ].

(** Rounding keeps the order. *)
Lemma round64_mono a b : (a <= b)%Q -> leb (round64 a) (round64 b) = true.
Proof.
  intros Hab. unfold round64, Qzero_b.
  destruct (Qcompare_spec a 0) as [Ha|Ha|Ha], (Qcompare_spec b 0) as [Hb|Hb|Hb];
    try (exfalso; lra).
  - done.
  - pose proof (nearest_nonneg b ltac:(lra)) as Hn.
    destruct (Qle_bool (pow2 1024) (nearest b)) eqn:Hob; qbool Hob; leb_goal.
  - pose proof (nearest_nonneg (- a) ltac:(lra)) as Hn.
    destruct (Qle_bool (pow2 1024) (nearest (- a))) eqn:Hoa; qbool Hoa; [leb_goal|].
    destruct (Qeq_bool (nearest (- a)) 0) eqn:Hza; qbool Hza; leb_goal.
  - assert (nearest (- b) <= nearest (- a))%Q as Hn by (apply nearest_mono; lra).
    pose proof (nearest_nonneg (- b) ltac:(lra)) as Hnb.
    destruct (Qle_bool (pow2 1024) (nearest (- a))) eqn:Hoa; qbool Hoa.
    { destruct (Qle_bool (pow2 1024) (nearest (- b))); [done|].
      by destruct (Qeq_bool (nearest (- b)) 0). }
    destruct (Qle_bool (pow2 1024) (nearest (- b))) eqn:Hob; qbool Hob; [exfalso; lra|].
    destruct (Qeq_bool (nearest (- a)) 0) eqn:Hza; qbool Hza.
    + assert (Qeq_bool (nearest (- b)) 0 = true) as ->; [|done].
      apply Qeq_bool_iff. apply Qle_antisym; [lra|done].
    + destruct (Qeq_bool (nearest (- b)) 0) eqn:Hzb; qbool Hzb; leb_goal.
  - pose proof (nearest_nonneg (- a) ltac:(lra)) as Hna.
    pose proof (nearest_nonneg b ltac:(lra)) as Hnb.
    destruct (Qle_bool (pow2 1024) (nearest (- a))) eqn:Hoa; qbool Hoa;
      destruct (Qle_bool (pow2 1024) (nearest b)) eqn:Hob; qbool Hob;
      try reflexivity;
      destruct (Qeq_bool (nearest (- a)) 0) eqn:Hza; qbool Hza; leb_goal.
  - assert (nearest a <= nearest b)%Q as Hn by (by apply nearest_mono).
    destruct (Qle_bool (pow2 1024) (nearest a)) eqn:Hoa; qbool Hoa;
      destruct (Qle_bool (pow2 1024) (nearest b)) eqn:Hob; qbool Hob; leb_goal.
Qed.

(** Between two numbers that rounding leaves as they are, the result is
    finite and between them. *)
Lemma round64_between lo hi q :
  round64 lo = Fin lo -> round64 hi = Fin hi ->
  (0 <= lo)%Q -> (lo <= q)%Q -> (q <= hi)%Q ->
  exists r, round64 q = Fin r /\ (lo <= r)%Q /\ (r <= hi)%Q.
Proof.
  intros Hlo Hhi H0 H1 H2.
  pose proof (round64_mono lo q H1) as Hl. pose proof (round64_mono q hi H2) as Hh.
  rewrite Hlo in Hl. rewrite Hhi in Hh.
  destruct (round64_nonneg q ltac:(lra)) as [Hq|(r & Hq & Hr)]; rewrite Hq in *; [done|].
  exists r. split; [done|]. unfold leb, val in Hl, Hh.
  by rewrite !Qle_bool_iff in Hl, Hh.
Qed.

Lemma round64_0 : round64 0 = Fin 0.
Proof. reflexivity. Qed.

Lemma round64_1 : round64 1 = Fin 1.
Proof. vm_compute. reflexivity. Qed.

Lemma round64_100 : round64 (inject_Z 100) = Fin (inject_Z 100).
Proof. vm_compute. reflexivity. Qed.

(** *** Numbers that rounding leaves as they are *)

Lemma ilog2_unique q k : (pow2 k <= q)%Q -> (q < pow2 (k + 1))%Q -> ilog2 q = k.
Proof.
  intros H1 H2.
  assert (0 < q)%Q as Hq by (pose proof (pow2_pos k); lra).
  destruct (ilog2_spec q Hq) as [H3 H4].
  assert (ilog2 q < k + 1) by (apply pow2_lt_inv; lra).
  assert (k < ilog2 q + 1) by (apply pow2_lt_inv; lra).
  lia.
Qed.

Lemma ilog2_comp a b : (0 < a)%Q -> (a == b)%Q -> ilog2 a = ilog2 b.
Proof.
  intros Ha E. destruct (ilog2_spec a Ha) as [H1 H2].
  symmetry. apply ilog2_unique; by rewrite <- E.
Qed.

Lemma nearest_comp a b : (0 < a)%Q -> (a == b)%Q -> (nearest a == nearest b)%Q.
Proof.
  intros Ha E. unfold nearest, ulpExp. rewrite (ilog2_comp a b Ha E).
  rewrite (rne_comp (a / pow2 (Z.max (ilog2 b - 52) (-1074)))
             (b / pow2 (Z.max (ilog2 b - 52) (-1074)))); [reflexivity|].
  by rewrite E.
Qed.

(** The result depends on the value only, not on the fraction that
    stands for it. *)
Lemma round64_comp a b : (a == b)%Q -> round64 a = round64 b.
Proof.
  intros E. unfold round64, Qzero_b.
  rewrite (Qcompare_comp a b E 0%Q 0%Q (Qeq_refl 0)).
  destruct (Qcompare_spec b 0) as [H|H|H]; [done|..].
  - assert (nearest (- a) == nearest (- b))%Q as En.
    { apply nearest_comp; [lra|]. by rewrite E. }
    rewrite (Qleb_comp _ _ (Qeq_refl (pow2 1024)) _ _ En).
    rewrite (Qeqb_comp _ _ En _ _ (Qeq_refl 0)).
    rewrite (Qred_complete (- nearest (- a)) (- nearest (- b))); [done|].
    by rewrite En.
  - assert (nearest a == nearest b)%Q as En.
    { apply nearest_comp; [lra|done]. }
    rewrite (Qleb_comp _ _ (Qeq_refl (pow2 1024)) _ _ En).
    by rewrite (Qred_complete _ _ En).
Qed.

(** A positive number with a significand of 53 bits is its own nearest
    number. *)
Lemma nearest_dyadic m e :
  0 < m < 2 ^ 53 -> -1074 <= e ->
  (nearest (inject_Z m * pow2 e) == inject_Z m * pow2 e)%Q.
Proof.
  intros Hm He. set (q := (inject_Z m * pow2 e)%Q).
  assert (0 < inject_Z m)%Q as Hm0.
  { change 0%Q with (inject_Z 0). rewrite <- Zlt_Qlt. lia. }
  assert (0 < q)%Q as Hq.
  { unfold q. apply Qmult_lt_0_compat; [done|apply pow2_pos]. }
  assert (ulpExp q <= e) as Hu.
  { unfold ulpExp. destruct (ilog2_spec q Hq) as [H1 _].
    assert (ilog2 q < 53 + e); [|lia].
    apply pow2_lt_inv. eapply Qle_lt_trans; [exact H1|]. unfold q.
    rewrite pow2_plus. apply Qmult_lt_compat_r; [apply pow2_pos|].
    rewrite pow2_Z by lia. rewrite <- Zlt_Qlt. lia. }
  unfold nearest. set (u := ulpExp q) in *.
  pose proof (pow2_pos u) as Hpu.
  assert (pow2 e == inject_Z (2 ^ (e - u)) * pow2 u)%Q as Ee.
  { rewrite <- pow2_div by lia. field. lra. }
  rewrite (rne_Z _ (m * 2 ^ (e - u))).
  - rewrite inject_Z_mult. unfold q. rewrite Ee. ring.
  - rewrite inject_Z_mult. unfold q. rewrite Ee. field. lra.
Qed.

Lemma round64_dyadic m e :
  Z.abs m < 2 ^ 53 -> -1074 <= e <= 970 ->
  round64 (inject_Z m * pow2 e) = Fin (Qred (inject_Z m * pow2 e)).
Proof.
  intros Hm He. set (q := (inject_Z m * pow2 e)%Q).
  pose proof (pow2_pos e) as Hpe.
  assert (forall k, 0 < k < 2 ^ 53 -> (inject_Z k * pow2 e < pow2 1024)%Q) as Hlt.
  { intros k Hk. apply Qlt_le_trans with (pow2 53 * pow2 e)%Q.
    - apply Qmult_lt_compat_r; [done|]. rewrite pow2_Z by lia. rewrite <- Zlt_Qlt. lia.
    - rewrite <- pow2_plus. apply pow2_le. lia. }
  destruct (Z.lt_trichotomy m 0) as [Hneg|[->|Hpos]].
  - assert (0 < inject_Z (- m))%Q as Hm0.
    { change 0%Q with (inject_Z 0). rewrite <- Zlt_Qlt. lia. }
    assert (- q == inject_Z (- m) * pow2 e)%Q as Enq.
    { unfold q. rewrite inject_Z_opp. ring. }
    assert (0 < - q)%Q as Hq by (rewrite Enq; by apply Qmult_lt_0_compat).
    assert (nearest (- q) == - q)%Q as En.
    { rewrite (nearest_comp _ _ Hq Enq).
      rewrite nearest_dyadic by lia. by rewrite Enq. }
    pose proof (Hlt (- m) ltac:(lia)) as Hb. rewrite <- Enq in Hb.
    unfold round64, Qzero_b.
    destruct (Qcompare_spec q 0) as [H|H|H]; try (exfalso; lra).
    destruct (Qle_bool (pow2 1024) (nearest (- q))) eqn:Ho; qbool Ho; [exfalso; lra|].
    destruct (Qeq_bool (nearest (- q)) 0) eqn:Hz; qbool Hz; [exfalso; lra|].
    f_equal. apply Qred_complete. rewrite En. ring.
  - unfold round64.
    assert (q == 0)%Q as E0 by (unfold q; ring).
    rewrite (Qcompare_comp _ _ E0 _ _ (Qeq_refl 0)). cbn [Qcompare].
    apply (f_equal Fin). symmetry.
    transitivity (Qred 0); [by apply Qred_complete|done].
  - assert (0 < inject_Z m)%Q as Hm0.
    { change 0%Q with (inject_Z 0). rewrite <- Zlt_Qlt. lia. }
    assert (0 < q)%Q as Hq by (by apply Qmult_lt_0_compat).
    pose proof (nearest_dyadic m e ltac:(lia) ltac:(lia)) as En. fold q in En.
    pose proof (Hlt m ltac:(lia)) as Hb. fold q in Hb.
    unfold round64.
    destruct (Qcompare_spec q 0) as [H|H|H]; try (exfalso; lra).
    destruct (Qle_bool (pow2 1024) (nearest q)) eqn:Ho; qbool Ho; [exfalso; lra|].
    f_equal. by apply Qred_complete.
Qed.

(** The whole numbers below [2^53]. *)
Lemma round64_Z z : Z.abs z < 2 ^ 53 -> round64 (inject_Z z) = of_Z z.
Proof.
  intros Hz.
  rewrite (round64_comp (inject_Z z) (inject_Z z * pow2 0)) by (unfold pow2; cbn; ring).
  rewrite round64_dyadic by lia. unfold of_Z. f_equal.
  rewrite (Qred_complete _ (inject_Z z)) by (unfold pow2; cbn; ring).
  apply Qred_inject.
Qed.

(** Between two finite results of the same sign the result is finite. *)
Lemma round64_bracket lo hi lo' hi' q :
  round64 lo = Fin lo' -> round64 hi = Fin hi' ->
  (0 < lo' \/ hi' < 0)%Q -> (lo <= q)%Q -> (q <= hi)%Q ->
  exists r, round64 q = Fin r /\ (lo' <= r)%Q /\ (r <= hi')%Q.
Proof.
  intros Hlo Hhi Hs H1 H2.
  pose proof (round64_mono lo q H1) as Hl. pose proof (round64_mono q hi H2) as Hh.
  rewrite Hlo in Hl. rewrite Hhi in Hh.
  destruct (round64 q) as [ | | | |r]; try done.
  - unfold leb, val in Hl, Hh. rewrite Qle_bool_iff in Hl, Hh. exfalso. lra.
  - exists r. split; [done|]. unfold leb, val in Hl, Hh.
    by rewrite !Qle_bool_iff in Hl, Hh.
Qed.

(** *** Day counts in binary64

    [ceilDays] takes [Math.ceil] of the exact quotient.  The code computes
    the difference and the quotient in binary64.  For two time values
    less than [2^26] days apart (some 180 000 years) that gives the same
    number of days: the difference is exact, the quotient of a whole
    number of days is exact, and any other quotient is at least
    [1 / 86400000] away from a whole number, with a binary64 number in
    between. *)

Lemma fsub_of_Z a b : Z.abs (a - b) < 2 ^ 53 -> fsub (of_Z a) (of_Z b) = of_Z (a - b).
Proof.
  intros H. unfold fsub, of_Z, neg. rewrite Qzero_b_inject.
  destruct (Z.eqb_spec b 0) as [->|Hb]; cbn [fadd].
  - by rewrite Z.sub_0_r.
  - rewrite (round64_comp _ (inject_Z (a - b))).
    + by apply round64_Z.
    + rewrite Qred_correct. unfold Z.sub. by rewrite inject_Z_plus, inject_Z_opp.
Qed.

Lemma fdiv_day x :
  x <> 0 -> fdiv (of_Z x) MS_PER_DAY = round64 (inject_Z x / inject_Z 86400000).
Proof.
  intros Hx. unfold fdiv, MS_PER_DAY, of_Z.
  cbn [is_nan is_inf is_zero orb andb val].
  rewrite Qzero_b_inject. destruct (Z.eqb_spec x 0) as [|_]; [done|].
  reflexivity.
Qed.

Lemma Qceiling_bounds r c :
  (inject_Z (c - 1) < r)%Q -> (r <= inject_Z c)%Q -> Qceiling r = c.
Proof.
  intros H1 H2.
  pose proof (Qle_ceiling r) as H3. pose proof (Qceiling_lt r) as H4.
  assert (c - 1 < Qceiling r) by (rewrite Zlt_Qlt; lra).
  assert (Qceiling r - 1 < c) by (rewrite Zlt_Qlt; lra).
  lia.
Qed.

Lemma ceil_round64_days x :
  Z.abs x < 2 ^ 26 * 86400000 -> x <> 0 ->
  let c := - (- x / 86400000) in
  ceil (round64 (inject_Z x / inject_Z 86400000))
  = if (c =? 0) && (x <? 0) then NZero else of_Z c.
Proof.
  intros Hb Hx c.
  assert ((c - 1) * 86400000 < x <= c * 86400000) as Hc.
  { unfold c. pose proof (Z.div_mod (- x) 86400000 ltac:(lia)) as E.
    pose proof (Z.mod_pos_bound (- x) 86400000 ltac:(lia)). lia. }
  assert (- 2 ^ 26 < c <= 2 ^ 26) as Hcb by lia.
  clearbody c.
  destruct (Z.eq_dec x (c * 86400000)) as [E|Hne].
  - (* a whole number of days *)
    assert (c <> 0) as Hc0 by lia.
    rewrite (round64_comp _ (inject_Z c)).
    2:{ rewrite E, inject_Z_mult. field. }
    rewrite round64_Z by lia. unfold ceil, of_Z. rewrite Qceiling_Z.
    destruct (Z.eqb_spec c 0) as [|_]; [done|]. reflexivity.
  - pose (X := inject_Z x). pose (C := inject_Z c).
    assert ((C - 1) * 86400000 + 1 <= X)%Q as HX1.
    { unfold X, C. change 86400000%Q with (inject_Z 86400000).
      change 1%Q with (inject_Z 1). unfold Qminus.
      rewrite <- inject_Z_opp, <- inject_Z_plus, <- inject_Z_mult, <- inject_Z_plus.
      rewrite <- Zle_Qle. lia. }
    assert (X <= C * 86400000 - 1)%Q as HX2.
    { unfold X, C. change 86400000%Q with (inject_Z 86400000).
      change 1%Q with (inject_Z 1). unfold Qminus.
      rewrite <- inject_Z_opp, <- inject_Z_mult, <- inject_Z_plus.
      rewrite <- Zle_Qle. lia. }
    set (lo := (inject_Z ((c - 1) * 2 ^ 27 + 1) * pow2 (-27))%Q).
    set (hi := (inject_Z (c * 2 ^ 27 - 1) * pow2 (-27))%Q).
    assert (lo == C - 1 + (1 # 134217728))%Q as Elo.
    { unfold lo, C. change (pow2 (-27)) with (1 # 134217728)%Q.
      unfold Z.sub. rewrite !inject_Z_plus, !inject_Z_mult, !inject_Z_plus.
      change (inject_Z (2 ^ 27)) with 134217728%Q.
      change (inject_Z (-1)) with (-1)%Q. change (inject_Z (- (1))) with (-1)%Q.
      change (inject_Z 1) with 1%Q. field. }
    assert (hi == C - (1 # 134217728))%Q as Ehi.
    { unfold hi, C. change (pow2 (-27)) with (1 # 134217728)%Q.
      unfold Z.sub. rewrite !inject_Z_plus, !inject_Z_mult.
      change (inject_Z (2 ^ 27)) with 134217728%Q.
      change (inject_Z (- (1))) with (-1)%Q. field. }
    assert (C <= 0 \/ 1 <= C)%Q as HC.
    { unfold C. change 0%Q with (inject_Z 0). change 1%Q with (inject_Z 1).
      rewrite <- !Zle_Qle. lia. }
    destruct (round64_bracket lo hi (Qred lo) (Qred hi)
                (inject_Z x / inject_Z 86400000)) as (r & -> & Hr1 & Hr2).
    + apply round64_dyadic; lia.
    + apply round64_dyadic; lia.
    + rewrite !Qred_correct, Elo, Ehi. destruct HC; [right|left]; lra.
    + fold X. change (inject_Z 86400000) with 86400000%Q.
      apply Qle_shift_div_l; [reflexivity|]. rewrite Elo. lra.
    + fold X. change (inject_Z 86400000) with 86400000%Q.
      apply Qle_shift_div_r; [reflexivity|]. rewrite Ehi. lra.
    + rewrite Qred_correct, Elo in Hr1. rewrite Qred_correct, Ehi in Hr2.
      unfold ceil. rewrite (Qceiling_bounds r c).
      2:{ unfold Z.sub. rewrite inject_Z_plus. fold C.
          change (inject_Z (- (1))) with (-1)%Q. lra. }
      2:{ fold C. lra. }
      destruct (Z.eqb_spec c 0) as [Hc0|_]; [|reflexivity].
      assert (C == 0)%Q as EC by (unfold C; by rewrite Hc0).
      assert (Qneg_b r = true) as ->.
      { unfold Qneg_b. apply negb_true_iff, not_true_iff_false.
        rewrite Qle_bool_iff. lra. }
      assert ((x <? 0) = true) as -> by (apply Z.ltb_lt; lia).
      reflexivity.
Qed.

(** The day count of the code, computed in binary64, is [ceilDays]. *)
Lemma ceilDays_binary64 d n :
  Z.abs (d - n) < 2 ^ 26 * 86400000 ->
  ceil (fdiv (fsub (of_Z d) (of_Z n)) MS_PER_DAY) = ceilDays (of_Z d) (of_Z n).
Proof.
  intros H. rewrite fsub_of_Z by lia. rewrite ceilDays_of_Z. cbv zeta.
  replace (n - d) with (- (d - n)) by lia.
  replace (d <? n) with (d - n <? 0).
  2:{ apply eq_iff_eq_true. rewrite !Z.ltb_lt. lia. }
  destruct (Z.eq_dec (d - n) 0) as [->|Hx]; [reflexivity|].
  rewrite fdiv_day by done. by apply ceil_round64_days.
Qed.

(** So it is for two dates, of which an invalid one makes both [NaN]. *)
Lemma ceilDays_binary64_dates (d1 d2 : Date) :
  (forall a b, d1 = Some a -> d2 = Some b -> Z.abs (a - b) < 2 ^ 26 * 86400000) ->
  ceil (fdiv (fsub (timeValue d1) (timeValue d2)) MS_PER_DAY)
  = ceilDays (timeValue d1) (timeValue d2).
Proof.
  intros H. destruct d1 as [a|], d2 as [b|]; cbn [timeValue]; try reflexivity.
  apply ceilDays_binary64. by apply H.
Qed.

(** *** The days a task needs, in binary64

    The risk scorer compares [task.estimated_hours / 6], which the model
    computes exactly, with a number of days.  For hours that are a
    binary64 number and fewer than [2^50] days the rounded quotient
    compares the same way: hours above [6 * days] are at least one unit in
    the last place above, and two thirds of a unit above [days] round
    up. *)

Lemma leb_not_ltb x y : leb x y = true -> ltb y x = false.
Proof.
  destruct x as [ | | | |a], y as [ | | | |b]; try done;
    unfold leb, ltb, val; intros ->; done.
Qed.

Lemma ltb_leb_trans x y z : ltb x y = true -> leb y z = true -> ltb x z = true.
Proof.
  destruct x as [ | | | |a], y as [ | | | |b], z as [ | | | |c]; try done;
    unfold leb, ltb, val; rewrite !negb_true_iff, <- !not_true_iff_false, !Qle_bool_iff;
    intros H1 H2 H3; apply H1; by eapply Qle_trans.
Qed.

Lemma rne_two_thirds K : rne (inject_Z K + (2 # 3)) = K + 1.
Proof.
  assert (Qfloor (inject_Z K + (2 # 3)) = K) as Hf.
  { pose proof (Qfloor_le (inject_Z K + (2 # 3))) as H1.
    pose proof (Qlt_floor (inject_Z K + (2 # 3))) as H2.
    assert (Qfloor (inject_Z K + (2 # 3)) < K + 1)
      by (rewrite Zlt_Qlt, inject_Z_plus; change (inject_Z 1) with 1%Q; lra).
    assert (K < Qfloor (inject_Z K + (2 # 3)) + 1) by (rewrite Zlt_Qlt; lra).
    lia. }
  unfold rne. rewrite Hf.
  destruct (Qcompare_spec (inject_Z K + (2 # 3) - inject_Z K) (1 # 2)) as [H|H|H];
    [exfalso; lra|exfalso; lra|done].
Qed.

(** Binary64 hours above [6 * k] are one unit in the last place above. *)
Lemma hours_above m e k :
  0 < m < 2 ^ 53 -> 1 <= k < 2 ^ 50 ->
  (inject_Z (6 * k) < inject_Z m * pow2 e)%Q ->
  (inject_Z (6 * k) + pow2 (Z.log2 k - 50) <= inject_Z m * pow2 e)%Q.
Proof.
  intros Hm Hk Hlt. set (L := Z.log2 k).
  pose proof (Z.log2_spec k ltac:(lia)) as HL. fold L in HL.
  pose proof (Z.log2_nonneg k) as HL0. fold L in HL0.
  assert (L < 50) as HL50 by (apply Z.log2_lt_pow2; lia).
  pose proof (pow2_pos e) as Hpe. pose proof (pow2_pos (L - 50)) as Hpg.
  assert (L - 50 <= e) as He.
  { assert (L + 2 < 53 + e); [|lia]. apply pow2_lt_inv.
    apply Qle_lt_trans with (inject_Z (6 * k)).
    - rewrite pow2_Z by lia. rewrite <- Zle_Qle.
      replace (L + 2) with (2 + L) by lia. rewrite Z.pow_add_r by lia. lia.
    - eapply Qlt_trans; [exact Hlt|]. rewrite pow2_plus.
      apply Qmult_lt_compat_r; [done|]. rewrite pow2_Z by lia.
      rewrite <- Zlt_Qlt. lia. }
  assert (pow2 e == inject_Z (2 ^ (e - (L - 50))) * pow2 (L - 50))%Q as Ee.
  { rewrite <- pow2_div by lia. field. lra. }
  assert (1 == inject_Z (2 ^ (50 - L)) * pow2 (L - 50))%Q as E1.
  { replace (50 - L) with (0 - (L - 50)) by lia. rewrite <- pow2_div by lia.
    change (pow2 0) with 1%Q. field. lra. }
  assert (inject_Z (6 * k) == inject_Z (6 * k * 2 ^ (50 - L)) * pow2 (L - 50))%Q as Ek.
  { rewrite (inject_Z_mult (6 * k)). rewrite <- Qmult_assoc, <- E1. ring. }
  assert (inject_Z m * pow2 e == inject_Z (m * 2 ^ (e - (L - 50))) * pow2 (L - 50))%Q as Eh.
  { rewrite (inject_Z_mult m). rewrite Ee. ring. }
  rewrite Eh, Ek in Hlt. rewrite Eh. rewrite Ek at 1.
  assert (6 * k * 2 ^ (50 - L) < m * 2 ^ (e - (L - 50))) as HZ.
  { rewrite Zlt_Qlt. apply (Qmult_lt_r _ _ (pow2 (L - 50))); done. }
  assert (inject_Z (6 * k * 2 ^ (50 - L)) + 1 <= inject_Z (m * 2 ^ (e - (L - 50))))%Q as HQ.
  { change 1%Q with (inject_Z 1). rewrite <- inject_Z_plus, <- Zle_Qle. lia. }
  apply Qle_trans with ((inject_Z (6 * k * 2 ^ (50 - L)) + 1) * pow2 (L - 50))%Q.
  - apply Qle_lteq. right. ring.
  - apply Qmult_le_compat_r; [done|]. by apply Qlt_le_weak.
Qed.

(** Two thirds of a unit in the last place above [k] round up. *)
Lemma round64_above k :
  1 <= k < 2 ^ 50 ->
  exists r, round64 (inject_Z k + (2 # 3) * pow2 (Z.log2 k - 52)) = Fin r
            /\ (inject_Z k < r)%Q.
Proof.
  intros Hk. set (L := Z.log2 k).
  pose proof (Z.log2_spec k ltac:(lia)) as HL. fold L in HL.
  pose proof (Z.log2_nonneg k) as HL0. fold L in HL0.
  assert (L < 50) as HL50 by (apply Z.log2_lt_pow2; lia).
  set (u := L - 52). pose proof (pow2_pos u) as Hpu.
  assert (pow2 u < 1)%Q as Hu1.
  { change 1%Q with (pow2 0). apply pow2_lt. lia. }
  assert (1 <= inject_Z k)%Q as Hk1.
  { change 1%Q with (inject_Z 1). rewrite <- Zle_Qle. lia. }
  set (q := (inject_Z k + (2 # 3) * pow2 u)%Q).
  assert (ilog2 q = L) as Hi.
  { apply ilog2_unique.
    - apply Qle_trans with (inject_Z k); [|unfold q; lra].
      rewrite pow2_Z by lia. rewrite <- Zle_Qle. lia.
    - apply Qlt_le_trans with (inject_Z k + 1)%Q; [unfold q; lra|].
      rewrite pow2_Z by lia. change 1%Q with (inject_Z 1).
      rewrite <- inject_Z_plus, <- Zle_Qle. unfold Z.succ in HL. lia. }
  assert (ulpExp q = u) as Hue by (unfold ulpExp; rewrite Hi; unfold u; lia).
  assert (inject_Z k == inject_Z (k * 2 ^ (52 - L)) * pow2 u)%Q as Ek.
  { rewrite inject_Z_mult. replace (52 - L) with (0 - u) by (unfold u; lia).
    rewrite <- pow2_div by (unfold u; lia). change (pow2 0) with 1%Q. field. lra. }
  assert (nearest q == inject_Z k + pow2 u)%Q as En.
  { unfold nearest. rewrite Hue.
    rewrite (rne_comp _ (inject_Z (k * 2 ^ (52 - L)) + (2 # 3))).
    - rewrite rne_two_thirds, inject_Z_plus. rewrite Ek at 1.
      change (inject_Z 1) with 1%Q. ring.
    - unfold q. rewrite Ek at 1. field. lra. }
  assert (0 < q)%Q as Hq by (unfold q; lra).
  assert (inject_Z k + pow2 u < pow2 1024)%Q as Hb.
  { apply Qlt_le_trans with (pow2 50 + 1)%Q.
    - apply Qplus_lt_le_compat; [|lra]. rewrite pow2_Z by lia. rewrite <- Zlt_Qlt. lia.
    - apply Qle_trans with (pow2 51).
      + vm_compute. discriminate.
      + apply pow2_le. lia. }
  unfold round64. destruct (Qcompare_spec q 0) as [H|H|H]; try (exfalso; lra).
  destruct (Qle_bool (pow2 1024) (nearest q)) eqn:Ho; qbool Ho; [exfalso; lra|].
  eexists. split; [reflexivity|]. rewrite Qred_correct, En. lra.
Qed.

(** The comparison of the code, computed in binary64, is the comparison
    of the exact quotient. *)
Lemma requiredDays_binary64 m e k :
  Z.abs m < 2 ^ 53 -> 1 <= k < 2 ^ 50 ->
  let hours := (inject_Z m * pow2 e)%Q in
  gtb (fdiv (Fin hours) (of_Z 6)) (of_Z k) = gtb (div (Fin hours) (of_Z 6)) (of_Z k).
Proof.
  intros Hm Hk hours. pose proof (pow2_pos e) as Hpe.
  unfold fdiv, div, of_Z. cbn [is_nan is_inf is_zero orb andb val sign].
  change (Qzero_b (inject_Z 6)) with false. rewrite andb_false_r. cbn [orb].
  destruct (Qzero_b hours) eqn:Hz; [reflexivity|].
  unfold gtb. fold (of_Z k).
  assert (round64 (inject_Z k) = of_Z k) as Hrk by (apply round64_Z; lia).
  change (inject_Z 6) with 6%Q.
  destruct (Qlt_le_dec (inject_Z k) (hours / 6)) as [Hgt|Hle].
  - (* more than [6 * k] hours *)
    transitivity true.
    2:{ symmetry. unfold ltb, of_Z, val. apply negb_true_iff, not_true_iff_false.
        rewrite Qle_bool_iff, Qred_correct. by apply Qlt_not_le. }
    assert (inject_Z (6 * k) < hours)%Q as Hh.
    { rewrite inject_Z_mult. change (inject_Z 6) with 6%Q.
      pose proof (proj2 (Qmult_lt_r _ _ 6 eq_refl) Hgt) as H6.
      assert (hours / 6 * 6 == hours)%Q as E6 by field.
      rewrite E6 in H6. lra. }
    assert (0 < m) as Hm0.
    { assert (0 < inject_Z m)%Q as H0.
      { apply (Qmult_lt_r _ _ (pow2 e)); [done|]. rewrite Qmult_0_l.
        eapply Qle_lt_trans; [|exact Hh]. change 0%Q with (inject_Z 0).
        rewrite <- Zle_Qle. lia. }
      change 0%Q with (inject_Z 0) in H0. rewrite <- Zlt_Qlt in H0. done. }
    pose proof (hours_above m e k ltac:(lia) Hk Hh) as Ha. fold hours in Ha.
    destruct (round64_above k Hk) as (r & Hr & Hkr).
    apply ltb_leb_trans with (Fin r).
    + unfold ltb, of_Z, val. apply negb_true_iff, not_true_iff_false.
      rewrite Qle_bool_iff. lra.
    + rewrite <- Hr. apply round64_mono.
      apply Qle_shift_div_l; [reflexivity|].
      rewrite inject_Z_mult in Ha. change (inject_Z 6) with 6%Q in Ha.
      assert (pow2 (Z.log2 k - 50) == 4 * pow2 (Z.log2 k - 52))%Q as Eg.
      { replace (Z.log2 k - 50) with (2 + (Z.log2 k - 52)) by lia.
        rewrite pow2_plus. reflexivity. }
      rewrite Eg in Ha. lra.
  - (* at most [6 * k] hours *)
    transitivity false.
    + apply leb_not_ltb. rewrite <- Hrk. by apply round64_mono.
    + symmetry. unfold ltb, of_Z, val. apply negb_false_iff.
      rewrite Qle_bool_iff, Qred_correct. done.
Qed.

(** *** The binary64 of the processor

    The rounding above is that of the processor.  On the sample numbers,
    which include the zeros, the infinities and [NaN], the four operations
    give what the processor gives; so they do where the results overflow,
    underflow or are subnormal; and so do the two formulas of the
    predictor, on the sample day counts. *)

Example operations_agree_with_the_processor :
  forallb (fun x => forallb (agreeOn x) sampleFloats) sampleFloats = true.
Proof. vm_compute. reflexivity. Qed.

Example extremes_agree_with_the_processor :
  forallb (fun '(x, y) => agreeOn x y) extremePairs = true.
Proof. vm_compute. reflexivity. Qed.

Example progress_agrees_with_the_processor :
  forallb
    (fun '(elapsed, total) => forallb (progressAgrees elapsed total) [0; 45; 100])
    sampleDays = true.
Proof. vm_compute. reflexivity. Qed.

(** ** The risk scorer computes what the specification words *)

Lemma calculateRiskScore_run task s :
  calculateRiskScore task s = (Ok (riskScoreAt (now s) task), advance 1 s).
Proof.
  unfold calculateRiskScore.
  erewrite bind_run; [|apply newDate_run].
  unfold ret, riskScoreAt, riskBonuses, daysUntilDueAt, sumZ. cbn [foldr].
  do 2 f_equal.
  set (d := ceilDays _ _). set (p := toNumber _).
  destruct (ltb d (of_Z 0)), (leb d (of_Z 1) && ltb p (of_Z 80)),
    (leb d (of_Z 3) && ltb p (of_Z 50)),
    (bool_decide (Task.priority task = high) && ltb p (of_Z 30)),
    (hasDependencies task), (Task.estimated_hours task) as [h|];
    try destruct (truthy (Fin h) && gtb d (of_Z 0));
    try destruct (gtb (div (Fin h) (of_Z 6)) d);
    cbn [andb]; reflexivity.
Qed.

Lemma riskBonuses_nonneg days task : Forall (fun b => 0 <= b) (riskBonuses days task).
Proof.
  unfold riskBonuses. repeat constructor;
    repeat match goal with
           | |- context [if ?b then _ else _] => destruct b
           | |- context [match ?o with Some _ => _ | None => _ end] => destruct o
           end; lia.
Qed.

Lemma riskScoreAt_range now task : 0 <= riskScoreAt now task <= 10.
Proof.
  unfold riskScoreAt.
  pose proof (riskBonuses_nonneg (daysUntilDueAt now task) task) as H.
  unfold riskBonuses in *. cbn [sumZ foldr].
  repeat match goal with H : Forall _ (_ :: _) |- _ => apply Forall_cons in H as [? H] end.
  lia.
Qed.

Lemma pushString_if (b : bool) h a x ck rd :
  (if b then pushString (length h) x else ret tt)
    {| heap := h ++ [Strings a]; clock := ck; reads := rd |}
  = (Ok tt, {| heap := h ++ [Strings (a ++ if b then [x] else [])];
               clock := ck; reads := rd |}).
Proof. destruct b; [apply pushString_run|]. by rewrite app_nil_r. Qed.

Lemma pushString_if2 (b1 b2 : bool) h a x y ck rd :
  (if b1 then pushString (length h) x
   else if b2 then pushString (length h) y else ret tt)
    {| heap := h ++ [Strings a]; clock := ck; reads := rd |}
  = (Ok tt, {| heap := h ++ [Strings (a ++ if b1 then [x]
                                           else if b2 then [y] else [])];
               clock := ck; reads := rd |}).
Proof. destruct b1; [apply pushString_run|]. apply pushString_if. Qed.

Lemma getRiskReasons_run task score s :
  getRiskReasons task score s
  = (Ok (length (heap s)),
     advance 1 (extend [Strings (riskReasonsAt (now s) task)] s)).
Proof.
  unfold getRiskReasons.
  erewrite bind_run; [|apply alloc_run].
  erewrite bind_run; [|apply newDate_run].
  unfold advance, extend, now. cbn [heap clock reads].
  erewrite bind_run; [|apply pushString_if2].
  erewrite bind_run; [|apply pushString_if].
  erewrite bind_run; [|apply pushString_if].
  erewrite bind_run; [|apply pushString_if].
  unfold ret, riskReasonsAt, daysUntilDueAt.
  by rewrite <- !app_assoc.
Qed.

Lemma assessTask_run h acc rs ck k t :
  let s := riskScoreAt (ck k) t in
  assessTask (length h) t {| heap := h ++ Risks acc :: rs; clock := ck; reads := k |}
  = if 4 <=? s then
      (Ok tt,
       {| heap := h ++ Risks (acc ++ [ {| RiskEntry.task := t; RiskEntry.riskScore := s;
                                          RiskEntry.severity := severityOf s;
                                          RiskEntry.reasons := length (h ++ Risks acc :: rs) |} ])
                    :: (rs ++ [Strings (riskReasonsAt (ck (S k)) t)]);
          clock := ck; reads := S (S k) |})
    else (Ok tt, {| heap := h ++ Risks acc :: rs; clock := ck; reads := S k |}).
Proof.
  intros s. unfold assessTask.
  erewrite bind_run; [|apply calculateRiskScore_run].
  unfold now, advance. cbn [heap clock reads Nat.add]. fold s.
  unfold severityOf.
  destruct (Z.leb_spec 7 s) as [H7|H7].
  - replace (4 <=? s) with true by (symmetry; apply Z.leb_le; lia).
    erewrite bind_run; [|apply getRiskReasons_run].
    unfold now, advance, extend. cbn [heap clock reads Nat.add].
    rewrite <- app_assoc. cbn [app]. apply pushRisk_run.
  - destruct (4 <=? s); [|done].
    erewrite bind_run; [|apply getRiskReasons_run].
    unfold now, advance, extend. cbn [heap clock reads Nat.add].
    rewrite <- app_assoc. cbn [app]. apply pushRisk_run.
Qed.

Lemma forEach_assessTask_run ts : forall h acc rs ck k,
  exists k',
    forEach (assessTask (length h)) ts
      {| heap := h ++ Risks acc :: rs; clock := ck; reads := k |}
    = (Ok tt,
       {| heap := h ++ Risks (acc ++ riskEntries ck k (length (h ++ Risks acc :: rs)) ts)
                    :: (rs ++ riskReasonCells ck k ts);
          clock := ck; reads := k' |}).
Proof.
  induction ts as [|t ts IH]; intros h acc rs ck k.
  - exists k. cbn. by rewrite !app_nil_r.
  - cbn [forEach riskEntries riskReasonCells].
    pose proof (assessTask_run h acc rs ck k t) as Hrun. cbn zeta in Hrun.
    destruct (4 <=? riskScoreAt (ck k) t).
    + set (e := RiskEntry.mk _ _ _ _) in *.
      set (c := Strings _) in *.
      destruct (IH h (acc ++ [e]) (rs ++ [c]) ck (S (S k))) as [k' Hk'].
      exists k'. erewrite bind_run; [|exact Hrun]. rewrite Hk'.
      replace (length (h ++ Risks (acc ++ [e]) :: rs ++ [c]))
        with (S (length (h ++ Risks acc :: rs)))
        by (rewrite !length_app; cbn [length]; rewrite length_app; cbn [length]; lia).
      by rewrite <- !app_assoc.
    + edestruct IH as [k' Hk']. exists k'.
      erewrite bind_run; [|exact Hrun]. by rewrite Hk'.
Qed.

Lemma detectRisks_run tasks ts s :
  heap s !! tasks = Some (Tasks ts) ->
  let l := length (heap s) in
  exists k',
    detectRisks tasks s
    = (Ok l,
       {| heap := heap s
                  ++ Risks (sort (byKeyDesc RiskEntry.riskScore)
                              (riskEntries (clock s) (reads s) (S l) ts))
                     :: riskReasonCells (clock s) (reads s) ts;
          clock := clock s; reads := k' |}).
Proof.
  intros Hts l. unfold detectRisks.
  erewrite bind_run; [|apply alloc_run].
  erewrite bind_run; cycle 1.
  { apply loadTasks_run. cbn. by apply lookup_app_l_Some. }
  destruct (forEach_assessTask_run ts (heap s) [] [] (clock s) (reads s)) as [k' Hk'].
  exists k'. unfold extend.
  erewrite bind_run; [|exact Hk'].
  unfold sortRisks.
  erewrite bind_run; cycle 1.
  { erewrite bind_run; [|apply loadRisks_run, lookup_middle]. reflexivity. }
  unfold ret, store. cbn [heap clock reads app].
  rewrite insert_middle.
  replace (length (heap s ++ [Risks []])) with (S l)
    by (rewrite length_app; cbn [length]; lia).
  reflexivity.
Qed.

(** ** The assignee recommender computes what the specification words *)

Lemma pushString_if3 (b1 b2 : bool) h a x y z ck rd :
  (if b1 then pushString (length h) x
   else if b2 then pushString (length h) y else pushString (length h) z)
    {| heap := h ++ [Strings a]; clock := ck; reads := rd |}
  = (Ok tt, {| heap := h ++ [Strings (a ++ [if b1 then x else if b2 then y else z])];
               clock := ck; reads := rd |}).
Proof. destruct b1; [|destruct b2]; apply pushString_run. Qed.

Lemma generateReasoning_run member taskCount overdueCount score s :
  generateReasoning member taskCount overdueCount score s
  = (Ok (reasoningText member taskCount overdueCount score),
     extend [Strings (reasoningClauses taskCount overdueCount)] s).
Proof.
  unfold generateReasoning.
  erewrite bind_run; [|apply alloc_run]. unfold extend.
  erewrite bind_run; [|apply pushString_if3].
  erewrite bind_run; [|apply pushString_if].
  erewrite bind_run; [|apply loadStrings_run, lookup_middle].
  unfold reasoningText, reasoningClauses, fitTier, ret.
  destruct (80 <=? score); [|destruct (50 <=? score)];
  destruct (taskCount =? 0); try destruct (taskCount <=? 2); reflexivity.
Qed.

Lemma scoreMember_run taskData existingTasks ts member s :
  heap s !! existingTasks = Some (Tasks ts) ->
  scoreMember taskData existingTasks member s
  = (Ok (candidateAt (clock s) (reads s) taskData ts member),
     let n := length (memberTasksOf member ts) in
     advance (n + n)
       (extend [Strings (reasoningClauses (Z.of_nat n)
                           (countAt isOverdueAt (clock s) (reads s)
                              (memberTasksOf member ts)))] s)).
Proof.
  intros Hts. unfold scoreMember.
  erewrite bind_run; [|by apply loadTasks_run].
  fold (memberTasksOf member ts). set (mts := memberTasksOf member ts).
  erewrite bind_run; [|apply filterM_clock].
  erewrite bind_run; [|apply filterM_clock].
  erewrite bind_run; [|apply generateReasoning_run].
  unfold ret, candidateAt, rawScoreAt, countAt, advance, extend.
  cbn [heap clock reads]. fold mts.
  f_equal.
  - do 2 f_equal; try lia. f_equal. lia.
  - f_equal. lia.
Qed.

Lemma mapM_scoreMember_run taskData existingTasks ts ms : forall s,
  heap s !! existingTasks = Some (Tasks ts) ->
  exists cells k',
    mapM (scoreMember taskData existingTasks) ms s
    = (Ok (candidatesFrom (clock s) (reads s) taskData ts ms),
       {| heap := heap s ++ cells; clock := clock s; reads := k' |}).
Proof.
  induction ms as [|m ms IH]; intros s Hts.
  - exists [], (reads s). cbn. rewrite app_nil_r. by destruct s.
  - cbn [mapM candidatesFrom].
    pose proof (scoreMember_run taskData _ _ m _ Hts) as Hm. cbn zeta in Hm.
    set (s1 := advance _ _) in Hm.
    destruct (IH s1) as (cells & k' & Hrest).
    { cbn. by apply lookup_app_l_Some. }
    eexists (_ :: cells), k'.
    erewrite bind_run; [|exact Hm].
    erewrite bind_run; [|exact Hrest].
    unfold ret. cbn [s1 advance extend heap clock reads].
    by rewrite <- app_assoc.
Qed.

Lemma candidatesFrom_members ck k taskData ts ms :
  map Candidate.member (candidatesFrom ck k taskData ts ms) = ms.
Proof.
  revert k. induction ms as [|m ms IH]; intros k; [done|].
  cbn [candidatesFrom map]. by rewrite IH.
Qed.

Lemma suggestAssignee_run taskData teamMembers existingTasks ms ts s :
  heap s !! teamMembers = Some (Members ms) ->
  heap s !! existingTasks = Some (Tasks ts) ->
  exists s',
    suggestAssignee taskData teamMembers existingTasks s
    = (Ok (sort (byKeyDesc Candidate.score)
             (candidatesFrom (clock s) (reads s) taskData ts ms) !! 0%nat), s').
Proof.
  intros Hms Hts. unfold suggestAssignee.
  erewrite bind_run; [|by apply loadMembers_run].
  destruct (mapM_scoreMember_run taskData _ _ ms _ Hts) as (cells & k' & Hmap).
  erewrite bind_run; [|exact Hmap].
  erewrite bind_run; [|apply alloc_run].
  unfold extend. cbn [heap clock reads].
  unfold sortCandidates.
  erewrite bind_run; cycle 1.
  { erewrite bind_run; [|apply loadCandidates_run, lookup_middle]. reflexivity. }
  unfold store. cbn [heap clock reads]. rewrite insert_middle.
  erewrite bind_run; [|apply loadCandidates_run, lookup_middle].
  eexists. reflexivity.
Qed.

(** ** The workload balancer computes what the specification words *)

Lemma workloadOf_run tasks ts member s :
  heap s !! tasks = Some (Tasks ts) ->
  workloadOf tasks member s
  = (Ok {| Workload.member := member;
           Workload.taskCount := activeTaskCount ts member;
           Workload.tasks := length (heap s) |},
     extend [Tasks (memberTasksOf member ts)] s).
Proof.
  intros Hts. unfold workloadOf.
  erewrite bind_run; [|by apply loadTasks_run].
  erewrite bind_run; [|apply alloc_run].
  erewrite bind_run; [|apply loadTasks_run, lookup_middle].
  reflexivity.
Qed.

Lemma mapM_workloadOf_run tasks ts ms : forall s,
  heap s !! tasks = Some (Tasks ts) ->
  mapM (workloadOf tasks) ms s
  = (Ok (workloadsFrom (length (heap s)) ts ms),
     extend (map (fun m => Tasks (memberTasksOf m ts)) ms) s).
Proof.
  induction ms as [|m ms IH]; intros s Hts.
  - cbn. unfold ret, extend. rewrite app_nil_r. by destruct s.
  - cbn [mapM workloadsFrom map].
    erewrite bind_run; [|by apply workloadOf_run].
    erewrite bind_run; cycle 1.
    { apply IH. cbn. by apply lookup_app_l_Some. }
    unfold ret, extend. cbn [heap clock reads].
    rewrite <- app_assoc, length_app. cbn [length app].
    by rewrite Nat.add_1_r.
Qed.

Lemma workloadsFrom_members l ts ms :
  map Workload.member (workloadsFrom l ts ms) = ms.
Proof.
  revert l. induction ms as [|m ms IH]; intros l; [done|].
  cbn [workloadsFrom map]. by rewrite IH.
Qed.

Lemma elementAt_first {A} (a : list A) s :
  elementAt a 0 s = (match a !! 0%nat with Some x => Ok x | None => Throw TypeError end, s).
Proof.
  unfold elementAt.
  change (if 0 <=? 0 then a !! Z.to_nat 0 else None) with (a !! 0%nat).
  by destruct (a !! 0%nat).
Qed.

Lemma elementAt_last {A} (a : list A) x s :
  a !! 0%nat = Some x ->
  elementAt a (Z.of_nat (length a) - 1) s
  = (match last a with Some y => Ok y | None => Throw TypeError end, s).
Proof.
  intros Hx. unfold elementAt.
  assert (0 < length a)%nat by (by apply lookup_lt_Some in Hx).
  replace (0 <=? Z.of_nat (length a) - 1) with true by (symmetry; apply Z.leb_le; lia).
  replace (Z.to_nat (Z.of_nat (length a) - 1)) with (pred (length a)) by lia.
  rewrite <- last_lookup. by destruct (last a).
Qed.

Lemma suggestWorkloadBalancing_run teamMembers tasks ms ts s :
  heap s !! teamMembers = Some (Members ms) ->
  (ms <> [] -> heap s !! tasks = Some (Tasks ts)) ->
  exists s',
    suggestWorkloadBalancing teamMembers tasks s
    = (balancingOf (sort (byKeyDesc Workload.taskCount)
                      (workloadsFrom (length (heap s)) ts ms)), s').
Proof.
  intros Hms Hts. unfold suggestWorkloadBalancing.
  erewrite bind_run; [|by apply loadMembers_run].
  assert (mapM (workloadOf tasks) ms s
          = (Ok (workloadsFrom (length (heap s)) ts ms),
             extend (map (fun m => Tasks (memberTasksOf m ts)) ms) s)) as Hmap.
  { destruct ms as [|m ms]; [|by apply mapM_workloadOf_run, Hts].
    cbn. unfold ret, extend. rewrite app_nil_r. by destruct s. }
  erewrite bind_run; [|exact Hmap].
  erewrite bind_run; [|apply alloc_run].
  unfold extend. cbn [heap clock reads].
  unfold sortWorkloads.
  erewrite bind_run; cycle 1.
  { erewrite bind_run; [|apply loadWorkloads_run, lookup_middle]. reflexivity. }
  unfold store. cbn [heap clock reads]. rewrite insert_middle.
  erewrite bind_run; [|apply loadWorkloads_run, lookup_middle].
  fold (byKeyDesc Workload.taskCount).
  set (w := sort _ _). unfold balancingOf.
  destruct (w !! 0%nat) as [first|] eqn:Hfirst.
  - erewrite bind_run; [|rewrite elementAt_first, Hfirst; reflexivity].
    destruct (last w) as [lst|] eqn:Hlast.
    + erewrite bind_run;
        [|rewrite (elementAt_last _ _ _ Hfirst), Hlast; reflexivity].
      destruct (3 <=? _); eexists; reflexivity.
    + erewrite bind_throw;
        [|rewrite (elementAt_last _ _ _ Hfirst), Hlast; reflexivity].
      eexists; reflexivity.
  - erewrite bind_throw; [|rewrite elementAt_first, Hfirst; reflexivity].
    eexists; reflexivity.
Qed.

(** ** The completion predictor computes what the specification words *)

Lemma predictCompletion_run item s :
  predictCompletion item s = (Ok (predictionAt (now s) item), advance 1 s).
Proof.
  unfold predictCompletion.
  erewrite bind_run; [|apply newDate_run].
  unfold predictionAt, classify, classificationRules, firstMatch.
  unfold progressDeltaAt, expectedProgressAt, actualProgressOf, daysElapsedAt,
    totalDaysOf, daysRemainingAt.
  by repeat match goal with |- context [if ?b then _ else _] => destruct b end.
Qed.

Lemma ceilDays_finite a b : is_finite (ceilDays (of_Z a) (of_Z b)) = true.
Proof. rewrite ceilDays_of_Z. by destruct (_ && _). Qed.

Lemma fdiv_by_zero_nonfinite x : is_nan x = false -> nonfinite (fdiv x (of_Z 0)).
Proof.
  unfold nonfinite, fdiv. intros ->. cbn [orb].
  change (is_inf (of_Z 0)) with false. change (is_zero (of_Z 0)) with true.
  rewrite andb_false_r, andb_true_r, orb_true_r. cbn [orb].
  destruct (is_zero x); [done|]. by destruct (xorb _ _).
Qed.

Lemma fmul_nonfinite x z : z <> 0 -> nonfinite x -> nonfinite (fmul x (of_Z z)).
Proof.
  unfold nonfinite, fmul. intros Hz Hx.
  assert (is_zero (of_Z z) = false) as Hzero.
  { cbn. rewrite Qzero_b_inject. by apply Z.eqb_neq. }
  destruct x; try done; cbn [is_nan is_inf orb andb]; rewrite ?Hzero; cbn;
    by destruct (Qneg_b _).
Qed.

Lemma fsub_nonfinite x y : is_finite x = true -> nonfinite y -> nonfinite (fsub x y).
Proof. unfold nonfinite, fsub. by destruct x, y. Qed.

Lemma round_nonfinite x : nonfinite x -> nonfinite (round x).
Proof. unfold nonfinite. by destruct x. Qed.

Lemma round_finite x : is_finite x = true -> is_finite (round x) = true.
Proof. destruct x; try done. cbn. by destruct (_ && _). Qed.

Lemma progressOrZero_finite p : is_finite (progressOrZero p) = true.
Proof. destruct p as [z|]; [|done]. unfold progressOrZero. by destruct (truthy _). Qed.

Lemma ceilDays_not_nan a b : is_nan (ceilDays (of_Z a) (of_Z b)) = false.
Proof. rewrite ceilDays_of_Z. by destruct (_ && _). Qed.

Lemma totalDays_zero d : ceilDays (of_Z d) (of_Z d) = of_Z 0.
Proof.
  rewrite ceilDays_of_Z. rewrite Z.sub_diag, Z.ltb_irrefl, andb_false_r. done.
Qed.

(** ** What a call leaves unchanged

    The rules of [keeps]: one for each operation of the monad. *)

Section Keeps.
Context (n : nat).

Lemma keeps_ret {A} (a : A) (Q : A -> Prop) : Q a -> keeps n (ret a) Q.
Proof. intros HQ s Hs. split_and!; [done..|]. by intros ? [= <-]. Qed.

Lemma keeps_throw {A} e (Q : A -> Prop) : keeps n (throw e) Q.
Proof. intros s Hs. by split_and!. Qed.

Lemma keeps_bind {A B} (m : M A) (k : A -> M B) Q R :
  keeps n m Q -> (forall a, Q a -> keeps n (k a) R) -> keeps n (bind m k) R.
Proof.
  intros Hm Hk s Hs. unfold bind.
  destruct (Hm s Hs) as (Ht & Hl & HQ).
  destruct (m s) as [[a|e] s1]; cbn [fst snd] in *.
  - destruct (Hk a (HQ a eq_refl) s1 Hl) as (Ht' & Hl' & HR).
    split_and!; [congruence|done..].
  - by split_and!.
Qed.

Lemma keeps_weaken {A} (m : M A) (Q Q' : A -> Prop) :
  keeps n m Q -> (forall a, Q a -> Q' a) -> keeps n m Q'.
Proof.
  intros Hm HQ s Hs. destruct (Hm s Hs) as (? & ? & ?). split_and!; auto.
Qed.

Lemma keeps_newDate : keeps n newDate anything.
Proof. intros s Hs. by split_and!. Qed.

(** A new array is not one of the first [n] cells. *)
Lemma keeps_alloc c : keeps n (alloc c) (fun l => (n <= l)%nat).
Proof.
  intros s Hs. cbn. split_and!.
  - by rewrite take_app_le.
  - rewrite length_app. lia.
  - by intros ? [= <-].
Qed.

Lemma keeps_load l : keeps n (load l) anything.
Proof. intros s Hs. unfold load. by destruct (heap s !! l); split_and!. Qed.

(** A write to a cell that is not among the first [n]. *)
Lemma keeps_store l c : (n <= l)%nat -> keeps n (store l c) anything.
Proof.
  intros Hl s Hs. cbn. split_and!; [|by rewrite length_insert|done].
  rewrite take_insert. case_decide; [lia|done].
Qed.

Lemma keeps_mapM {A B} (f : A -> M B) (a : list A) :
  (forall x, keeps n (f x) anything) -> keeps n (mapM f a) anything.
Proof.
  intros Hf. induction a as [|x a IH]; cbn [mapM]; [by apply keeps_ret|].
  eapply keeps_bind; [apply Hf|]. intros y _.
  eapply keeps_bind; [apply IH|]. intros ys _. by apply keeps_ret.
Qed.

Lemma keeps_filterM {A} (p : A -> M bool) (a : list A) :
  (forall x, keeps n (p x) anything) -> keeps n (filterM p a) anything.
Proof.
  intros Hp. induction a as [|x a IH]; cbn [filterM]; [by apply keeps_ret|].
  eapply keeps_bind; [apply Hp|]. intros y _.
  eapply keeps_bind; [apply IH|]. intros ys _. by apply keeps_ret.
Qed.

Lemma keeps_forEach {A} (f : A -> M unit) (a : list A) :
  (forall x, keeps n (f x) anything) -> keeps n (forEach f a) anything.
Proof.
  intros Hf. induction a as [|x a IH]; cbn [forEach]; [by apply keeps_ret|].
  eapply keeps_bind; [apply Hf|]. by intros _ _.
Qed.
End Keeps.

(** One step of a proof that a function keeps the store: split a [bind],
    a conditional or a match, or apply the rule of a primitive. *)
Ltac keeps_step :=
  lazymatch goal with
  | |- keeps _ (bind _ _) _ => eapply keeps_bind; [|intros ? ?]
  | |- keeps _ (ret _) _ => by apply keeps_ret
  | |- keeps _ (throw _) _ => apply keeps_throw
  | |- keeps _ newDate _ => apply keeps_newDate
  | |- keeps _ (alloc _) _ => apply keeps_alloc
  | |- keeps _ (load _) _ => apply keeps_load
  | |- keeps _ (store _ _) _ => by apply keeps_store
  | |- keeps _ (mapM _ _) _ => apply keeps_mapM; intros ?
  | |- keeps _ (filterM _ _) _ => apply keeps_filterM; intros ?
  | |- keeps _ (forEach _ _) _ => apply keeps_forEach; intros ?
  | |- keeps _ (if ?b then _ else _) _ => destruct b
  | |- keeps _ (match ?x with _ => _ end) _ => destruct x
  end.

Ltac keeps_auto := repeat keeps_step.

Lemma keeps_loadTasks n l : keeps n (loadTasks l) anything.
Proof. unfold loadTasks. keeps_auto. Qed.

Lemma keeps_loadMembers n l : keeps n (loadMembers l) anything.
Proof. unfold loadMembers. keeps_auto. Qed.

Lemma keeps_loadStrings n l : keeps n (loadStrings l) anything.
Proof. unfold loadStrings. keeps_auto. Qed.

Lemma keeps_loadRisks n l : keeps n (loadRisks l) anything.
Proof. unfold loadRisks. keeps_auto. Qed.

Lemma keeps_loadCandidates n l : keeps n (loadCandidates l) anything.
Proof. unfold loadCandidates. keeps_auto. Qed.

Lemma keeps_loadWorkloads n l : keeps n (loadWorkloads l) anything.
Proof. unfold loadWorkloads. keeps_auto. Qed.

Lemma keeps_pushString n l x : (n <= l)%nat -> keeps n (pushString l x) anything.
Proof.
  intros. unfold pushString.
  eapply keeps_bind; [apply keeps_loadStrings|]. intros. keeps_auto.
Qed.

Lemma keeps_pushRisk n l x : (n <= l)%nat -> keeps n (pushRisk l x) anything.
Proof.
  intros. unfold pushRisk.
  eapply keeps_bind; [apply keeps_loadRisks|]. intros. keeps_auto.
Qed.

Lemma keeps_sortRisks n cmp l : (n <= l)%nat -> keeps n (sortRisks cmp l) anything.
Proof.
  intros. unfold sortRisks.
  eapply keeps_bind; [apply keeps_loadRisks|]. intros. keeps_auto.
Qed.

Lemma keeps_sortCandidates n cmp l :
  (n <= l)%nat -> keeps n (sortCandidates cmp l) anything.
Proof.
  intros. unfold sortCandidates.
  eapply keeps_bind; [apply keeps_loadCandidates|]. intros. keeps_auto.
Qed.

Lemma keeps_sortWorkloads n cmp l :
  (n <= l)%nat -> keeps n (sortWorkloads cmp l) anything.
Proof.
  intros. unfold sortWorkloads.
  eapply keeps_bind; [apply keeps_loadWorkloads|]. intros. keeps_auto.
Qed.

Ltac keeps_step' :=
  first
    [ apply keeps_loadTasks | apply keeps_loadMembers | apply keeps_loadStrings
    | apply keeps_loadRisks | apply keeps_loadCandidates | apply keeps_loadWorkloads
    | by apply keeps_pushString | by apply keeps_pushRisk
    | by apply keeps_sortRisks | by apply keeps_sortCandidates
    | by apply keeps_sortWorkloads
    | keeps_step ].

Ltac keeps_all := repeat keeps_step'.

Lemma keeps_generateReasoning n member taskCount overdueCount score :
  keeps n (generateReasoning member taskCount overdueCount score) anything.
Proof. unfold generateReasoning. keeps_all. Qed.

Lemma keeps_scoreMember n taskData existingTasks member :
  keeps n (scoreMember taskData existingTasks member) anything.
Proof.
  unfold scoreMember. keeps_all. apply keeps_generateReasoning.
Qed.

Lemma keeps_suggestAssignee n taskData teamMembers existingTasks :
  keeps n (suggestAssignee taskData teamMembers existingTasks) anything.
Proof.
  unfold suggestAssignee. keeps_all. apply keeps_scoreMember.
Qed.

Lemma keeps_predictCompletion n item : keeps n (predictCompletion item) anything.
Proof. unfold predictCompletion. keeps_all. Qed.

Lemma keeps_calculateRiskScore n task : keeps n (calculateRiskScore task) anything.
Proof. unfold calculateRiskScore. keeps_all. Qed.

Lemma keeps_getRiskReasons n task score :
  keeps n (getRiskReasons task score) (fun l => (n <= l)%nat).
Proof. unfold getRiskReasons. keeps_all. Qed.

Lemma keeps_assessTask n risks task :
  (n <= risks)%nat -> keeps n (assessTask risks task) anything.
Proof.
  intros. unfold assessTask.
  eapply keeps_bind; [apply keeps_calculateRiskScore|]. intros score _.
  destruct (7 <=? score); [|destruct (4 <=? score)]; [..|keeps_all];
    (eapply keeps_bind; [apply keeps_getRiskReasons|]); intros; keeps_all.
Qed.

Lemma keeps_detectRisks n tasks : keeps n (detectRisks tasks) anything.
Proof.
  unfold detectRisks. keeps_all. by apply keeps_assessTask.
Qed.

Lemma keeps_workloadOf n tasks member : keeps n (workloadOf tasks member) anything.
Proof. unfold workloadOf. keeps_all. Qed.

Lemma keeps_elementAt n {A} (a : list A) i : keeps n (elementAt a i) anything.
Proof. unfold elementAt. keeps_all. Qed.

Lemma keeps_suggestWorkloadBalancing n teamMembers tasks :
  keeps n (suggestWorkloadBalancing teamMembers tasks) anything.
Proof.
  unfold suggestWorkloadBalancing. keeps_all;
    try apply keeps_workloadOf; try apply keeps_elementAt.
Qed.

Lemma keeps_prefix {A} (m : M A) s :
  keeps (length (heap s)) m anything -> heap s `prefix_of` heap (m s).2.
Proof.
  intros Hm. destruct (Hm s (le_n _)) as (Ht & _).
  rewrite firstn_all in Ht. rewrite <- Ht. apply prefix_take.
Qed.

(** ** What a result depends on

    The rules of [respects], for a relation that holds between states of
    one store. *)

Section Respects.
Context (R : State -> State -> Prop).
(** [R] relates states of one store, whatever that store is. *)
Hypothesis R_heap : forall s1 s2, R s1 s2 -> heap s1 = heap s2.
Hypothesis R_set : forall s1 s2 h, R s1 s2 ->
  R {| heap := h; clock := clock s1; reads := reads s1 |}
    {| heap := h; clock := clock s2; reads := reads s2 |}.

Lemma respects_ret {A} (a : A) : respects R (ret a).
Proof. by intros s1 s2 HR. Qed.

Lemma respects_throw {A} e : respects R (@throw A e).
Proof. by intros s1 s2 HR. Qed.

Lemma respects_bind {A B} (m : M A) (k : A -> M B) :
  respects R m -> (forall a, respects R (k a)) -> respects R (bind m k).
Proof.
  intros Hm Hk s1 s2 HR. unfold bind.
  destruct (Hm s1 s2 HR) as [Hv HR'].
  destruct (m s1) as [[a1|e1] t1], (m s2) as [[a2|e2] t2];
    cbn [fst snd] in *; try done.
  - injection Hv as ->. by apply Hk.
  - by injection Hv as ->.
Qed.

Lemma respects_alloc c : respects R (alloc c).
Proof.
  intros s1 s2 HR. cbn. rewrite (R_heap _ _ HR). split; [done|].
  by apply R_set.
Qed.

Lemma respects_load l : respects R (load l).
Proof.
  intros s1 s2 HR. unfold load. rewrite (R_heap _ _ HR).
  by destruct (heap s2 !! l).
Qed.

Lemma respects_store l c : respects R (store l c).
Proof.
  intros s1 s2 HR. cbn. rewrite (R_heap _ _ HR). split; [done|].
  by apply R_set.
Qed.

Lemma respects_mapM {A B} (f : A -> M B) (a : list A) :
  (forall x, respects R (f x)) -> respects R (mapM f a).
Proof.
  intros Hf. induction a as [|x a IH]; cbn [mapM]; [apply respects_ret|].
  apply respects_bind; [apply Hf|]. intros y.
  apply respects_bind; [apply IH|]. intros ys. apply respects_ret.
Qed.

Lemma respects_filterM {A} (p : A -> M bool) (a : list A) :
  (forall x, respects R (p x)) -> respects R (filterM p a).
Proof.
  intros Hp. induction a as [|x a IH]; cbn [filterM]; [apply respects_ret|].
  apply respects_bind; [apply Hp|]. intros y.
  apply respects_bind; [apply IH|]. intros ys. apply respects_ret.
Qed.

Lemma respects_forEach {A} (f : A -> M unit) (a : list A) :
  (forall x, respects R (f x)) -> respects R (forEach f a).
Proof.
  intros Hf. induction a as [|x a IH]; cbn [forEach]; [apply respects_ret|].
  apply respects_bind; [apply Hf|]. by intros _.
Qed.
End Respects.

Lemma sameReadings_heap s1 s2 : sameReadings s1 s2 -> heap s1 = heap s2.
Proof. by intros [? _]. Qed.

Lemma sameReadings_set s1 s2 h : sameReadings s1 s2 ->
  sameReadings {| heap := h; clock := clock s1; reads := reads s1 |}
    {| heap := h; clock := clock s2; reads := reads s2 |}.
Proof. by intros [_ ?]. Qed.

Lemma sameStore_heap s1 s2 : sameStore s1 s2 -> heap s1 = heap s2.
Proof. done. Qed.

Lemma sameStore_set s1 s2 h : sameStore s1 s2 ->
  sameStore {| heap := h; clock := clock s1; reads := reads s1 |}
    {| heap := h; clock := clock s2; reads := reads s2 |}.
Proof. done. Qed.

Lemma respects_newDate : respects sameReadings newDate.
Proof.
  intros s1 s2 [Hh Hc]. cbn. split; [|split; [done|]].
  - f_equal. apply (Hc 0%nat).
  - intros i. cbn. rewrite <- !Nat.add_succ_comm. apply (Hc (S i)).
Qed.

Ltac respects_step HR1 HR2 :=
  lazymatch goal with
  | |- respects _ (bind _ _) => apply respects_bind; [|intros ?]
  | |- respects _ (ret _) => apply respects_ret
  | |- respects _ (throw _) => apply respects_throw
  | |- respects _ newDate => apply respects_newDate
  | |- respects _ (alloc _) => apply (respects_alloc _ HR1 HR2)
  | |- respects _ (load _) => apply (respects_load _ HR1)
  | |- respects _ (store _ _) => apply (respects_store _ HR1 HR2)
  | |- respects _ (mapM _ _) => apply respects_mapM; intros ?
  | |- respects _ (filterM _ _) => apply respects_filterM; intros ?
  | |- respects _ (forEach _ _) => apply respects_forEach; intros ?
  | |- respects _ (if ?b then _ else _) => destruct b
  | |- respects _ (match ?x with _ => _ end) => destruct x
  end.

Ltac respects_unfold :=
  unfold pushString, pushRisk, sortRisks, sortCandidates, sortWorkloads,
    elementAt;
  unfold loadTasks, loadMembers, loadStrings, loadRisks, loadCandidates,
    loadWorkloads.

Ltac respects_readings :=
  respects_unfold; repeat respects_step sameReadings_heap sameReadings_set.

Ltac respects_store := 
  respects_unfold; repeat respects_step sameStore_heap sameStore_set.

Lemma respects_calculateRiskScore task : respects sameReadings (calculateRiskScore task).
Proof. unfold calculateRiskScore. respects_readings. Qed.

Lemma respects_getRiskReasons task score :
  respects sameReadings (getRiskReasons task score).
Proof. unfold getRiskReasons. respects_readings. Qed.

Lemma respects_detectRisks tasks : respects sameReadings (detectRisks tasks).
Proof.
  unfold detectRisks, assessTask. respects_readings;
    first [apply respects_calculateRiskScore | apply respects_getRiskReasons].
Qed.

Lemma respects_predictCompletion item : respects sameReadings (predictCompletion item).
Proof. unfold predictCompletion. respects_readings. Qed.

Lemma respects_suggestAssignee taskData teamMembers existingTasks :
  respects sameReadings (suggestAssignee taskData teamMembers existingTasks).
Proof.
  unfold suggestAssignee, scoreMember, generateReasoning. respects_readings.
Qed.

Lemma respects_suggestWorkloadBalancing teamMembers tasks :
  respects sameStore (suggestWorkloadBalancing teamMembers tasks).
Proof.
  unfold suggestWorkloadBalancing, workloadOf. respects_store.
Qed.

(** ** The risk scorer: score, severity and order *)

Lemma daysUntilDueAt_integer now task d :
  Task.due_date task = Some d ->
  isInteger (daysUntilDueAt now task) (ceilDiv (d - now) 86400000).
Proof.
  intros Hd. unfold daysUntilDueAt, isInteger, ceilDiv. rewrite Hd. cbn [timeValue].
  rewrite ceilDays_of_Z. replace (- (d - now)) with (now - d) by lia.
  destruct (Z.eqb_spec (- ((now - d) / 86400000)) 0) as [->|_]; cbn [andb]; [|by left].
  destruct (d <? now); auto.
Qed.

(** A task a whole day past its due date is overdue at the granularity of
    the scorer. *)
Lemma daysUntilDueAt_overdue now task d :
  Task.due_date task = Some d -> d + 86400000 <= now ->
  ltb (daysUntilDueAt now task) (of_Z 0) = true.
Proof.
  intros Hd Hlate. unfold daysUntilDueAt. rewrite Hd. cbn [timeValue].
  rewrite ceilDays_of_Z.
  assert (1 <= (now - d) / 86400000) by (apply Z.div_le_lower_bound; lia).
  destruct (Z.eqb_spec (- ((now - d) / 86400000)) 0); [lia|]. cbn [andb].
  rewrite ltb_of_Z. apply Z.ltb_lt. lia.
Qed.

Lemma riskScoreAt_overdue now task d :
  Task.due_date task = Some d -> d + 86400000 <= now -> 5 <= riskScoreAt now task.
Proof.
  intros Hd Hlate. unfold riskScoreAt.
  pose proof (riskBonuses_nonneg (daysUntilDueAt now task) task) as H.
  unfold riskBonuses in *. rewrite (daysUntilDueAt_overdue _ _ _ Hd Hlate) in *.
  cbn [sumZ foldr].
  repeat match goal with H : Forall _ (_ :: _) |- _ => apply Forall_cons in H as [? H] end.
  lia.
Qed.

Lemma riskEntries_sublist ck k l ts :
  map RiskEntry.task (riskEntries ck k l ts) `sublist_of` ts.
Proof.
  revert k l. induction ts as [|t ts IH]; intros k l; [done|].
  cbn [riskEntries]. destruct (4 <=? riskScoreAt (ck k) t).
  - cbn [map RiskEntry.task]. by apply sublist_skip.
  - by apply sublist_cons.
Qed.

Lemma riskEntries_elem ck k l ts e :
  e ∈ riskEntries ck k l ts ->
  RiskEntry.task e ∈ ts
  /\ 4 <= RiskEntry.riskScore e
  /\ RiskEntry.severity e = severityOf (RiskEntry.riskScore e)
  /\ exists j, RiskEntry.riskScore e = riskScoreAt (ck j) (RiskEntry.task e).
Proof.
  revert k l. induction ts as [|t ts IH]; intros k l; cbn [riskEntries].
  - by intros ?%elem_of_nil.
  - destruct (Z.leb_spec 4 (riskScoreAt (ck k) t)).
    + intros [->|He]%elem_of_cons.
      * cbn. split_and!; [by left|done..|by exists k].
      * destruct (IH _ _ He) as (? & ? & ? & ?). split_and!; [by right|done..].
    + intros He. destruct (IH _ _ He) as (? & ? & ? & ?).
      split_and!; [by right|done..].
Qed.

(** A task that scores at least 4 whenever it is scored gets an entry. *)
Lemma riskEntries_complete ck k l ts t :
  t ∈ ts -> (forall j, 4 <= riskScoreAt (ck j) t) ->
  exists e j, e ∈ riskEntries ck k l ts
    /\ RiskEntry.task e = t /\ RiskEntry.riskScore e = riskScoreAt (ck j) t.
Proof.
  intros Ht Hscore. revert k l.
  induction ts as [|t' ts IH]; intros k l; [by apply elem_of_nil in Ht|].
  cbn [riskEntries]. apply elem_of_cons in Ht as [<-|Ht].
  - replace (4 <=? riskScoreAt (ck k) t) with true
      by (symmetry; apply Z.leb_le, Hscore).
    eexists _, k. split; [by left|done].
  - destruct (4 <=? riskScoreAt (ck k) t').
    + destruct (IH Ht (S (S k)) (S l)) as (e & j & ? & ? & ?).
      exists e, j. split; [by right|done].
    + apply (IH Ht).
Qed.

(** C6: for every task, calculateRiskScore returns an integer in the closed
    interval [0, 10]; the score is the sum of the applicable bonuses, none
    of them negative, clamped above at 10; and days_until_due is the ceiling
    of (due_date − now) in days, which may be negative. *)
Theorem C6_risk_score_in_range task s :
  let days := daysUntilDueAt (now s) task in
  exists score,
    calculateRiskScore task s = (Ok score, advance 1 s)
    /\ 0 <= score <= 10
    /\ score = Z.min 10 (sumZ (riskBonuses days task))
    /\ Forall (fun bonus => 0 <= bonus) (riskBonuses days task)
    /\ (forall d, Task.due_date task = Some d ->
          isInteger days (ceilDiv (d - now s) 86400000))
    /\ (forall d, Task.due_date task = Some d -> d + 86400000 <= now s ->
          ltb days (of_Z 0) = true).
Proof.
  intros days. exists (riskScoreAt (now s) task). split_and!.
  - apply calculateRiskScore_run.
  - apply riskScoreAt_range.
  - apply riskScoreAt_range.
  - done.
  - apply riskBonuses_nonneg.
  - intros d Hd. by apply daysUntilDueAt_integer.
  - intros d Hd Hlate. by eapply daysUntilDueAt_overdue.
Qed.

(** C1 as stated fails: a pending task whose due date is an hour before now
    scores 0, and detectRisks returns no entry for it. *)
Lemma C1_due_an_hour_ago_scores_zero :
  Task.due_date dueAnHourAgo = Some 0
  /\ now anHourLater = 3600000
  /\ Task.status dueAnHourAgo = pending
  /\ (calculateRiskScore dueAnHourAgo anHourLater).1 = Ok 0
  /\ (detectRisks 0%nat anHourLater).1 = Ok 1%nat
  /\ heap (detectRisks 0%nat anHourLater).2 !! 1%nat = Some (Risks []).
Proof. vm_compute. by split_and!. Qed.

(** C1, amended: for every task whose due date is at least a whole day
    before now (days_until_due < 0), whatever its status, the score
    calculateRiskScore computes is at least 5, and detectRisks returns an
    entry for the task with severity medium or high. *)
Theorem C1_overdue_by_a_day_is_at_least_medium tasks ts task d s :
  heap s !! tasks = Some (Tasks ts) ->
  task ∈ ts ->
  Task.due_date task = Some d ->
  (forall k, d + 86400000 <= clock s k) ->
  (exists score, calculateRiskScore task s = (Ok score, advance 1 s) /\ 5 <= score)
  /\ exists risks s' rs e,
       detectRisks tasks s = (Ok risks, s')
       /\ heap s' !! risks = Some (Risks rs)
       /\ e ∈ rs
       /\ RiskEntry.task e = task
       /\ 5 <= RiskEntry.riskScore e
       /\ (RiskEntry.severity e = Medium \/ RiskEntry.severity e = High).
Proof.
  intros Hts Hin Hd Hlate. split.
  - exists (riskScoreAt (now s) task). split; [apply calculateRiskScore_run|].
    eapply riskScoreAt_overdue; [done|apply Hlate].
  - destruct (detectRisks_run _ _ _ Hts) as [k' Hrun]. cbn zeta in Hrun.
    destruct (riskEntries_complete (clock s) (reads s) (S (length (heap s))) ts task)
      as (e & j & He & Htask & Hscore); [done|..].
    { intros j. pose proof (riskScoreAt_overdue _ _ _ Hd (Hlate j)). lia. }
    eexists _, _, _, e. split; [exact Hrun|]. cbn [heap].
    split; [apply lookup_middle|]. split_and!.
    + by apply sort_elem.
    + done.
    + rewrite Hscore. eapply riskScoreAt_overdue; [done|apply Hlate].
    + apply riskEntries_elem in He as (_ & _ & -> & _).
      unfold severityOf. destruct (7 <=? _); auto.
Qed.

Lemma C1_witness :
  (exists score,
     calculateRiskScore twoDaysLate onDayThree = (Ok score, advance 1 onDayThree)
     /\ 5 <= score)
  /\ exists risks s' rs e,
       detectRisks 0%nat onDayThree = (Ok risks, s')
       /\ heap s' !! risks = Some (Risks rs)
       /\ e ∈ rs
       /\ RiskEntry.task e = twoDaysLate
       /\ 5 <= RiskEntry.riskScore e
       /\ (RiskEntry.severity e = Medium \/ RiskEntry.severity e = High).
Proof.
  apply (C1_overdue_by_a_day_is_at_least_medium 0%nat
           [dueAnHourAgo; twoDaysLate] twoDaysLate 86400000 onDayThree).
  - reflexivity.
  - apply elem_of_cons. right. apply elem_of_cons. by left.
  - reflexivity.
  - intros k. simpl. lia.
Defined.

(** C2 as stated fails: detectRisks does not look at the status, and
    returns an entry for a completed task. *)
Lemma C2_completed_task_gets_an_entry :
  Task.status completedLastWeek = completed
  /\ (detectRisks 0%nat aWeekLater).1 = Ok 1%nat
  /\ heap (detectRisks 0%nat aWeekLater).2 !! 1%nat
     = Some (Risks [ {| RiskEntry.task := completedLastWeek;
                        RiskEntry.riskScore := 5;
                        RiskEntry.severity := Medium;
                        RiskEntry.reasons := 2%nat |} ]).
Proof. vm_compute. by split_and!. Qed.

(** C2, amended: for every input list of tasks, the list returned by
    detectRisks contains an entry only for tasks of the input, of any
    status, whose risk score is at least 4 (the caller selects the pending
    and in-progress tasks); the returned entries are sorted in descending
    order of riskScore, with ties keeping the input order. *)
Theorem C2_detectRisks_filters_and_sorts tasks ts s :
  heap s !! tasks = Some (Tasks ts) ->
  exists risks s' pushed rs,
    detectRisks tasks s = (Ok risks, s')
    /\ heap s' !! risks = Some (Risks rs)
    /\ map RiskEntry.task pushed `sublist_of` ts
    /\ (forall e, e ∈ rs ->
          RiskEntry.task e ∈ ts
          /\ 4 <= RiskEntry.riskScore e
          /\ exists k, RiskEntry.riskScore e = riskScoreAt (clock s k) (RiskEntry.task e))
    /\ rs ≡ₚ pushed
    /\ Descending RiskEntry.riskScore rs
    /\ forall v,
         List.filter (fun e => RiskEntry.riskScore e =? v) rs
         = List.filter (fun e => RiskEntry.riskScore e =? v) pushed.
Proof.
  intros Hts. destruct (detectRisks_run _ _ _ Hts) as [k' Hrun]. cbn zeta in Hrun.
  eexists _, _, (riskEntries (clock s) (reads s) (S (length (heap s))) ts), _.
  split; [exact Hrun|]. cbn [heap]. split; [apply lookup_middle|]. split_and!.
  - apply riskEntries_sublist.
  - intros e He. rewrite sort_elem in He.
    apply riskEntries_elem in He as (? & ? & _ & ?). done.
  - apply sort_perm.
  - apply sort_descending.
  - intros v. apply (sort_stable RiskEntry.riskScore).
Qed.

Lemma C2_witness :
  exists risks s' pushed rs,
    detectRisks 0%nat mixedTasks = (Ok risks, s')
    /\ heap s' !! risks = Some (Risks rs)
    /\ map RiskEntry.task pushed `sublist_of` [dueAnHourAgo; twoDaysLate; completedLastWeek]
    /\ (forall e, e ∈ rs ->
          RiskEntry.task e ∈ [dueAnHourAgo; twoDaysLate; completedLastWeek]
          /\ 4 <= RiskEntry.riskScore e
          /\ exists k, RiskEntry.riskScore e
                       = riskScoreAt (clock mixedTasks k) (RiskEntry.task e))
    /\ rs ≡ₚ pushed
    /\ Descending RiskEntry.riskScore rs
    /\ forall v,
         List.filter (fun e => RiskEntry.riskScore e =? v) rs
         = List.filter (fun e => RiskEntry.riskScore e =? v) pushed.
Proof.
  apply (C2_detectRisks_filters_and_sorts 0%nat
           [dueAnHourAgo; twoDaysLate; completedLastWeek] mixedTasks).
  reflexivity.
Defined.

(** ** The completion predictor: classification and the zero-length interval *)

(** C7: for every item, the status predictCompletion returns is one of
    overdue, ahead_of_schedule, on_track, at_risk and behind_schedule, its
    confidence is the value that goes with it (100, 90, 80, 70, 85), and
    the classification is the first match of the five conditions in their
    order: daysRemaining < 0, then progressDelta ≥ 10, then ≥ −10, then
    ≥ −25, else behind_schedule.  The progress delta is the number the
    code compares, computed in binary64. *)
Theorem C7_prediction_is_first_match item s :
  let daysRemaining := daysRemainingAt (now s) item in
  let progressDelta := progressDeltaAt (now s) item in
  exists p,
    predictCompletion item s = (Ok p, advance 1 s)
    /\ (Prediction.status p, Prediction.confidence p, Prediction.recommendation p)
       = classify daysRemaining progressDelta
    /\ Prediction.status p
       ∈ [overdue; ahead_of_schedule; on_track; at_risk; behind_schedule]
    /\ Prediction.confidence p = confidenceOf (Prediction.status p)
    /\ Prediction.confidence p ∈ [100; 90; 80; 70; 85]
    /\ (ltb daysRemaining (of_Z 0) = true -> Prediction.status p = overdue)
    /\ (ltb daysRemaining (of_Z 0) = false ->
        (geb progressDelta (of_Z 10) = true ->
         Prediction.status p = ahead_of_schedule)
        /\ (geb progressDelta (of_Z 10) = false ->
            (geb progressDelta (of_Z (-10)) = true -> Prediction.status p = on_track)
            /\ (geb progressDelta (of_Z (-10)) = false ->
                (geb progressDelta (of_Z (-25)) = true ->
                 Prediction.status p = at_risk)
                /\ (geb progressDelta (of_Z (-25)) = false ->
                    Prediction.status p = behind_schedule)))).
Proof.
  intros dr pd. exists (predictionAt (now s) item).
  split; [apply predictCompletion_run|].
  unfold predictionAt. fold dr pd.
  unfold classify, classificationRules, firstMatch.
  destruct (ltb dr (of_Z 0)), (geb pd (of_Z 10)), (geb pd (of_Z (-10))),
    (geb pd (of_Z (-25))); cbn [Prediction.status Prediction.confidence
                                  Prediction.recommendation confidenceOf];
    repeat split; intros; try done; by repeat constructor.
Qed.

(** C4 as stated fails: with created_at equal to due_date the expected
    progress is Infinity and the progress delta is -Infinity. *)
Lemma C4_zero_length_gives_infinity :
  Item.created_at zeroLength = Item.due_date zeroLength
  /\ (predictCompletion zeroLength threeDaysOn).1
     = Ok {| Prediction.status := overdue;
             Prediction.confidence := 100;
             Prediction.recommendation := "Immediate action required";
             Prediction.metrics :=
               {| Metrics.expectedProgress := PInf;
                  Metrics.actualProgress := of_Z 40;
                  Metrics.progressDelta := NInf;
                  Metrics.daysRemaining := of_Z (-3) |} |}.
Proof. vm_compute. by split. Qed.

(** C4, amended: for every item with created_at equal to due_date
    (totalDays = 0), predictCompletion returns a result whose status,
    confidence and recommendation are those of one of the five
    classifications and whose actualProgress and daysRemaining are finite,
    but whose expectedProgress and progressDelta are NaN, Infinity or
    -Infinity: the division by totalDays is not guarded. *)
Theorem C4_zero_length_interval item d s :
  Item.created_at item = Some d ->
  Item.due_date item = Some d ->
  exists p,
    predictCompletion item s = (Ok p, advance 1 s)
    /\ totalDaysOf item = of_Z 0
    /\ (Prediction.status p, Prediction.confidence p, Prediction.recommendation p)
       = classify (daysRemainingAt (now s) item) (progressDeltaAt (now s) item)
    /\ nonfinite (Metrics.expectedProgress (Prediction.metrics p))
    /\ nonfinite (Metrics.progressDelta (Prediction.metrics p))
    /\ is_finite (Metrics.actualProgress (Prediction.metrics p)) = true
    /\ is_finite (Metrics.daysRemaining (Prediction.metrics p)) = true.
Proof.
  intros Hc Hd. exists (predictionAt (now s) item).
  split; [apply predictCompletion_run|].
  assert (totalDaysOf item = of_Z 0) as Htotal.
  { unfold totalDaysOf. rewrite Hc, Hd. apply totalDays_zero. }
  assert (nonfinite (expectedProgressAt (now s) item)) as Hexp.
  { unfold expectedProgressAt. rewrite Htotal.
    apply fmul_nonfinite; [done|]. apply fdiv_by_zero_nonfinite.
    unfold daysElapsedAt. rewrite Hc. apply ceilDays_not_nan. }
  assert (nonfinite (progressDeltaAt (now s) item)) as Hdelta.
  { unfold progressDeltaAt. apply fsub_nonfinite; [|done].
    apply progressOrZero_finite. }
  unfold predictionAt.
  destruct (classify _ _) as [[st cf] rc]. cbn.
  split_and!; [done..| | | |].
  - by apply round_nonfinite.
  - by apply round_nonfinite.
  - apply round_finite, progressOrZero_finite.
  - unfold daysRemainingAt. rewrite Hd. apply ceilDays_finite.
Qed.

Lemma C4_witness :
  exists p,
    predictCompletion zeroLength threeDaysOn = (Ok p, advance 1 threeDaysOn)
    /\ totalDaysOf zeroLength = of_Z 0
    /\ (Prediction.status p, Prediction.confidence p, Prediction.recommendation p)
       = classify (daysRemainingAt (now threeDaysOn) zeroLength)
           (progressDeltaAt (now threeDaysOn) zeroLength)
    /\ nonfinite (Metrics.expectedProgress (Prediction.metrics p))
    /\ nonfinite (Metrics.progressDelta (Prediction.metrics p))
    /\ is_finite (Metrics.actualProgress (Prediction.metrics p)) = true
    /\ is_finite (Metrics.daysRemaining (Prediction.metrics p)) = true.
Proof.
  apply (C4_zero_length_interval zeroLength 0 threeDaysOn); reflexivity.
Defined.

(** ** The assignee recommender: the best candidate *)

Lemma candidatesFrom_formula ck k taskData ts ms c :
  c ∈ candidatesFrom ck k taskData ts ms -> scoredByFormula ck taskData ts c.
Proof.
  revert k. induction ms as [|m ms IH]; intros k; cbn [candidatesFrom].
  - by intros ?%elem_of_nil.
  - intros [->|Hc]%elem_of_cons; [|by eapply IH].
    exists k, (countAt isUpcomingAt ck (length (memberTasksOf m ts) + k)
                 (memberTasksOf m ts)).
    cbn [candidateAt Candidate.activeTasks Candidate.overdueCount
           Candidate.member Candidate.score].
    pose proof (filterAt_length_le isOverdueAt ck k (memberTasksOf m ts)).
    pose proof (filterAt_length_le isUpcomingAt ck
                  (length (memberTasksOf m ts) + k) (memberTasksOf m ts)).
    unfold countAt. split_and!; try done; lia.
Qed.

(** C8: for every non-empty member list, suggestAssignee returns a
    suggestion whose score is not negative; each member's score is
    100 − 15·activeTasks − 25·overdueCount + 20·matchingSkills
    − 10·upcomingDeadlines clamped below at 0; the returned candidate's
    score is greater than or equal to every other candidate's, and among
    candidates of the same score the first in member order is returned. *)
Theorem C8_suggestAssignee_returns_the_best taskData teamMembers existingTasks ms ts s :
  heap s !! teamMembers = Some (Members ms) ->
  heap s !! existingTasks = Some (Tasks ts) ->
  ms <> [] ->
  exists best s' candidates,
    suggestAssignee taskData teamMembers existingTasks s = (Ok (Some best), s')
    /\ map Candidate.member candidates = ms
    /\ (forall c, c ∈ candidates ->
          scoredByFormula (clock s) taskData ts c /\ 0 <= Candidate.score c)
    /\ 0 <= Candidate.score best
    /\ (forall c, c ∈ candidates -> Candidate.score c <= Candidate.score best)
    /\ FirstMax Candidate.score best candidates.
Proof.
  intros Hms Hts Hne.
  destruct (suggestAssignee_run taskData _ _ _ _ _ Hms Hts) as [s' Hrun].
  set (cs := candidatesFrom (clock s) (reads s) taskData ts ms) in *.
  assert (forall c, c ∈ cs -> scoredByFormula (clock s) taskData ts c
                              /\ 0 <= Candidate.score c) as Hall.
  { intros c Hc. pose proof (candidatesFrom_formula _ _ _ _ _ _ Hc) as Hf.
    split; [done|]. destruct Hf as (k & u & _ & _ & _ & _ & _ & ->). lia. }
  destruct (sort (byKeyDesc Candidate.score) cs !! 0%nat) as [best|] eqn:Hbest.
  - pose proof (sort_head _ _ _ Hbest) as Hfirst.
    assert (best ∈ cs) as Hin.
    { destruct Hfirst as (pre & post & -> & _).
      apply elem_of_app. right. by left. }
    exists best, s', cs. split_and!; [done| |done| | |done].
    + apply candidatesFrom_members.
    + by apply Hall.
    + destruct Hfirst as (pre & post & Hcs & Hpre & Hpost).
      intros c Hc. rewrite Hcs in Hc.
      apply elem_of_app in Hc as [Hc|[->|Hc]%elem_of_cons].
      * specialize (Hpre _ Hc). lia.
      * lia.
      * by apply Hpost.
  - exfalso. apply lookup_ge_None in Hbest. rewrite sort_length in Hbest.
    assert (length cs = length ms) as Hlen.
    { by rewrite <- (candidatesFrom_members (clock s) (reads s) taskData ts ms),
        length_map. }
    rewrite Hlen in Hbest. destruct ms; [done|]. cbn [length] in Hbest. lia.
Qed.

Lemma C8_witness :
  exists best s' candidates,
    suggestAssignee newTask 0%nat 1%nat office = (Ok (Some best), s')
    /\ map Candidate.member candidates = [ann; bob]
    /\ (forall c, c ∈ candidates ->
          scoredByFormula (clock office) newTask annsTasks c
          /\ 0 <= Candidate.score c)
    /\ 0 <= Candidate.score best
    /\ (forall c, c ∈ candidates -> Candidate.score c <= Candidate.score best)
    /\ FirstMax Candidate.score best candidates.
Proof.
  apply (C8_suggestAssignee_returns_the_best newTask 0%nat 1%nat
           [ann; bob] annsTasks office); [reflexivity|reflexivity|discriminate].
Defined.

Example suggestAssignee_office :
  (suggestAssignee newTask 0%nat 1%nat office).1
  = Ok (Some {| Candidate.member := bob; Candidate.score := 120;
                Candidate.activeTasks := 0; Candidate.overdueCount := 0;
                Candidate.reasoning := "Bob - Best fit: no active tasks" |}).
Proof. vm_compute. reflexivity. Qed.

(** ** The workload balancer: the threshold *)

Lemma maximum_le l b : l <> [] -> (forall x, x ∈ l -> x <= b) -> maximum l <= b.
Proof.
  induction l as [|x l IH]; [done|]. intros _ Hub.
  assert (x <= b) by (apply Hub; by left).
  destruct l as [|y l]; [done|].
  change (Z.max x (maximum (y :: l)) <= b).
  apply Z.max_lub; [done|]. apply IH; [done|].
  intros z Hz. apply Hub. by right.
Qed.

Lemma maximum_unique l m : m ∈ l -> (forall x, x ∈ l -> x <= m) -> maximum l = m.
Proof.
  induction l as [|x l IH]; [by intros ?%elem_of_nil|]. intros Hm Hub.
  assert (x <= m) by (apply Hub; by left).
  destruct l as [|y l].
  { by apply list_elem_of_singleton in Hm. }
  change (Z.max x (maximum (y :: l)) = m).
  apply elem_of_cons in Hm as [->|Hm].
  - apply Z.max_l. apply maximum_le; [done|]. intros z Hz. apply Hub. by right.
  - rewrite IH; [lia|done|]. intros z Hz. apply Hub. by right.
Qed.

Lemma minimum_ge l b : l <> [] -> (forall x, x ∈ l -> b <= x) -> b <= minimum l.
Proof.
  induction l as [|x l IH]; [done|]. intros _ Hlb.
  assert (b <= x) by (apply Hlb; by left).
  destruct l as [|y l]; [done|].
  change (b <= Z.min x (minimum (y :: l))).
  apply Z.min_glb; [done|]. apply IH; [done|].
  intros z Hz. apply Hlb. by right.
Qed.

Lemma minimum_unique l m : m ∈ l -> (forall x, x ∈ l -> m <= x) -> minimum l = m.
Proof.
  induction l as [|x l IH]; [by intros ?%elem_of_nil|]. intros Hm Hlb.
  assert (m <= x) by (apply Hlb; by left).
  destruct l as [|y l].
  { by apply list_elem_of_singleton in Hm. }
  change (Z.min x (minimum (y :: l)) = m).
  apply elem_of_cons in Hm as [->|Hm].
  - apply Z.min_l. apply minimum_ge; [done|]. intros z Hz. apply Hlb. by right.
  - rewrite IH; [lia|done|]. intros z Hz. apply Hlb. by right.
Qed.

Lemma FirstMax_maximum {A} (key : A -> Z) h a :
  FirstMax key h a -> h ∈ a /\ key h = maximum (map key a).
Proof.
  intros (pre & post & -> & Hpre & Hpost). split.
  { apply elem_of_app. right. by left. }
  symmetry. apply maximum_unique.
  - apply list_elem_of_fmap. exists h. split; [done|]. apply elem_of_app. right. by left.
  - intros x (y & -> & Hy)%list_elem_of_fmap.
    apply elem_of_app in Hy as [Hy|[->|Hy]%elem_of_cons].
    + specialize (Hpre _ Hy). lia.
    + lia.
    + by apply Hpost.
Qed.

Lemma LastMin_minimum {A} (key : A -> Z) u a :
  LastMin key u a -> u ∈ a /\ key u = minimum (map key a).
Proof.
  intros (pre & post & -> & Hpre & Hpost). split.
  { apply elem_of_app. right. by left. }
  symmetry. apply minimum_unique.
  - apply list_elem_of_fmap. exists u. split; [done|]. apply elem_of_app. right. by left.
  - intros x (y & -> & Hy)%list_elem_of_fmap.
    apply elem_of_app in Hy as [Hy|[->|Hy]%elem_of_cons].
    + by apply Hpre.
    + lia.
    + specialize (Hpost _ Hy). lia.
Qed.

Lemma workloadsFrom_counts l ts ms :
  map Workload.taskCount (workloadsFrom l ts ms) = map (activeTaskCount ts) ms.
Proof.
  revert l. induction ms as [|m ms IH]; intros l; [done|].
  cbn [workloadsFrom map]. by rewrite IH.
Qed.

(** With a member there is a first and a last workload entry. *)
Lemma sorted_workload_ends l ts ms :
  ms <> [] ->
  exists hi lo,
    sort (byKeyDesc Workload.taskCount) (workloadsFrom l ts ms) !! 0%nat = Some hi
    /\ last (sort (byKeyDesc Workload.taskCount) (workloadsFrom l ts ms)) = Some lo.
Proof.
  intros Hne. set (w := sort _ _).
  assert (length w = length ms) as Hlen.
  { unfold w. rewrite sort_length.
    by rewrite <- (workloadsFrom_members l ts ms) at 2; rewrite length_map. }
  destruct (w !! 0%nat) as [hi|] eqn:Hhi; cycle 1.
  { apply lookup_ge_None in Hhi. rewrite Hlen in Hhi.
    destruct ms; [done|]. cbn [length] in Hhi. lia. }
  destruct (last w) as [lo|] eqn:Hlo; [by eauto|].
  apply last_None in Hlo. by rewrite Hlo in Hhi.
Qed.

(** C9: for every member list and task list where the difference between
    the largest and the smallest per-member count of active tasks is at
    least 3, suggestWorkloadBalancing returns needsBalancing = true with the
    member of the largest count as overloaded and the member of the
    smallest count as underutilized; when the difference is less than 3 it
    returns needsBalancing = false with the message "Workload is balanced
    across team". *)
Theorem C9_balancing_threshold teamMembers tasks ms ts s :
  heap s !! teamMembers = Some (Members ms) ->
  heap s !! tasks = Some (Tasks ts) ->
  ms <> [] ->
  let counts := map (activeTaskCount ts) ms in
  exists b s' workload,
    suggestWorkloadBalancing teamMembers tasks s = (Ok b, s')
    /\ map Workload.member workload = ms
    /\ map Workload.taskCount workload = counts
    /\ (3 <= maximum counts - minimum counts ->
        Balancing.needsBalancing b = true
        /\ exists hi lo,
             Balancing.overloaded b = Some hi
             /\ Balancing.underutilized b = Some lo
             /\ Workload.taskCount hi = maximum counts
             /\ Workload.taskCount lo = minimum counts
             /\ FirstMax Workload.taskCount hi workload
             /\ LastMin Workload.taskCount lo workload
             /\ Balancing.suggestion b
                = Some (reassignText (Member.name (Workload.member hi)) (maximum counts)
                          (Member.name (Workload.member lo)) (minimum counts)))
    /\ (maximum counts - minimum counts < 3 ->
        Balancing.needsBalancing b = false
        /\ Balancing.message b = Some "Workload is balanced across team"
        /\ Balancing.overloaded b = None
        /\ Balancing.underutilized b = None).
Proof.
  intros Hms Hts Hne counts.
  destruct (suggestWorkloadBalancing_run _ _ _ ts _ Hms (fun _ => Hts)) as [s' Hrun].
  set (ws := workloadsFrom (length (heap s)) ts ms) in *.
  set (w := sort (byKeyDesc Workload.taskCount) ws) in *.
  assert (map Workload.taskCount ws = counts) as Hcounts
    by apply workloadsFrom_counts.
  destruct (sorted_workload_ends (length (heap s)) ts ms Hne) as (hi & lo & Hhi & Hlo).
  fold ws in Hhi, Hlo. fold w in Hhi, Hlo.
  pose proof (sort_head _ _ _ Hhi) as Hfirst.
  pose proof (sort_last _ _ _ Hlo) as Hlast.
  destruct (FirstMax_maximum _ _ _ Hfirst) as [_ Hmax].
  destruct (LastMin_minimum _ _ _ Hlast) as [_ Hmin].
  rewrite Hcounts in Hmax, Hmin.
  unfold balancingOf in Hrun. rewrite Hhi, Hlo in Hrun. cbn zeta in Hrun.
  rewrite Hmax, Hmin in Hrun.
  destruct (Z.leb_spec 3 (maximum counts - minimum counts)) as [Hge|Hlt].
  - eexists _, s', ws. split; [exact Hrun|]. split_and!.
    + apply workloadsFrom_members.
    + done.
    + intros _. split; [done|]. exists hi, lo. by split_and!.
    + lia.
  - eexists _, s', ws. split; [exact Hrun|]. split_and!.
    + apply workloadsFrom_members.
    + done.
    + lia.
    + intros _. by split_and!.
Qed.

Lemma C9_witness :
  exists b s' workload,
    suggestWorkloadBalancing 0%nat 1%nat team = (Ok b, s')
    /\ map Workload.member workload = [ann; bob; cat; dan]
    /\ map Workload.taskCount workload = [5; 4; 4; 2]
    /\ (3 <= 5 - 2 ->
        Balancing.needsBalancing b = true
        /\ exists hi lo,
             Balancing.overloaded b = Some hi
             /\ Balancing.underutilized b = Some lo
             /\ Workload.taskCount hi = 5
             /\ Workload.taskCount lo = 2
             /\ FirstMax Workload.taskCount hi workload
             /\ LastMin Workload.taskCount lo workload
             /\ Balancing.suggestion b
                = Some (reassignText (Member.name (Workload.member hi)) 5
                          (Member.name (Workload.member lo)) 2))
    /\ (5 - 2 < 3 ->
        Balancing.needsBalancing b = false
        /\ Balancing.message b = Some "Workload is balanced across team"
        /\ Balancing.overloaded b = None
        /\ Balancing.underutilized b = None).
Proof.
  apply (C9_balancing_threshold 0%nat 1%nat [ann; bob; cat; dan] teamTasks team);
    [reflexivity|reflexivity|discriminate].
Defined.

Example suggestWorkloadBalancing_team :
  (suggestWorkloadBalancing 0%nat 1%nat team).1
  = Ok {| Balancing.needsBalancing := true;
          Balancing.overloaded :=
            Some {| Workload.member := ann; Workload.taskCount := 5;
                    Workload.tasks := 2%nat |};
          Balancing.underutilized :=
            Some {| Workload.member := dan; Workload.taskCount := 2;
                    Workload.tasks := 5%nat |};
          Balancing.suggestion :=
            Some "Consider reassigning tasks from Ann (5 tasks) to Dan (2 tasks)";
          Balancing.message := None |}.
Proof. vm_compute. reflexivity. Qed.

(** ** The empty team *)

(** C5 as stated fails: with no member, reading [workload[0].taskCount]
    throws a TypeError. *)
Lemma C5_empty_team_throws :
  heap emptyTeam !! 0%nat = Some (Members [])
  /\ (suggestWorkloadBalancing 0%nat 1%nat emptyTeam).1 = Throw TypeError.
Proof. vm_compute. by split. Qed.

(** C5, amended: for an empty team member list, suggestWorkloadBalancing
    throws a TypeError, whatever the tasks are: it reads the first element
    of the empty sorted workload array without a guard.  For a list that is
    not empty it returns a result. *)
Theorem C5_empty_member_list_is_a_TypeError teamMembers tasks ms s :
  heap s !! teamMembers = Some (Members ms) ->
  (ms = [] ->
   (suggestWorkloadBalancing teamMembers tasks s).1 = Throw TypeError)
  /\ (ms <> [] ->
      forall ts, heap s !! tasks = Some (Tasks ts) ->
      exists b, (suggestWorkloadBalancing teamMembers tasks s).1 = Ok b).
Proof.
  intros Hms. split.
  - intros ->.
    destruct (suggestWorkloadBalancing_run _ tasks _ [] _ Hms) as [s' Hrun]; [done|].
    by rewrite Hrun.
  - intros Hne ts Hts.
    destruct (suggestWorkloadBalancing_run _ _ _ ts _ Hms (fun _ => Hts)) as [s' Hrun].
    destruct (sorted_workload_ends (length (heap s)) ts ms Hne) as (hi & lo & Hhi & Hlo).
    rewrite Hrun. unfold balancingOf. rewrite Hhi, Hlo. cbn zeta.
    destruct (3 <=? _); eauto.
Qed.

Lemma C5_witness :
  (@nil Member.t = [] ->
   (suggestWorkloadBalancing 0%nat 1%nat emptyTeam).1 = Throw TypeError)
  /\ (@nil Member.t <> [] ->
      forall ts, heap emptyTeam !! 1%nat = Some (Tasks ts) ->
      exists b, (suggestWorkloadBalancing 0%nat 1%nat emptyTeam).1 = Ok b).
Proof.
  apply (C5_empty_member_list_is_a_TypeError 0%nat 1%nat [] emptyTeam).
  reflexivity.
Defined.

(** ** The clock *)

(** C3 as stated fails: the functions take no [now]; two calls of
    calculateRiskScore with the same task, in states with the same store,
    give different scores when the clock differs. *)
Lemma C3_same_arguments_different_scores :
  heap onDayThree = heap onDayZero
  /\ (calculateRiskScore twoDaysLate onDayThree).1 = Ok 10
  /\ (calculateRiskScore twoDaysLate onDayZero).1 = Ok 6.
Proof. vm_compute. by split_and!. Qed.

(** C3, amended: the engine functions take no [now] parameter;
    calculateRiskScore, detectRisks, predictCompletion and suggestAssignee
    read the ambient clock, and two calls with identical arguments return
    identical results when the clock gives them the same times.
    suggestWorkloadBalancing does not read the clock: two calls with
    identical arguments return identical results whatever the clock. *)
Theorem C3_results_follow_the_clock_readings s1 s2 :
  sameReadings s1 s2 ->
  (forall task, (calculateRiskScore task s1).1 = (calculateRiskScore task s2).1)
  /\ (forall tasks,
        (detectRisks tasks s1).1 = (detectRisks tasks s2).1
        /\ heap (detectRisks tasks s1).2 = heap (detectRisks tasks s2).2)
  /\ (forall item, (predictCompletion item s1).1 = (predictCompletion item s2).1)
  /\ (forall taskData teamMembers existingTasks,
        (suggestAssignee taskData teamMembers existingTasks s1).1
        = (suggestAssignee taskData teamMembers existingTasks s2).1)
  /\ (forall teamMembers tasks s3,
        heap s3 = heap s1 ->
        (suggestWorkloadBalancing teamMembers tasks s3).1
        = (suggestWorkloadBalancing teamMembers tasks s1).1).
Proof.
  intros Hsame. split_and!.
  - intros task. by apply respects_calculateRiskScore.
  - intros tasks. destruct (respects_detectRisks tasks _ _ Hsame) as [? [? _]]. done.
  - intros item. by apply respects_predictCompletion.
  - intros ? ? ?. by apply respects_suggestAssignee.
  - intros teamMembers tasks s3 Hheap.
    by apply respects_suggestWorkloadBalancing.
Qed.

Lemma C3_witness :
  (forall task,
     (calculateRiskScore task afterTwoReads).1 = (calculateRiskScore task shiftedClock).1)
  /\ (forall tasks,
        (detectRisks tasks afterTwoReads).1 = (detectRisks tasks shiftedClock).1
        /\ heap (detectRisks tasks afterTwoReads).2
           = heap (detectRisks tasks shiftedClock).2)
  /\ (forall item,
        (predictCompletion item afterTwoReads).1 = (predictCompletion item shiftedClock).1)
  /\ (forall taskData teamMembers existingTasks,
        (suggestAssignee taskData teamMembers existingTasks afterTwoReads).1
        = (suggestAssignee taskData teamMembers existingTasks shiftedClock).1)
  /\ (forall teamMembers tasks s3,
        heap s3 = heap afterTwoReads ->
        (suggestWorkloadBalancing teamMembers tasks s3).1
        = (suggestWorkloadBalancing teamMembers tasks afterTwoReads).1).
Proof.
  apply (C3_results_follow_the_clock_readings afterTwoReads shiftedClock).
  split; [reflexivity|]. intros i. simpl. lia.
Defined.

(** ** The arguments *)

(** C10: every call of an engine function leaves the arrays it is given,
    and every other array that exists when it is called, as they are: the
    store before the call is a prefix of the store after it.  (The records
    in the arrays are values: no statement of the engine assigns to a
    property.) *)
Theorem C10_arguments_are_not_mutated s :
  (forall taskData teamMembers existingTasks,
     heap s `prefix_of` heap (suggestAssignee taskData teamMembers existingTasks s).2)
  /\ (forall item, heap s `prefix_of` heap (predictCompletion item s).2)
  /\ (forall task, heap s `prefix_of` heap (calculateRiskScore task s).2)
  /\ (forall tasks, heap s `prefix_of` heap (detectRisks tasks s).2)
  /\ (forall teamMembers tasks,
        heap s `prefix_of` heap (suggestWorkloadBalancing teamMembers tasks s).2).
Proof.
  split_and!; intros; apply keeps_prefix.
  - apply keeps_suggestAssignee.
  - apply keeps_predictCompletion.
  - apply keeps_calculateRiskScore.
  - apply keeps_detectRisks.
  - apply keeps_suggestWorkloadBalancing.
Qed.

(** * More of the code

    Properties of the engine beyond the statements of the specification,
    of the placeholder conversion of the database helpers and of the
    routes that call the engine. *)

(** ** Day counts against whole numbers *)

Lemma ceil_le_iff a k : - (- a / 86400000) <= k <-> a <= k * 86400000.
Proof.
  split; intros H.
  - assert (- k <= - a / 86400000) as H' by lia.
    pose proof (Z.mul_div_le (- a) 86400000 ltac:(lia)).
    nia.
  - assert (- k <= - a / 86400000); [|lia].
    apply Z.div_le_lower_bound; lia.
Qed.

Lemma ceilDays_leb d n k :
  leb (ceilDays (of_Z d) (of_Z n)) (of_Z k) = (d - n <=? k * 86400000).
Proof.
  rewrite ceilDays_of_Z.
  assert (leb (if (- ((n - d) / 86400000) =? 0) && (d <? n) then NZero
               else of_Z (- ((n - d) / 86400000))) (of_Z k)
          = (- ((n - d) / 86400000) <=? k)) as ->.
  { destruct (Z.eqb_spec (- ((n - d) / 86400000)) 0) as [->|_]; cbn [andb].
    - destruct (d <? n); apply (leb_of_Z 0 k).
    - apply leb_of_Z. }
  apply eq_iff_eq_true. rewrite !Z.leb_le.
  replace (n - d) with (- (d - n)) by lia. apply ceil_le_iff.
Qed.

Lemma ceilDays_ltb d n k :
  ltb (ceilDays (of_Z d) (of_Z n)) (of_Z k) = (d - n <=? (k - 1) * 86400000).
Proof.
  rewrite ceilDays_of_Z.
  assert (ltb (if (- ((n - d) / 86400000) =? 0) && (d <? n) then NZero
               else of_Z (- ((n - d) / 86400000))) (of_Z k)
          = (- ((n - d) / 86400000) <? k)) as ->.
  { destruct (Z.eqb_spec (- ((n - d) / 86400000)) 0) as [->|_]; cbn [andb].
    - destruct (d <? n); apply (ltb_of_Z 0 k).
    - apply ltb_of_Z. }
  apply eq_iff_eq_true. rewrite Z.ltb_lt, Z.leb_le.
  replace (n - d) with (- (d - n)) by lia.
  rewrite <- ceil_le_iff. lia.
Qed.

Lemma ceilDays_NaN_l x : ceilDays NaN x = NaN.
Proof. by destruct x. Qed.

(** A task is overdue for the recommender when its due date is before
    now, and an upcoming deadline when it is due within three days. *)
Lemma isOverdueAt_valid now t d :
  Task.due_date t = Some d -> isOverdueAt now t = (d <? now).
Proof. intros Hd. unfold isOverdueAt. rewrite Hd. apply ltb_of_Z. Qed.

Lemma isUpcomingAt_valid now t d :
  Task.due_date t = Some d -> isUpcomingAt now t = (d - now <=? 259200000).
Proof. intros Hd. unfold isUpcomingAt. rewrite Hd. apply (ceilDays_leb d now 3). Qed.

Lemma isOverdueAt_invalid now t : Task.due_date t = None -> isOverdueAt now t = false.
Proof. intros Hd. unfold isOverdueAt. by rewrite Hd. Qed.

Lemma isUpcomingAt_invalid now t : Task.due_date t = None -> isUpcomingAt now t = false.
Proof. intros Hd. unfold isUpcomingAt. rewrite Hd. cbn [timeValue]. by rewrite ceilDays_NaN_l. Qed.

Lemma overdue_then_upcoming now now' t :
  now <= now' -> isOverdueAt now t = true -> isUpcomingAt now' t = true.
Proof.
  intros Hle. destruct (Task.due_date t) as [d|] eqn:Hd.
  - rewrite (isOverdueAt_valid _ _ _ Hd), (isUpcomingAt_valid _ _ _ Hd).
    rewrite Z.ltb_lt, Z.leb_le. lia.
  - by rewrite (isOverdueAt_invalid _ _ Hd).
Qed.

Lemma filterAt_length_mono {A} (p q : Z -> A -> bool) ck k k' (a : list A) :
  (forall i x, p (ck (i + k)%nat) x = true -> q (ck (i + k')%nat) x = true) ->
  (length (filterAt p ck k a) <= length (filterAt q ck k' a))%nat.
Proof.
  revert k k'. induction a as [|x a IH]; intros k k' Himp; [done|].
  cbn [filterAt].
  assert (length (filterAt p ck (S k) a) <= length (filterAt q ck (S k') a))%nat.
  { apply IH. intros i y. rewrite <- !Nat.add_succ_comm. apply (Himp (S i)). }
  pose proof (Himp 0%nat x) as H0. cbn [Nat.add] in H0.
  pose proof (filterAt_length_le q ck (S k') a).
  destruct (p (ck k) x) eqn:Hp; destruct (q (ck k') x) eqn:Hq; cbn [length]; try lia.
Qed.

Lemma overdue_le_upcoming ck k (mts : list Task.t) :
  nondecreasing ck ->
  countAt isOverdueAt ck k mts <= countAt isUpcomingAt ck (length mts + k) mts.
Proof.
  intros Hmono. unfold countAt. apply inj_le, filterAt_length_mono.
  intros i x. apply overdue_then_upcoming, Hmono. lia.
Qed.

(** ** More about the assignee recommender *)

Lemma fitTier_clamped score : fitTier (Z.max 0 score) = fitTier score.
Proof.
  unfold fitTier.
  destruct (Z.leb_spec 80 (Z.max 0 score)), (Z.leb_spec 80 score); try lia; [done|].
  destruct (Z.leb_spec 50 (Z.max 0 score)), (Z.leb_spec 50 score); try lia; done.
Qed.

Lemma candidatesFrom_elem ck k taskData ts ms c :
  c ∈ candidatesFrom ck k taskData ts ms ->
  exists j m, m ∈ ms /\ c = candidateAt ck j taskData ts m.
Proof.
  revert k. induction ms as [|m ms IH]; intros k; cbn [candidatesFrom].
  - by intros ?%elem_of_nil.
  - intros [->|Hc]%elem_of_cons.
    + exists k, m. split; [by left|done].
    + destruct (IH _ Hc) as (j & m' & ? & ?). exists j, m'. split; [by right|done].
Qed.

(** What [suggestAssignee] returns for a list of members that is not
    empty: the head of the sorted candidates. *)
Lemma suggestAssignee_best taskData teamMembers existingTasks ms ts s :
  heap s !! teamMembers = Some (Members ms) ->
  heap s !! existingTasks = Some (Tasks ts) ->
  ms <> [] ->
  exists best s' j m,
    suggestAssignee taskData teamMembers existingTasks s = (Ok (Some best), s')
    /\ m ∈ ms
    /\ best = candidateAt (clock s) j taskData ts m.
Proof.
  intros Hms Hts Hne.
  destruct (suggestAssignee_run taskData _ _ _ _ _ Hms Hts) as [s' Hrun].
  set (cs := candidatesFrom (clock s) (reads s) taskData ts ms) in *.
  destruct (sort (byKeyDesc Candidate.score) cs !! 0%nat) as [best|] eqn:Hbest.
  - assert (best ∈ cs) as Hin.
    { rewrite <- (sort_elem Candidate.score). by eapply list_elem_of_lookup_2. }
    destruct (candidatesFrom_elem _ _ _ _ _ _ Hin) as (j & m & Hm & ->).
    by eexists _, s', j, m.
  - exfalso. apply lookup_ge_None in Hbest. rewrite sort_length in Hbest.
    assert (length cs = length ms) as Hlen.
    { by rewrite <- (candidatesFrom_members (clock s) (reads s) taskData ts ms),
        length_map. }
    rewrite Hlen in Hbest. destruct ms; [done|]. cbn [length] in Hbest. lia.
Qed.

(** X1: the reasoning of the suggestion names the tier of the score
    that is returned ("Best fit" from 80, "Good fit" from 50, "Available
    but busy" below), although [generateReasoning] is given the score
    before [Math.max(0, score)]: clamping at 0 does not change the tier. *)
Theorem X1_suggestAssignee_reasoning_matches_score
  taskData teamMembers existingTasks ms ts s :
  heap s !! teamMembers = Some (Members ms) ->
  heap s !! existingTasks = Some (Tasks ts) ->
  ms <> [] ->
  exists best s',
    suggestAssignee taskData teamMembers existingTasks s = (Ok (Some best), s')
    /\ Candidate.reasoning best
       = Member.name (Candidate.member best) +:+ " - "
         +:+ fitTier (Candidate.score best) +:+ ": "
         +:+ join ", " (reasoningClauses (Candidate.activeTasks best)
                          (Candidate.overdueCount best)).
Proof.
  intros Hms Hts Hne.
  destruct (suggestAssignee_best taskData _ _ _ _ _ Hms Hts Hne)
    as (best & s' & j & m & Hrun & _ & ->).
  eexists; exists s'. split; [exact Hrun|].
  cbn [candidateAt Candidate.reasoning Candidate.score Candidate.member
         Candidate.activeTasks Candidate.overdueCount].
  unfold reasoningText. by rewrite fitTier_clamped.
Qed.

Lemma X1_witness :
  exists best s',
    suggestAssignee newTask 0%nat 1%nat office = (Ok (Some best), s')
    /\ Candidate.reasoning best
       = Member.name (Candidate.member best) +:+ " - "
         +:+ fitTier (Candidate.score best) +:+ ": "
         +:+ join ", " (reasoningClauses (Candidate.activeTasks best)
                          (Candidate.overdueCount best)).
Proof.
  apply (X1_suggestAssignee_reasoning_matches_score newTask 0%nat 1%nat
           [ann; bob] annsTasks office); [reflexivity|reflexivity|discriminate].
Defined.

(** X2: with an empty list of members [suggestAssignee] returns
    [undefined] ([scores[0]] of an empty array) and does not throw; the
    array of tasks is not read. *)
Theorem X2_suggestAssignee_no_member taskData teamMembers existingTasks s :
  heap s !! teamMembers = Some (Members []) ->
  (suggestAssignee taskData teamMembers existingTasks s).1 = Ok None.
Proof.
  intros Hms. unfold suggestAssignee.
  erewrite bind_run; [|by apply loadMembers_run].
  cbn [mapM]. unfold ret at 1.
  erewrite bind_run; [|reflexivity].
  erewrite bind_run; [|apply alloc_run].
  unfold sortCandidates.
  erewrite bind_run; cycle 1.
  { erewrite bind_run; [|apply loadCandidates_run, lookup_middle]. reflexivity. }
  unfold store, extend. cbn [heap clock reads]. rewrite insert_middle.
  erewrite bind_run; [|apply loadCandidates_run, lookup_middle].
  reflexivity.
Qed.

Lemma X2_witness :
  (suggestAssignee newTask 0%nat 1%nat emptyTeam).1 = Ok None.
Proof. apply (X2_suggestAssignee_no_member newTask 0%nat 1%nat emptyTeam). reflexivity. Defined.

(** X3: when the clock does not go back, a task that is overdue when
    it is tested is an upcoming deadline when it is tested again, so each
    overdue task costs its member 50 points and each other active task 15
    to 25: the score of the suggestion is at least
    100 - 50 * activeTasks + 20 * matching skills and at most
    max(0, 100 - 15 * activeTasks - 35 * overdueCount + 20 * matching
    skills), and overdueCount is at most activeTasks. *)
Theorem X3_suggestAssignee_score_bounds taskData teamMembers existingTasks ms ts s :
  heap s !! teamMembers = Some (Members ms) ->
  heap s !! existingTasks = Some (Tasks ts) ->
  ms <> [] ->
  nondecreasing (clock s) ->
  exists best s',
    suggestAssignee taskData teamMembers existingTasks s = (Ok (Some best), s')
    /\ let skills := matchingSkills taskData (Candidate.member best) in
       let active := Candidate.activeTasks best in
       let overdue := Candidate.overdueCount best in
       100 - 50 * active + 20 * skills <= Candidate.score best
       /\ Candidate.score best
          <= Z.max 0 (100 - 15 * active - 35 * overdue + 20 * skills)
       /\ 0 <= overdue <= active.
Proof.
  intros Hms Hts Hne Hmono.
  destruct (suggestAssignee_best taskData _ _ _ _ _ Hms Hts Hne)
    as (best & s' & j & m & Hrun & _ & ->).
  eexists; exists s'. split; [exact Hrun|].
  cbn [candidateAt Candidate.score Candidate.member Candidate.activeTasks
         Candidate.overdueCount].
  unfold rawScoreAt.
  set (mts := memberTasksOf m ts).
  pose proof (overdue_le_upcoming (clock s) j mts Hmono) as Hou.
  pose proof (filterAt_length_le isOverdueAt (clock s) j mts) as Ho.
  pose proof (filterAt_length_le isUpcomingAt (clock s) (length mts + j) mts) as Hu.
  unfold countAt in *. cbn zeta. lia.
Qed.

Lemma X3_witness :
  exists best s',
    suggestAssignee newTask 0%nat 1%nat office = (Ok (Some best), s')
    /\ let skills := matchingSkills newTask (Candidate.member best) in
       let active := Candidate.activeTasks best in
       let overdue := Candidate.overdueCount best in
       100 - 50 * active + 20 * skills <= Candidate.score best
       /\ Candidate.score best
          <= Z.max 0 (100 - 15 * active - 35 * overdue + 20 * skills)
       /\ 0 <= overdue <= active.
Proof.
  apply (X3_suggestAssignee_score_bounds newTask 0%nat 1%nat [ann; bob] annsTasks office);
    [reflexivity|reflexivity|discriminate|].
  intros i j _. simpl. lia.
Defined.

(** X4: a suggested member without active tasks has the score 100
    plus 20 for each matching skill, whatever the clock says, no overdue
    task, and the reasoning "<name> - Best fit: no active tasks". *)
Theorem X4_suggestAssignee_idle_member taskData teamMembers existingTasks ms ts s :
  heap s !! teamMembers = Some (Members ms) ->
  heap s !! existingTasks = Some (Tasks ts) ->
  ms <> [] ->
  exists best s',
    suggestAssignee taskData teamMembers existingTasks s = (Ok (Some best), s')
    /\ (Candidate.activeTasks best = 0 ->
        Candidate.score best = 100 + 20 * matchingSkills taskData (Candidate.member best)
        /\ Candidate.overdueCount best = 0
        /\ Candidate.reasoning best
           = Member.name (Candidate.member best) +:+ " - Best fit: no active tasks").
Proof.
  intros Hms Hts Hne.
  destruct (suggestAssignee_best taskData _ _ _ _ _ Hms Hts Hne)
    as (best & s' & j & m & Hrun & _ & ->).
  eexists; exists s'. split; [exact Hrun|].
  cbn [candidateAt Candidate.score Candidate.member Candidate.activeTasks
         Candidate.overdueCount Candidate.reasoning].
  unfold rawScoreAt. intros Hidle.
  assert (memberTasksOf m ts = []) as ->.
  { apply length_zero_iff_nil. lia. }
  cbn [length filterAt countAt Nat.add].
  assert (0 <= matchingSkills taskData m).
  { unfold matchingSkills. destruct (Task.tags taskData), (Member.skills m); lia. }
  unfold countAt. cbn [filterAt length].
  split_and!; [lia|done|].
  unfold reasoningText, fitTier.
  replace (80 <=? _) with true by (symmetry; apply Z.leb_le; lia).
  reflexivity.
Qed.

Lemma X4_witness :
  exists best s',
    suggestAssignee newTask 0%nat 1%nat office = (Ok (Some best), s')
    /\ (Candidate.activeTasks best = 0 ->
        Candidate.score best = 100 + 20 * matchingSkills newTask (Candidate.member best)
        /\ Candidate.overdueCount best = 0
        /\ Candidate.reasoning best
           = Member.name (Candidate.member best) +:+ " - Best fit: no active tasks").
Proof.
  apply (X4_suggestAssignee_idle_member newTask 0%nat 1%nat [ann; bob] annsTasks office);
    [reflexivity|reflexivity|discriminate].
Defined.

(** ** More about the risk scorer *)

Lemma toString_of_Z z : toString (of_Z z) = pretty z.
Proof. unfold toString, of_Z. rewrite Qred_inject. reflexivity. Qed.

Lemma abs_of_Z z : abs (of_Z z) = of_Z (Z.abs z).
Proof. reflexivity. Qed.

Lemma daysUntilDueAt_invalid now task :
  Task.due_date task = None -> daysUntilDueAt now task = NaN.
Proof. intros H. unfold daysUntilDueAt. by rewrite H. Qed.

Lemma daysUntilDueAt_ltb now task d k :
  Task.due_date task = Some d ->
  ltb (daysUntilDueAt now task) (of_Z k) = (d - now <=? (k - 1) * 86400000).
Proof. intros H. unfold daysUntilDueAt. rewrite H. apply ceilDays_ltb. Qed.

Lemma daysUntilDueAt_leb now task d k :
  Task.due_date task = Some d ->
  leb (daysUntilDueAt now task) (of_Z k) = (d - now <=? k * 86400000).
Proof. intros H. unfold daysUntilDueAt. rewrite H. apply ceilDays_leb. Qed.

Lemma riskScoreAt_invalid now task :
  Task.due_date task = None ->
  riskScoreAt now task
  = (if bool_decide (Task.priority task = high)
        && ltb (toNumber (Task.progress task)) (of_Z 30) then 2 else 0)
    + (if hasDependencies task then 1 else 0).
Proof.
  intros H. unfold riskScoreAt, riskBonuses. rewrite (daysUntilDueAt_invalid _ _ H).
  change (ltb NaN (of_Z 0)) with false. change (leb NaN (of_Z 1)) with false.
  change (leb NaN (of_Z 3)) with false. change (gtb NaN (of_Z 0)) with false.
  cbn [andb sumZ foldr].
  assert (forall (o : option Q) (f : Q -> bool) (g : Q -> bool),
            match o with
            | Some hours => if f hours && false && g hours then 2 else 0
            | None => 0
            end = 0) as ->.
  { intros [h|] f g; [|done]. by rewrite andb_false_r. }
  destruct (_ && _), (hasDependencies task); reflexivity.
Qed.

(** The bonus for more estimated work than days left is for tasks that
    are due later than now. *)
Lemma riskBonuses_shape days task :
  exists soon prio deps hours,
    riskBonuses days task
    = [if ltb days (of_Z 0) then 5 else 0; soon; prio; deps; hours]
    /\ soon = (if leb days (of_Z 1) && ltb (toNumber (Task.progress task)) (of_Z 80)
               then 4
               else if leb days (of_Z 3) && ltb (toNumber (Task.progress task)) (of_Z 50)
                    then 3 else 0)
    /\ prio = (if bool_decide (Task.priority task = high)
                  && ltb (toNumber (Task.progress task)) (of_Z 30) then 2 else 0)
    /\ deps = (if hasDependencies task then 1 else 0)
    /\ (hours = 0 \/ hours = 2 /\ gtb days (of_Z 0) = true).
Proof.
  eexists _, _, _, _. split; [reflexivity|]. split_and!; try reflexivity.
  destruct (Task.estimated_hours task); [|by left].
  destruct (gtb days (of_Z 0)); [|rewrite andb_false_r; by left].
  destruct (_ && _ && _); [by right|by left].
Qed.

Lemma ltb_gtb_zero days : ltb days (of_Z 0) = true -> gtb days (of_Z 0) = false.
Proof.
  unfold gtb. destruct days as [ | | | |q]; try done.
  unfold ltb, of_Z, val. intros H%negb_true_iff. apply negb_false_iff.
  apply Qle_bool_iff, Qlt_le_weak, Qnot_le_lt. intros Hq%Qle_bool_iff.
  congruence.
Qed.

(** The reasons follow the clock: a deadline that counts for the score
    still counts when the reasons are written, later. *)
Lemma riskReasonsAt_nonempty now now' task :
  now <= now' -> 4 <= riskScoreAt now task -> riskReasonsAt now' task <> [].
Proof.
  intros Hle Hs.
  destruct (Task.due_date task) as [d|] eqn:Hd; cycle 1.
  { rewrite (riskScoreAt_invalid _ _ Hd) in Hs.
    destruct (_ && _), (hasDependencies task); lia. }
  unfold riskReasonsAt.
  rewrite (daysUntilDueAt_ltb now' _ _ _ Hd), !(daysUntilDueAt_leb now' _ _ _ Hd).
  intros Heq.
  apply app_eq_nil in Heq as [H1 Heq]. apply app_eq_nil in Heq as [H2 Heq].
  apply app_eq_nil in Heq as [H3 H4].
  unfold riskScoreAt in Hs.
  destruct (riskBonuses_shape (daysUntilDueAt now task) task)
    as (soon & prio & deps & hours & Hb & -> & -> & -> & Hh).
  rewrite Hb in Hs.
  rewrite (daysUntilDueAt_ltb now _ _ _ Hd), !(daysUntilDueAt_leb now _ _ _ Hd) in Hs.
  cbn [sumZ foldr] in Hs.
  destruct (bool_decide (Task.priority task = high)); [done|].
  destruct (hasDependencies task); [done|].
  cbn [andb] in Hs.
  destruct (Z.leb_spec (d - now') ((0 - 1) * 86400000)); [done|].
  destruct (Z.leb_spec (d - now') (1 * 86400000)); [done|].
  destruct (Z.leb_spec (d - now) ((0 - 1) * 86400000)); [lia|].
  destruct (Z.leb_spec (d - now) (1 * 86400000)); [lia|].
  cbn [andb] in Hs.
  destruct (ltb (toNumber (Task.progress task)) (of_Z 50)); cycle 1.
  { rewrite andb_false_r in Hs. lia. }
  cbn [andb] in H2. rewrite andb_true_r in Hs.
  destruct (Z.leb_spec (d - now') (3 * 86400000)); [done|].
  destruct (Z.leb_spec (d - now) (3 * 86400000)); lia.
Qed.

Lemma riskEntries_reasons ck k l ts e :
  e ∈ riskEntries ck k l ts ->
  exists j,
    RiskEntry.riskScore e = riskScoreAt (ck j) (RiskEntry.task e)
    /\ (l <= RiskEntry.reasons e)%nat
    /\ riskReasonCells ck k ts !! (RiskEntry.reasons e - l)%nat
       = Some (Strings (riskReasonsAt (ck (S j)) (RiskEntry.task e))).
Proof.
  revert k l. induction ts as [|t ts IH]; intros k l; cbn [riskEntries riskReasonCells].
  - by intros ?%elem_of_nil.
  - destruct (4 <=? riskScoreAt (ck k) t).
    + intros [->|He]%elem_of_cons.
      * exists k. cbn [RiskEntry.riskScore RiskEntry.task RiskEntry.reasons].
        split_and!; [done|lia|]. by rewrite Nat.sub_diag.
      * destruct (IH _ _ He) as (j & Hj & Hl & Hc). exists j.
        split_and!; [done|lia|].
        replace (RiskEntry.reasons e - l)%nat
          with (S (RiskEntry.reasons e - S l)) by lia.
        exact Hc.
    + apply IH.
Qed.

Lemma riskEntries_locs ck k l ts :
  map RiskEntry.reasons (riskEntries ck k l ts)
  = seq l (length (riskEntries ck k l ts)).
Proof.
  revert k l. induction ts as [|t ts IH]; intros k l; cbn [riskEntries]; [done|].
  destruct (4 <=? riskScoreAt (ck k) t); [|apply IH].
  cbn [map length seq RiskEntry.reasons]. by rewrite IH.
Qed.

(** What [detectRisks] leaves in the store. *)
Lemma detectRisks_entries tasks ts s :
  heap s !! tasks = Some (Tasks ts) ->
  exists s' pushed,
    detectRisks tasks s = (Ok (length (heap s)), s')
    /\ clock s' = clock s
    /\ pushed = riskEntries (clock s) (reads s) (S (length (heap s))) ts
    /\ heap s' !! length (heap s)
       = Some (Risks (sort (byKeyDesc RiskEntry.riskScore) pushed))
    /\ forall e, e ∈ pushed ->
         exists j,
           RiskEntry.riskScore e = riskScoreAt (clock s j) (RiskEntry.task e)
           /\ heap s' !! RiskEntry.reasons e
              = Some (Strings (riskReasonsAt (clock s (S j)) (RiskEntry.task e))).
Proof.
  intros Hts. destruct (detectRisks_run _ _ _ Hts) as [k' Hrun]. cbn zeta in Hrun.
  eexists _, _. split; [exact Hrun|]. cbn [heap clock].
  split_and!; [done|reflexivity|apply lookup_middle|].
  intros e He. destruct (riskEntries_reasons _ _ _ _ _ He) as (j & Hj & Hl & Hc).
  exists j. split; [done|].
  rewrite lookup_app_r by lia.
  replace (RiskEntry.reasons e - length (heap s))%nat
    with (S (RiskEntry.reasons e - S (length (heap s)))) by lia.
  exact Hc.
Qed.

Lemma descending_split {A} (key : A -> Z) v (a : list A) :
  Descending key a ->
  a = List.filter (fun x => v <=? key x) a ++ List.filter (fun x => key x <? v) a.
Proof.
  unfold Descending. induction 1 as [|x a Hs IH Hx]; [done|].
  cbn [List.filter].
  destruct (Z.leb_spec v (key x)), (Z.ltb_spec (key x) v); try lia.
  - cbn [app]. by rewrite <- IH.
  - assert (List.filter (fun y => v <=? key y) a = []) as ->.
    { clear IH Hs. induction a as [|y a IHa]; [done|].
      apply Forall_cons in Hx as [Hy Hx]. cbn [List.filter].
      destruct (Z.leb_spec v (key y)); [lia|]. by apply IHa. }
    cbn [app]. f_equal.
    clear IH Hs. induction a as [|y a IHa]; [done|].
    apply Forall_cons in Hx as [Hy Hx]. cbn [List.filter].
    destruct (Z.ltb_spec (key y) v); [|lia]. f_equal. by apply IHa.
Qed.

Lemma sort_map {A B} (f : A -> B) (k1 : A -> Z) (k2 : B -> Z) (a : list A) :
  (forall x, x ∈ a -> k1 x = k2 (f x)) ->
  map f (sort (byKeyDesc k1) a) = sort (byKeyDesc k2) (map f a).
Proof.
  induction a as [|x a IH]; intros Hk; [done|].
  cbn [sort map]. rewrite <- IH by (intros y Hy; apply Hk; by right).
  assert (forall y, y ∈ sort (byKeyDesc k1) a -> k1 y = k2 (f y)) as Hs.
  { intros y Hy. apply Hk. right. by apply sort_elem in Hy. }
  assert (k1 x = k2 (f x)) as Hx by (apply Hk; by left).
  clear IH Hk. induction (sort (byKeyDesc k1) a) as [|y b IHb]; [done|].
  rewrite insert_sorted_cons. cbn [map]. rewrite insert_sorted_cons.
  rewrite Hx, (Hs y) by (by left).
  destruct (k2 (f x) <? k2 (f y)); [|done].
  cbn [map]. f_equal. apply IHb. intros z Hz. apply Hs. by right.
Qed.

Lemma riskEntries_constant ck k l ts t0 :
  (forall j, ck j = t0) ->
  map RiskEntry.task (riskEntries ck k l ts)
  = List.filter (fun t => 4 <=? riskScoreAt t0 t) ts
  /\ Forall (fun e => RiskEntry.riskScore e = riskScoreAt t0 (RiskEntry.task e))
       (riskEntries ck k l ts).
Proof.
  intros Hck. revert k l. induction ts as [|t ts IH]; intros k l; [done|].
  cbn [riskEntries List.filter]. rewrite Hck.
  destruct (4 <=? riskScoreAt t0 t).
  - destruct (IH (S (S k)) (S l)) as [IH1 IH2]. cbn [map RiskEntry.task].
    split; [by rewrite IH1|]. by constructor.
  - apply IH.
Qed.

(** X5: a task without a valid due date scores at most 3 (2 for a high
    priority with progress under 30, 1 for dependencies), so [detectRisks]
    returns an entry only for tasks with a valid due date. *)
Theorem X5_detectRisks_skips_tasks_without_due_date tasks ts s :
  heap s !! tasks = Some (Tasks ts) ->
  (forall task s0, Task.due_date task = None ->
     exists score, calculateRiskScore task s0 = (Ok score, advance 1 s0) /\ score <= 3)
  /\ exists risks s' rs,
       detectRisks tasks s = (Ok risks, s')
       /\ heap s' !! risks = Some (Risks rs)
       /\ forall e, e ∈ rs -> exists d, Task.due_date (RiskEntry.task e) = Some d.
Proof.
  intros Hts. split.
  - intros task s0 Hd. eexists. split; [apply calculateRiskScore_run|].
    rewrite (riskScoreAt_invalid _ _ Hd).
    destruct (_ && _), (hasDependencies task); lia.
  - destruct (detectRisks_entries _ _ _ Hts) as (s' & pushed & Hrun & _ & -> & Hrs & _).
    eexists _, s', _. split; [exact Hrun|]. split; [exact Hrs|].
    intros e He%sort_elem. apply riskEntries_elem in He as (_ & H4 & _ & j & Hj).
    destruct (Task.due_date (RiskEntry.task e)) as [d|] eqn:Hd; [by exists d|].
    rewrite Hj, (riskScoreAt_invalid _ _ Hd) in H4.
    destruct (_ && _), (hasDependencies _); lia.
Qed.

Lemma X5_witness :
  (forall task s0, Task.due_date task = None ->
     exists score, calculateRiskScore task s0 = (Ok score, advance 1 s0) /\ score <= 3)
  /\ exists risks s' rs,
       detectRisks 0%nat withUndated = (Ok risks, s')
       /\ heap s' !! risks = Some (Risks rs)
       /\ forall e, e ∈ rs -> exists d, Task.due_date (RiskEntry.task e) = Some d.
Proof.
  apply (X5_detectRisks_skips_tasks_without_due_date 0%nat [undated; twoDaysLate] withUndated).
  reflexivity.
Defined.

(** X6: in the array [detectRisks] returns the entries of high severity,
    with a score from 7 to 10, all come before the entries of medium
    severity, with a score from 4 to 6. *)
Theorem X6_detectRisks_high_before_medium tasks ts s :
  heap s !! tasks = Some (Tasks ts) ->
  exists risks s' hi me,
    detectRisks tasks s = (Ok risks, s')
    /\ heap s' !! risks = Some (Risks (hi ++ me))
    /\ Forall (fun e => RiskEntry.severity e = High
                        /\ 7 <= RiskEntry.riskScore e <= 10) hi
    /\ Forall (fun e => RiskEntry.severity e = Medium
                        /\ 4 <= RiskEntry.riskScore e <= 6) me.
Proof.
  intros Hts.
  destruct (detectRisks_entries _ _ _ Hts) as (s' & pushed & Hrun & _ & Hp & Hrs & _).
  set (rs := sort (byKeyDesc RiskEntry.riskScore) pushed) in *.
  assert (forall e, e ∈ rs ->
            RiskEntry.severity e = severityOf (RiskEntry.riskScore e)
            /\ 4 <= RiskEntry.riskScore e <= 10) as Hall.
  { intros e He%sort_elem. rewrite Hp in He.
    apply riskEntries_elem in He as (_ & H4 & Hsev & j & Hj).
    split; [done|]. split; [done|]. rewrite Hj. apply riskScoreAt_range. }
  exists (length (heap s)), s',
    (List.filter (fun e => 7 <=? RiskEntry.riskScore e) rs),
    (List.filter (fun e => RiskEntry.riskScore e <? 7) rs).
  split; [exact Hrun|]. split.
  - rewrite <- (descending_split RiskEntry.riskScore 7 rs) by apply sort_descending.
    exact Hrs.
  - split; apply Forall_forall; intros e He;
      apply list_elem_of_In, filter_In in He as [He Hf];
      apply list_elem_of_In in He; destruct (Hall e He) as [Hsev Hr];
      rewrite Hsev; unfold severityOf.
    + apply Z.leb_le in Hf. rewrite (proj2 (Z.leb_le _ _) Hf). split; [done|lia].
    + apply Z.ltb_lt in Hf. destruct (Z.leb_spec 7 (RiskEntry.riskScore e)); [lia|].
      split; [done|lia].
Qed.

Lemma X6_witness :
  exists risks s' hi me,
    detectRisks 0%nat mixedTasks = (Ok risks, s')
    /\ heap s' !! risks = Some (Risks (hi ++ me))
    /\ Forall (fun e => RiskEntry.severity e = High
                        /\ 7 <= RiskEntry.riskScore e <= 10) hi
    /\ Forall (fun e => RiskEntry.severity e = Medium
                        /\ 4 <= RiskEntry.riskScore e <= 6) me.
Proof.
  apply (X6_detectRisks_high_before_medium 0%nat
           [dueAnHourAgo; twoDaysLate; completedLastWeek] mixedTasks).
  reflexivity.
Defined.

(** X7: every entry [detectRisks] returns has an array of reasons of its
    own, allocated by the call: no two entries share one, none is the
    returned array or an array that was there before.  The reasons are
    those of the task at the read of the clock after the one that gave
    its score. *)
Theorem X7_detectRisks_reasons_are_fresh_arrays tasks ts s :
  heap s !! tasks = Some (Tasks ts) ->
  exists risks s' rs,
    detectRisks tasks s = (Ok risks, s')
    /\ heap s' !! risks = Some (Risks rs)
    /\ risks = length (heap s)
    /\ NoDup (map RiskEntry.reasons rs)
    /\ forall e, e ∈ rs ->
         (risks < RiskEntry.reasons e)%nat
         /\ exists j,
              RiskEntry.riskScore e = riskScoreAt (clock s j) (RiskEntry.task e)
              /\ heap s' !! RiskEntry.reasons e
                 = Some (Strings (riskReasonsAt (clock s (S j)) (RiskEntry.task e))).
Proof.
  intros Hts.
  destruct (detectRisks_entries _ _ _ Hts) as (s' & pushed & Hrun & _ & Hp & Hrs & Hre).
  eexists _, s', _. split; [exact Hrun|]. split; [exact Hrs|]. split; [done|].
  split.
  - rewrite (sort_perm RiskEntry.riskScore pushed), Hp, riskEntries_locs.
    apply NoDup_ListNoDup, List.seq_NoDup.
  - intros e He%sort_elem. split; [|by apply Hre].
    rewrite Hp in He.
    destruct (riskEntries_reasons _ _ _ _ _ He) as (_ & _ & Hl & _). lia.
Qed.

Lemma X7_witness :
  exists risks s' rs,
    detectRisks 0%nat ticking = (Ok risks, s')
    /\ heap s' !! risks = Some (Risks rs)
    /\ risks = length (heap ticking)
    /\ NoDup (map RiskEntry.reasons rs)
    /\ forall e, e ∈ rs ->
         (risks < RiskEntry.reasons e)%nat
         /\ exists j,
              RiskEntry.riskScore e = riskScoreAt (clock ticking j) (RiskEntry.task e)
              /\ heap s' !! RiskEntry.reasons e
                 = Some (Strings (riskReasonsAt (clock ticking (S j)) (RiskEntry.task e))).
Proof.
  apply (X7_detectRisks_reasons_are_fresh_arrays 0%nat
           [dueAnHourAgo; twoDaysLate; completedLastWeek] ticking).
  reflexivity.
Defined.

(** X8: when the clock does not go back, no entry [detectRisks] returns
    has an empty array of reasons. *)
Theorem X8_detectRisks_gives_a_reason tasks ts s :
  heap s !! tasks = Some (Tasks ts) ->
  nondecreasing (clock s) ->
  exists risks s' rs,
    detectRisks tasks s = (Ok risks, s')
    /\ heap s' !! risks = Some (Risks rs)
    /\ forall e, e ∈ rs ->
         exists reasons,
           heap s' !! RiskEntry.reasons e = Some (Strings reasons)
           /\ reasons <> [].
Proof.
  intros Hts Hmono.
  destruct (detectRisks_entries _ _ _ Hts) as (s' & pushed & Hrun & _ & Hp & Hrs & Hre).
  eexists _, s', _. split; [exact Hrun|]. split; [exact Hrs|].
  intros e He%sort_elem. destruct (Hre e He) as (j & Hj & Hc).
  eexists. split; [exact Hc|].
  apply (riskReasonsAt_nonempty (clock s j)).
  - apply Hmono. lia.
  - rewrite <- Hj. rewrite Hp in He. by apply riskEntries_elem in He as (_ & ? & _).
Qed.

Lemma X8_witness :
  exists risks s' rs,
    detectRisks 0%nat ticking = (Ok risks, s')
    /\ heap s' !! risks = Some (Risks rs)
    /\ forall e, e ∈ rs ->
         exists reasons,
           heap s' !! RiskEntry.reasons e = Some (Strings reasons)
           /\ reasons <> [].
Proof.
  apply (X8_detectRisks_gives_a_reason 0%nat
           [dueAnHourAgo; twoDaysLate; completedLastWeek] ticking).
  - reflexivity.
  - intros i j Hij. cbn [clock ticking]. lia.
Defined.

(** X9: at one instant (a clock that stands still during the call)
    [detectRisks] returns exactly the tasks that score at least 4, in
    descending order of score, tasks of one score in input order; each
    entry has the score and the severity of its task. *)
Theorem X9_detectRisks_at_one_instant tasks ts s t0 :
  heap s !! tasks = Some (Tasks ts) ->
  (forall k, clock s k = t0) ->
  exists risks s' rs,
    detectRisks tasks s = (Ok risks, s')
    /\ heap s' !! risks = Some (Risks rs)
    /\ map RiskEntry.task rs
       = sort (byKeyDesc (riskScoreAt t0))
           (List.filter (fun t => 4 <=? riskScoreAt t0 t) ts)
    /\ Forall (fun e =>
                 RiskEntry.riskScore e = riskScoreAt t0 (RiskEntry.task e)
                 /\ RiskEntry.severity e = severityOf (riskScoreAt t0 (RiskEntry.task e))
                 /\ heap s' !! RiskEntry.reasons e
                    = Some (Strings (riskReasonsAt t0 (RiskEntry.task e)))) rs.
Proof.
  intros Hts Hck.
  destruct (detectRisks_entries _ _ _ Hts) as (s' & pushed & Hrun & _ & Hp & Hrs & Hre).
  destruct (riskEntries_constant (clock s) (reads s) (S (length (heap s))) ts t0 Hck)
    as [Htasks Hscores].
  rewrite <- Hp in Htasks, Hscores.
  eexists _, s', _. split; [exact Hrun|]. split; [exact Hrs|]. split.
  - rewrite <- Htasks. apply sort_map.
    intros e He. by eapply Forall_forall in Hscores.
  - apply Forall_forall. intros e He%sort_elem.
    pose proof (proj1 (Forall_forall _ _) Hscores e He) as Hs.
    destruct (Hre e He) as (j & _ & Hc). rewrite Hck in Hc.
    rewrite Hp in He. apply riskEntries_elem in He as (_ & _ & Hsev & _).
    split; [done|]. split; [by rewrite Hsev, Hs|done].
Qed.

Lemma X9_witness :
  exists risks s' rs,
    detectRisks 0%nat mixedTasks = (Ok risks, s')
    /\ heap s' !! risks = Some (Risks rs)
    /\ map RiskEntry.task rs
       = sort (byKeyDesc (riskScoreAt 259200000))
           (List.filter (fun t => 4 <=? riskScoreAt 259200000 t)
              [dueAnHourAgo; twoDaysLate; completedLastWeek])
    /\ Forall (fun e =>
                 RiskEntry.riskScore e = riskScoreAt 259200000 (RiskEntry.task e)
                 /\ RiskEntry.severity e
                    = severityOf (riskScoreAt 259200000 (RiskEntry.task e))
                 /\ heap s' !! RiskEntry.reasons e
                    = Some (Strings (riskReasonsAt 259200000 (RiskEntry.task e)))) rs.
Proof.
  apply (X9_detectRisks_at_one_instant 0%nat
           [dueAnHourAgo; twoDaysLate; completedLastWeek] mixedTasks 259200000);
    reflexivity.
Defined.

(** X10: for a task at least a whole day past its due date the first
    reason [getRiskReasons] gives is "Overdue by N day(s)", N being the
    number of whole days since the due date. *)
Theorem X10_getRiskReasons_overdue_text task score d s :
  Task.due_date task = Some d ->
  d + 86400000 <= now s ->
  exists reasons s' rest,
    getRiskReasons task score s = (Ok reasons, s')
    /\ heap s' !! reasons
       = Some (Strings (("Overdue by " +:+ pretty ((now s - d) / 86400000) +:+ " day(s)")
                          :: rest)).
Proof.
  intros Hd Hlate. rewrite getRiskReasons_run.
  eexists _, _, _. split; [reflexivity|].
  cbn [advance extend heap]. rewrite lookup_middle. do 2 f_equal.
  unfold riskReasonsAt. rewrite (daysUntilDueAt_overdue _ _ _ Hd Hlate).
  cbn [app]. f_equal.
  unfold daysUntilDueAt. rewrite Hd. cbn [timeValue]. rewrite ceilDays_of_Z.
  assert (1 <= (now s - d) / 86400000) by (apply Z.div_le_lower_bound; lia).
  destruct (Z.eqb_spec (- ((now s - d) / 86400000)) 0); [lia|]. cbn [andb].
  rewrite abs_of_Z, toString_of_Z.
  replace (Z.abs (- ((now s - d) / 86400000))) with ((now s - d) / 86400000) by lia.
  reflexivity.
Qed.

Lemma X10_witness :
  exists reasons s' rest,
    getRiskReasons twoDaysLate 7 onDayThree = (Ok reasons, s')
    /\ heap s' !! reasons
       = Some (Strings (("Overdue by "
                           +:+ pretty ((now onDayThree - 86400000) / 86400000)
                           +:+ " day(s)") :: rest)).
Proof.
  apply (X10_getRiskReasons_overdue_text twoDaysLate 7 86400000 onDayThree).
  - reflexivity.
  - unfold now. cbn [clock onDayThree]. lia.
Defined.

(** X11: a task whose due date is less than a day ago, or now, is not
    called overdue: its first reason is "Due in 0 day(s)"; a task due
    within the next day has "Due in 1 day(s)". *)
Theorem X11_getRiskReasons_due_text task score d s :
  Task.due_date task = Some d ->
  now s - 86400000 < d <= now s + 86400000 ->
  exists reasons s' rest,
    getRiskReasons task score s = (Ok reasons, s')
    /\ heap s' !! reasons
       = Some (Strings (("Due in " +:+ (if d <=? now s then "0" else "1") +:+ " day(s)")
                          :: rest)).
Proof.
  intros Hd Hnear. rewrite getRiskReasons_run.
  eexists _, _, _. split; [reflexivity|].
  cbn [advance extend heap]. rewrite lookup_middle. do 2 f_equal.
  unfold riskReasonsAt.
  rewrite (daysUntilDueAt_ltb _ _ _ _ Hd), (daysUntilDueAt_leb _ _ _ 1 Hd).
  destruct (Z.leb_spec (d - now s) ((0 - 1) * 86400000)); [lia|].
  destruct (Z.leb_spec (d - now s) (1 * 86400000)); [|lia].
  cbn [app]. f_equal.
  unfold daysUntilDueAt. rewrite Hd. cbn [timeValue]. rewrite ceilDays_of_Z.
  destruct (Z.leb_spec d (now s)).
  - assert ((now s - d) / 86400000 = 0) as -> by (apply Z.div_small; lia).
    cbn [Z.opp Z.eqb andb]. by destruct (d <? now s).
  - assert ((now s - d) / 86400000 = -1) as ->.
    { symmetry. apply (Z.div_unique _ _ _ (now s - d + 86400000)); lia. }
    reflexivity.
Qed.

Lemma X11_witness :
  exists reasons s' rest,
    getRiskReasons dueAnHourAgo 0 anHourLater = (Ok reasons, s')
    /\ heap s' !! reasons
       = Some (Strings (("Due in " +:+ (if 0 <=? now anHourLater then "0" else "1")
                           +:+ " day(s)") :: rest)).
Proof.
  apply (X11_getRiskReasons_due_text dueAnHourAgo 0 0 anHourLater).
  - reflexivity.
  - unfold now. cbn [clock anHourLater]. lia.
Defined.

(** X12: a task without a [progress] property scores at most 6: the
    comparisons of its progress are false, and the bonus for the
    estimated hours is for tasks that are not overdue.  It reaches 4,
    and gets an entry, exactly when it is a whole day past its due date;
    its severity is never high. *)
Theorem X12_calculateRiskScore_without_progress task s :
  Task.progress task = None ->
  exists score,
    calculateRiskScore task s = (Ok score, advance 1 s)
    /\ score <= 6
    /\ severityOf score = Medium
    /\ (4 <= score <->
        exists d, Task.due_date task = Some d /\ d + 86400000 <= now s).
Proof.
  intros Hp. eexists. split; [apply calculateRiskScore_run|].
  unfold riskScoreAt.
  destruct (riskBonuses_shape (daysUntilDueAt (now s) task) task)
    as (soon & prio & deps & hours & -> & -> & -> & -> & Hh).
  rewrite Hp. cbn [toNumber ltb]. rewrite !andb_false_r. cbn [sumZ foldr].
  assert (ltb (daysUntilDueAt (now s) task) (of_Z 0) = true <->
          exists d, Task.due_date task = Some d /\ d + 86400000 <= now s) as Hov.
  { destruct (Task.due_date task) as [d|] eqn:Hd.
    - rewrite (daysUntilDueAt_ltb _ _ _ _ Hd), Z.leb_le. split.
      + intros ?. exists d. split; [done|lia].
      + intros (d' & [= <-] & ?). lia.
    - rewrite (daysUntilDueAt_invalid _ _ Hd). split; [done|]. by intros (? & ? & _). }
  destruct (ltb (daysUntilDueAt (now s) task) (of_Z 0)) eqn:Hlt.
  - pose proof (ltb_gtb_zero _ Hlt) as Hgt.
    assert (hours = 0) as -> by (destruct Hh as [?|[_ ?]]; [done|congruence]).
    destruct (hasDependencies task); (split_and!; [lia|done|]);
      (split; [intros _; by apply Hov|lia]).
  - assert (~ exists d, Task.due_date task = Some d /\ d + 86400000 <= now s) as Hno
      by (intros HP; by apply Hov in HP).
    destruct (hasDependencies task), Hh as [->|[-> _]];
      (split_and!; [lia|done|]); (split; [lia|done]).
Qed.

Lemma X12_witness :
  exists score,
    calculateRiskScore (taskOf 1 1 0) office = (Ok score, advance 1 office)
    /\ score <= 6
    /\ severityOf score = Medium
    /\ (4 <= score <->
        exists d, Task.due_date (taskOf 1 1 0) = Some d /\ d + 86400000 <= now office).
Proof. apply (X12_calculateRiskScore_without_progress (taskOf 1 1 0) office). reflexivity. Defined.

(** X13: the bonuses add up to at most 12, and [Math.min(10, score)] cuts
    the sum only for a task that is a whole day past its due date: any
    other task gets the sum itself, which is at most 9. *)
Theorem X13_calculateRiskScore_cut_only_when_overdue task s :
  let bonuses := riskBonuses (daysUntilDueAt (now s) task) task in
  exists score,
    calculateRiskScore task s = (Ok score, advance 1 s)
    /\ sumZ bonuses <= 12
    /\ (score = sumZ bonuses
        \/ score = 10
           /\ exists d, Task.due_date task = Some d /\ d + 86400000 <= now s)
    /\ ((forall d, Task.due_date task = Some d -> now s < d + 86400000) ->
        score = sumZ bonuses /\ score <= 9).
Proof.
  intros bonuses. eexists. split; [apply calculateRiskScore_run|].
  unfold riskScoreAt. fold bonuses.
  destruct (riskBonuses_shape (daysUntilDueAt (now s) task) task)
    as (soon & prio & deps & hours & Hb & Hsoon & Hprio & Hdeps & Hh).
  fold bonuses in Hb. rewrite Hb. cbn [sumZ foldr].
  assert (prio = 0 \/ prio = 2) as Hpr
    by (rewrite Hprio; destruct (bool_decide _ && _); auto).
  assert (deps = 0 \/ deps = 1) as Hdp
    by (rewrite Hdeps; destruct (hasDependencies _); auto).
  assert (soon = 0 \/ soon = 3 \/ soon = 4) as Hs.
  { rewrite Hsoon. destruct (leb _ _ && _); [auto|]. destruct (leb _ _ && _); auto. }
  destruct (ltb (daysUntilDueAt (now s) task) (of_Z 0)) eqn:Hlt.
  - pose proof (ltb_gtb_zero _ Hlt) as Hgt.
    assert (hours = 0) as -> by (destruct Hh as [?|[_ ?]]; [done|congruence]).
    assert (exists d, Task.due_date task = Some d /\ d + 86400000 <= now s) as Hov.
    { destruct (Task.due_date task) as [d|] eqn:Hd.
      - rewrite (daysUntilDueAt_ltb _ _ _ _ Hd) in Hlt. apply Z.leb_le in Hlt.
        exists d. split; [done|lia].
      - by rewrite (daysUntilDueAt_invalid _ _ Hd) in Hlt. }
    split_and!.
    + lia.
    + destruct (Z.le_gt_cases (5 + (soon + (prio + (deps + (0 + 0))))) 10).
      * left. lia.
      * right. split; [lia|done].
    + intros Hnot. destruct Hov as (d & Hd & Hlate). specialize (Hnot d Hd). lia.
  - split_and!.
    + destruct Hh as [->|[-> _]]; lia.
    + left. destruct Hh as [->|[-> _]]; lia.
    + intros _. destruct Hh as [->|[-> _]]; lia.
Qed.

(** ** More about the completion predictor *)

Lemma ceilDays_NaN_r x : ceilDays x NaN = NaN.
Proof. unfold ceilDays, sub. by destruct x. Qed.

Lemma fdiv_NaN_l x : fdiv NaN x = NaN.
Proof. reflexivity. Qed.

Lemma fdiv_NaN_r x : fdiv x NaN = NaN.
Proof. unfold fdiv. cbn [is_nan]. by rewrite orb_true_r. Qed.

Lemma fsub_NaN_r x : fsub x NaN = NaN.
Proof. unfold fsub. by destruct x. Qed.

Lemma progressOrZero_Some p : progressOrZero (Some p) = of_Z p.
Proof.
  unfold progressOrZero, truthy. cbn [is_nan is_zero of_Z orb].
  rewrite Qzero_b_inject. by destruct (Z.eqb_spec p 0) as [->|].
Qed.

Lemma daysRemainingAt_ltb now item d k :
  Item.due_date item = Some d ->
  ltb (daysRemainingAt now item) (of_Z k) = (d - now <=? (k - 1) * 86400000).
Proof. intros H. unfold daysRemainingAt. rewrite H. apply ceilDays_ltb. Qed.

(** An item with an invalid date has no expected progress. *)
Lemma expectedProgressAt_invalid now item :
  Item.created_at item = None \/ Item.due_date item = None ->
  expectedProgressAt now item = NaN /\ progressDeltaAt now item = NaN.
Proof.
  intros H.
  assert (expectedProgressAt now item = NaN) as He.
  { unfold expectedProgressAt, totalDaysOf, daysElapsedAt.
    destruct H as [-> | ->]; cbn [timeValue].
    - by rewrite !ceilDays_NaN_r.
    - by rewrite ceilDays_NaN_l, fdiv_NaN_r. }
  split; [done|]. unfold progressDeltaAt. rewrite He. apply fsub_NaN_r.
Qed.

(** More progress, same dates: the delta is on the same side of a
    threshold, or above it.  The difference is rounded, and rounding keeps
    the order. *)
Lemma geb_fsub_mono p1 p2 e k :
  p1 <= p2 ->
  geb (fsub (of_Z p1) e) (of_Z k) = true -> geb (fsub (of_Z p2) e) (of_Z k) = true.
Proof.
  intros Hp. unfold geb, fsub.
  destruct (neg e) as [ | | | |q]; try done.
  - change (fadd (of_Z p1) NZero) with (of_Z p1).
    change (fadd (of_Z p2) NZero) with (of_Z p2).
    rewrite !leb_of_Z, !Z.leb_le. lia.
  - change (fadd (of_Z p1) (Fin q)) with (round64 (inject_Z p1 + q)).
    change (fadd (of_Z p2) (Fin q)) with (round64 (inject_Z p2 + q)).
    intros H. eapply leb_trans; [exact H|]. apply round64_mono.
    apply Qplus_le_l. rewrite <- Zle_Qle. lia.
Qed.

(** X14: an item with an invalid start or due date has no expected
    progress: the metrics are NaN and the item is reported as
    behind_schedule with confidence 85 whatever its progress, unless it
    is a whole day past a valid due date, which makes it overdue.  The
    rows of the table of goals, which has no due date, are such items. *)
Theorem X14_predictCompletion_invalid_date item s :
  Item.created_at item = None \/ Item.due_date item = None ->
  exists p,
    predictCompletion item s = (Ok p, advance 1 s)
    /\ Metrics.expectedProgress (Prediction.metrics p) = NaN
    /\ Metrics.progressDelta (Prediction.metrics p) = NaN
    /\ (Item.due_date item = None ->
        Metrics.daysRemaining (Prediction.metrics p) = NaN)
    /\ match Item.due_date item with
       | Some d =>
           if d + 86400000 <=? now s
           then Prediction.status p = overdue /\ Prediction.confidence p = 100
           else Prediction.status p = behind_schedule /\ Prediction.confidence p = 85
       | None =>
           Prediction.status p = behind_schedule /\ Prediction.confidence p = 85
       end.
Proof.
  intros H. eexists. split; [apply predictCompletion_run|].
  destruct (expectedProgressAt_invalid (now s) item H) as [He Hd].
  unfold predictionAt. rewrite He, Hd.
  unfold classify, classificationRules. cbn [firstMatch geb leb of_Z].
  destruct (Item.due_date item) as [d|] eqn:Hdue.
  - rewrite (daysRemainingAt_ltb _ _ _ _ Hdue).
    replace (d - now s <=? (0 - 1) * 86400000) with (d + 86400000 <=? now s)
      by (apply eq_iff_eq_true; rewrite !Z.leb_le; lia).
    destruct (d + 86400000 <=? now s); by split_and!.
  - unfold daysRemainingAt. rewrite Hdue. cbn [timeValue]. rewrite ceilDays_NaN_l.
    by split_and!.
Qed.

Lemma X14_witness :
  exists p,
    predictCompletion goalRow threeDaysOn = (Ok p, advance 1 threeDaysOn)
    /\ Metrics.expectedProgress (Prediction.metrics p) = NaN
    /\ Metrics.progressDelta (Prediction.metrics p) = NaN
    /\ (Item.due_date goalRow = None ->
        Metrics.daysRemaining (Prediction.metrics p) = NaN)
    /\ match Item.due_date goalRow with
       | Some d =>
           if d + 86400000 <=? now threeDaysOn
           then Prediction.status p = overdue /\ Prediction.confidence p = 100
           else Prediction.status p = behind_schedule /\ Prediction.confidence p = 85
       | None =>
           Prediction.status p = behind_schedule /\ Prediction.confidence p = 85
       end.
Proof. apply (X14_predictCompletion_invalid_date goalRow threeDaysOn). by right. Defined.

(** X15: an item with a valid due date is overdue exactly when now is at
    least a whole day after the due date, whatever its progress and its
    start date; an item that is complete is overdue then, and an item
    less than a day late is not. *)
Theorem X15_predictCompletion_overdue_iff item d s :
  Item.due_date item = Some d ->
  exists p,
    predictCompletion item s = (Ok p, advance 1 s)
    /\ (Prediction.status p = overdue <-> d + 86400000 <= now s)
    /\ (Prediction.status p = overdue ->
        Prediction.confidence p = 100
        /\ Prediction.recommendation p = "Immediate action required")
    /\ isInteger (Metrics.daysRemaining (Prediction.metrics p))
         (ceilDiv (d - now s) 86400000).
Proof.
  intros Hdue. eexists. split; [apply predictCompletion_run|].
  unfold predictionAt, classify, classificationRules. cbn [firstMatch].
  rewrite (daysRemainingAt_ltb _ _ _ _ Hdue).
  set (pd := progressDeltaAt (now s) item).
  split_and!.
  - destruct (Z.leb_spec (d - now s) ((0 - 1) * 86400000)).
    + cbn [Prediction.status]. split; [lia|done].
    + destruct (geb pd (of_Z 10)), (geb pd (of_Z (-10))), (geb pd (of_Z (-25)));
        cbn [Prediction.status]; (split; [done|lia]).
  - destruct (d - now s <=? (0 - 1) * 86400000); [done|].
    by destruct (geb pd (of_Z 10)), (geb pd (of_Z (-10))), (geb pd (of_Z (-25))).
  - assert (forall c : Schedule * Z * string,
              Metrics.daysRemaining
                (Prediction.metrics
                   (let '(status, confidence, recommendation) := c in
                    {| Prediction.status := status;
                       Prediction.confidence := confidence;
                       Prediction.recommendation := recommendation;
                       Prediction.metrics :=
                         {| Metrics.expectedProgress := round (expectedProgressAt (now s) item);
                            Metrics.actualProgress := round (actualProgressOf item);
                            Metrics.progressDelta := round pd;
                            Metrics.daysRemaining := daysRemainingAt (now s) item |} |}))
              = daysRemainingAt (now s) item) as -> by (by intros [[? ?] ?]).
    unfold daysRemainingAt, isInteger, ceilDiv. rewrite Hdue. cbn [timeValue].
    rewrite ceilDays_of_Z. replace (- (d - now s)) with (now s - d) by lia.
    destruct (Z.eqb_spec (- ((now s - d) / 86400000)) 0) as [->|_]; cbn [andb]; [|by left].
    destruct (d <? now s); auto.
Qed.

Lemma X15_witness :
  exists p,
    predictCompletion zeroLength threeDaysOn = (Ok p, advance 1 threeDaysOn)
    /\ (Prediction.status p = overdue <-> 0 + 86400000 <= now threeDaysOn)
    /\ (Prediction.status p = overdue ->
        Prediction.confidence p = 100
        /\ Prediction.recommendation p = "Immediate action required")
    /\ isInteger (Metrics.daysRemaining (Prediction.metrics p))
         (ceilDiv (0 - now threeDaysOn) 86400000).
Proof. apply (X15_predictCompletion_overdue_iff zeroLength 0 threeDaysOn). reflexivity. Defined.

(** The rounding of binary64 shows in the result.  On day 11 of 20 the
    expected progress is 55.00000000000001, so with a progress of 45 the
    delta is below -10 and the item is at risk; on day 23 of 40 the
    expected progress is 57.49999999999999, reported as 57. *)
Example predictCompletion_day_11_of_20 :
  (predictCompletion (twentyDays 45) onDayEleven).1
  = Ok {| Prediction.status := at_risk;
          Prediction.confidence := 70;
          Prediction.recommendation := "May need additional resources";
          Prediction.metrics :=
            {| Metrics.expectedProgress := of_Z 55;
               Metrics.actualProgress := of_Z 45;
               Metrics.progressDelta := of_Z (-10);
               Metrics.daysRemaining := of_Z 9 |} |}.
Proof. vm_compute. reflexivity. Qed.

Example predictCompletion_day_23_of_40 :
  (predictCompletion (fortyDays 50) onDayTwentyThree).1
  = Ok {| Prediction.status := on_track;
          Prediction.confidence := 80;
          Prediction.recommendation := "Progressing well";
          Prediction.metrics :=
            {| Metrics.expectedProgress := of_Z 57;
               Metrics.actualProgress := of_Z 50;
               Metrics.progressDelta := of_Z (-7);
               Metrics.daysRemaining := of_Z 17 |} |}.
Proof. vm_compute. reflexivity. Qed.

(** X16: of two items with the same dates, looked at at the same time,
    the one with more progress never has the worse status: both are
    overdue or neither is, and the statuses that depend on the progress
    follow it, from behind_schedule through at_risk and on_track to
    ahead_of_schedule. *)
Theorem X16_predictCompletion_monotone_in_progress item1 item2 p1 p2 s1 s2 :
  Item.created_at item1 = Item.created_at item2 ->
  Item.due_date item1 = Item.due_date item2 ->
  Item.progress item1 = Some p1 ->
  Item.progress item2 = Some p2 ->
  p1 <= p2 ->
  now s1 = now s2 ->
  exists r1 r2,
    predictCompletion item1 s1 = (Ok r1, advance 1 s1)
    /\ predictCompletion item2 s2 = (Ok r2, advance 1 s2)
    /\ (Prediction.status r1 = overdue <-> Prediction.status r2 = overdue)
    /\ progressRank (Prediction.status r1) <= progressRank (Prediction.status r2).
Proof.
  intros Hc Hd Hp1 Hp2 Hle Hnow. eexists _, _.
  split; [apply predictCompletion_run|]. split; [apply predictCompletion_run|].
  rewrite Hnow. unfold predictionAt, classify, classificationRules. cbn [firstMatch].
  assert (daysRemainingAt (now s2) item1 = daysRemainingAt (now s2) item2) as ->
    by (unfold daysRemainingAt; by rewrite Hd).
  assert (expectedProgressAt (now s2) item1 = expectedProgressAt (now s2) item2) as He
    by (unfold expectedProgressAt, totalDaysOf, daysElapsedAt; by rewrite Hc, Hd).
  assert (forall k, geb (progressDeltaAt (now s2) item1) (of_Z k) = true ->
                    geb (progressDeltaAt (now s2) item2) (of_Z k) = true) as Hmono.
  { intros k. unfold progressDeltaAt, actualProgressOf.
    rewrite He, Hp1, Hp2, !progressOrZero_Some. by apply geb_fsub_mono. }
  pose proof (Hmono 10) as H10. pose proof (Hmono (-10)) as H10'.
  pose proof (Hmono (-25)) as H25.
  destruct (ltb (daysRemainingAt (now s2) item2) (of_Z 0)); [done|].
  destruct (geb (progressDeltaAt (now s2) item1) (of_Z 10)).
  { rewrite H10 by done. done. }
  destruct (geb (progressDeltaAt (now s2) item1) (of_Z (-10))).
  { rewrite H10' by done. by destruct (geb _ (of_Z 10)). }
  destruct (geb (progressDeltaAt (now s2) item1) (of_Z (-25))).
  { rewrite H25 by done. by destruct (geb _ (of_Z 10)), (geb _ (of_Z (-10))). }
  by destruct (geb _ (of_Z 10)), (geb _ (of_Z (-10))), (geb _ (of_Z (-25))).
Qed.

Lemma X16_witness :
  exists r1 r2,
    predictCompletion (twentyDays 45) onDayEleven = (Ok r1, advance 1 onDayEleven)
    /\ predictCompletion (twentyDays 46) onDayEleven = (Ok r2, advance 1 onDayEleven)
    /\ (Prediction.status r1 = overdue <-> Prediction.status r2 = overdue)
    /\ progressRank (Prediction.status r1) <= progressRank (Prediction.status r2).
Proof.
  apply (X16_predictCompletion_monotone_in_progress (twentyDays 45) (twentyDays 46)
           45 46 onDayEleven onDayEleven); try reflexivity. lia.
Defined.

(** Inside the interval of an item the part of the interval that has
    elapsed is a fraction between 0 and 1, also after it is rounded. *)
Lemma fdiv_fraction a b :
  0 <= a <= b -> 1 <= b ->
  exists q, fdiv (of_Z a) (of_Z b) = Fin q /\ (0 <= q)%Q /\ (q <= 1)%Q.
Proof.
  intros Ha Hb. unfold fdiv.
  change (is_nan (of_Z a)) with false. change (is_nan (of_Z b)) with false.
  change (is_inf (of_Z a)) with false. change (is_inf (of_Z b)) with false.
  change (is_zero (of_Z a)) with (Qzero_b (inject_Z a)).
  change (is_zero (of_Z b)) with (Qzero_b (inject_Z b)).
  change (sign (of_Z a)) with (Qneg_b (inject_Z a)).
  change (sign (of_Z b)) with (Qneg_b (inject_Z b)).
  rewrite !Qzero_b_inject. cbn [orb andb].
  destruct (Z.eqb_spec b 0) as [?|_]; [lia|]. rewrite andb_false_r. cbn [orb].
  assert (forall z, 0 <= z -> Qneg_b (inject_Z z) = false) as Hneg.
  { intros z Hz. unfold Qneg_b. apply negb_false_iff, Qle_bool_iff.
    change 0%Q with (inject_Z 0). by rewrite <- Zle_Qle. }
  rewrite !Hneg by lia. cbn [xorb zero_of].
  destruct (Z.eqb_spec a 0) as [->|Hne].
  - exists 0%Q. split; [done|]. split; [apply Qle_refl|done].
  - cbn [val of_Z].
    assert (0 < inject_Z b)%Q as Hpos
      by (change 0%Q with (inject_Z 0); rewrite <- Zlt_Qlt; lia).
    apply (round64_between 0 1); [apply round64_0|apply round64_1|apply Qle_refl|..].
    + apply Qle_shift_div_l; [done|]. rewrite Qmult_0_l.
      change 0%Q with (inject_Z 0). rewrite <- Zle_Qle. lia.
    + apply Qle_shift_div_r; [done|]. rewrite Qmult_1_l. rewrite <- Zle_Qle. lia.
Qed.

Lemma fmul_percent q :
  (0 <= q)%Q -> (q <= 1)%Q ->
  exists q', fmul (Fin q) (of_Z 100) = Fin q' /\ (0 <= q')%Q /\ (q' <= 100)%Q.
Proof.
  intros H0 H1. unfold fmul.
  change (is_nan (Fin q)) with false. change (is_nan (of_Z 100)) with false.
  change (is_inf (Fin q)) with false. change (is_inf (of_Z 100)) with false.
  change (is_zero (of_Z 100)) with false.
  change (is_zero (Fin q)) with (Qzero_b q).
  change (sign (of_Z 100)) with false. change (sign (Fin q)) with (Qneg_b q).
  cbn [orb andb]. rewrite !andb_false_r, !orb_false_r.
  assert (Qneg_b q = false) as -> by (by apply negb_false_iff, Qle_bool_iff).
  destruct (Qzero_b q).
  - exists 0%Q. split; [done|]. split; [apply Qle_refl|done].
  - cbn [val of_Z].
    destruct (round64_between 0 (inject_Z 100) (q * inject_Z 100))
      as (r & Hr & Hr0 & Hr100);
      [apply round64_0|apply round64_100|apply Qle_refl|..|by exists r].
    + apply Qmult_le_0_compat; [done|]. done.
    + apply Qle_trans with (1 * inject_Z 100)%Q; [by apply Qmult_le_compat_r|].
      rewrite Qmult_1_l. apply Qle_refl.
Qed.

Lemma round_percent q :
  (0 <= q)%Q -> (q <= 100)%Q -> exists z, round (Fin q) = of_Z z /\ 0 <= z <= 100.
Proof.
  intros H0 H1. unfold round.
  assert (Qneg_b q = false) as -> by (by apply negb_false_iff, Qle_bool_iff).
  rewrite andb_false_r. eexists. split; [reflexivity|]. split.
  - change 0 with (Qfloor 0). apply Qfloor_resp_le.
    eapply Qle_trans; [exact H0|]. rewrite <- (Qplus_0_r q) at 1.
    by apply Qplus_le_r.
  - change 100 with (Qfloor (100 + (1 # 2))). apply Qfloor_resp_le.
    by apply Qplus_le_l.
Qed.

(** X17: for an item looked at inside its interval (created before it is
    due, created_at <= now <= due_date) the expected progress is a
    percentage, also as binary64 computes it: the value reported is an
    integer from 0 to 100, the item is not overdue, and an item whose
    progress is 100 or more is on track or ahead of schedule. *)
Theorem X17_predictCompletion_inside_the_interval item c d s :
  Item.created_at item = Some c ->
  Item.due_date item = Some d ->
  c < d ->
  c <= now s <= d ->
  exists p z,
    predictCompletion item s = (Ok p, advance 1 s)
    /\ Metrics.expectedProgress (Prediction.metrics p) = of_Z z
    /\ 0 <= z <= 100
    /\ Prediction.status p <> overdue
    /\ (forall n, Item.progress item = Some n -> 100 <= n ->
          Prediction.status p = ahead_of_schedule \/ Prediction.status p = on_track).
Proof.
  intros Hc Hd Hlt Hnow.
  assert (exists q, expectedProgressAt (now s) item = Fin q /\ (0 <= q)%Q /\ (q <= 100)%Q)
    as (q & He & Hq0 & Hq100).
  { unfold expectedProgressAt, daysElapsedAt, totalDaysOf. rewrite Hc, Hd.
    cbn [timeValue]. rewrite !ceilDays_of_Z.
    assert (0 <= - ((c - now s) / 86400000)).
    { assert ((c - now s) / 86400000 <= 0); [|lia].
      apply Z.lt_succ_r, Z.div_lt_upper_bound; lia. }
    assert (- ((c - now s) / 86400000) <= - ((c - d) / 86400000)).
    { assert ((c - d) / 86400000 <= (c - now s) / 86400000); [|lia].
      apply Z.div_le_mono; lia. }
    assert (1 <= - ((c - d) / 86400000)).
    { assert ((c - d) / 86400000 < 0); [|lia]. apply Z.div_lt_upper_bound; lia. }
    replace (now s <? c) with false by (symmetry; apply Z.ltb_ge; lia).
    rewrite andb_false_r.
    destruct (Z.eqb_spec (- ((c - d) / 86400000)) 0); [lia|]. cbn [andb].
    destruct (fdiv_fraction (- ((c - now s) / 86400000)) (- ((c - d) / 86400000)))
      as (r & -> & Hr0 & Hr1); [lia|lia|].
    by apply fmul_percent. }
  destruct (round_percent q Hq0 Hq100) as (z & Hz & Hz100).
  eexists _, z. split; [apply predictCompletion_run|].
  unfold predictionAt, classify, classificationRules. cbn [firstMatch].
  rewrite (daysRemainingAt_ltb _ _ _ _ Hd).
  destruct (Z.leb_spec (d - now s) ((0 - 1) * 86400000)); [lia|].
  set (pd := progressDeltaAt (now s) item).
  assert (forall n, Item.progress item = Some n -> 100 <= n ->
                    geb pd (of_Z (-10)) = true) as Hdone.
  { intros n Hn H100. unfold pd, progressDeltaAt, actualProgressOf.
    rewrite Hn, progressOrZero_Some, He. unfold geb, fsub, neg.
    destruct (Qzero_b q).
    - change (fadd (of_Z n) NZero) with (of_Z n). rewrite leb_of_Z. apply Z.leb_le. lia.
    - change (fadd (of_Z n) (Fin (Qred (- q)))) with (round64 (inject_Z n + Qred (- q))).
      apply leb_trans with (round64 0); [done|]. apply round64_mono.
      rewrite Qred_correct.
      apply Qle_trans with (inject_Z 100 + - q)%Q.
      + rewrite <- Qle_minus_iff. exact Hq100.
      + apply Qplus_le_l. rewrite <- Zle_Qle. lia. }
  rewrite He, Hz.
  destruct (geb pd (of_Z 10)) eqn:H10; cbn [Prediction.status Prediction.metrics
                                             Metrics.expectedProgress].
  { split_and!; [done|lia|lia|done|auto]. }
  destruct (geb pd (of_Z (-10))) eqn:H10'; cbn [Prediction.status Prediction.metrics
                                                  Metrics.expectedProgress].
  { split_and!; [done|lia|lia|done|auto]. }
  destruct (geb pd (of_Z (-25))); cbn [Prediction.status Prediction.metrics
                                         Metrics.expectedProgress];
    (split_and!; [done|lia|lia|done|]);
    intros n Hn H100; discriminate (Hdone n Hn H100).
Qed.

Lemma X17_witness :
  exists p z,
    predictCompletion (fortyDays 100) onDayTwentyThree
    = (Ok p, advance 1 onDayTwentyThree)
    /\ Metrics.expectedProgress (Prediction.metrics p) = of_Z z
    /\ 0 <= z <= 100
    /\ Prediction.status p <> overdue
    /\ (forall n, Item.progress (fortyDays 100) = Some n -> 100 <= n ->
          Prediction.status p = ahead_of_schedule \/ Prediction.status p = on_track).
Proof.
  apply (X17_predictCompletion_inside_the_interval (fortyDays 100) 0 3456000000
           onDayTwentyThree).
  - reflexivity.
  - reflexivity.
  - lia.
  - unfold now. cbn [clock onDayTwentyThree]. lia.
Defined.

(** ** More about the workload balancer *)

Lemma workloadsFrom_elem l ts ms w :
  w ∈ workloadsFrom l ts ms ->
  Workload.member w ∈ ms
  /\ Workload.taskCount w = activeTaskCount ts (Workload.member w)
  /\ (l <= Workload.tasks w)%nat
  /\ map (fun m => Tasks (memberTasksOf m ts)) ms !! (Workload.tasks w - l)%nat
     = Some (Tasks (memberTasksOf (Workload.member w) ts)).
Proof.
  revert l. induction ms as [|m ms IH]; intros l; cbn [workloadsFrom].
  - by intros ?%elem_of_nil.
  - intros [->|Hw]%elem_of_cons.
    + cbn [Workload.member Workload.taskCount Workload.tasks].
      split_and!; [by left|done|lia|]. by rewrite Nat.sub_diag.
    + destruct (IH _ Hw) as (Hm & Hc & Hl & Ht). split_and!; [by right|done|lia|].
      replace (Workload.tasks w - l)%nat with (S (Workload.tasks w - S l)) by lia.
      exact Ht.
Qed.

Lemma filter_sublist {A} (p : A -> bool) (a : list A) : List.filter p a `sublist_of` a.
Proof.
  induction a as [|x a IH]; [done|]. cbn [List.filter].
  destruct (p x); [by apply sublist_skip|by apply sublist_cons].
Qed.

(** The balancer's result and the store it leaves: one new array of
    tasks for each member, and the array of workloads. *)
Lemma suggestWorkloadBalancing_run_store teamMembers tasks ms ts s :
  heap s !! teamMembers = Some (Members ms) ->
  heap s !! tasks = Some (Tasks ts) ->
  let w := sort (byKeyDesc Workload.taskCount) (workloadsFrom (length (heap s)) ts ms) in
  suggestWorkloadBalancing teamMembers tasks s
  = (balancingOf w,
     extend (map (fun m => Tasks (memberTasksOf m ts)) ms ++ [Workloads w]) s).
Proof.
  intros Hms Hts w. unfold suggestWorkloadBalancing.
  erewrite bind_run; [|by apply loadMembers_run].
  erewrite bind_run; [|by apply mapM_workloadOf_run].
  erewrite bind_run; [|apply alloc_run].
  unfold extend. cbn [heap clock reads].
  unfold sortWorkloads.
  erewrite bind_run; cycle 1.
  { erewrite bind_run; [|apply loadWorkloads_run, lookup_middle]. reflexivity. }
  unfold store. cbn [heap clock reads]. rewrite insert_middle.
  erewrite bind_run; [|apply loadWorkloads_run, lookup_middle].
  fold (byKeyDesc Workload.taskCount). fold w. rewrite <- app_assoc.
  unfold balancingOf.
  destruct (w !! 0%nat) as [first|] eqn:Hfirst.
  - erewrite bind_run; [|rewrite elementAt_first, Hfirst; reflexivity].
    destruct (last w) as [lst|] eqn:Hlast.
    + erewrite bind_run;
        [|rewrite (elementAt_last _ _ _ Hfirst), Hlast; reflexivity].
      by destruct (3 <=? _).
    + erewrite bind_throw;
        [|rewrite (elementAt_last _ _ _ Hfirst), Hlast; reflexivity].
      done.
  - erewrite bind_throw; [|rewrite elementAt_first, Hfirst; reflexivity].
    done.
Qed.

Lemma balancingOf_ends w b :
  balancingOf w = Ok b ->
  (Balancing.needsBalancing b = true ->
   exists hi lo,
     Balancing.overloaded b = Some hi /\ Balancing.underutilized b = Some lo
     /\ w !! 0%nat = Some hi /\ last w = Some lo
     /\ Workload.taskCount lo + 3 <= Workload.taskCount hi)
  /\ forall x, Balancing.overloaded b = Some x \/ Balancing.underutilized b = Some x ->
       x ∈ w.
Proof.
  unfold balancingOf.
  destruct (w !! 0%nat) as [hi|] eqn:Hhi; [|done].
  destruct (last w) as [lo|] eqn:Hlo; [|done].
  destruct (Z.leb_spec 3 (Workload.taskCount hi - Workload.taskCount lo)).
  - intros [= <-]. cbn. split.
    + intros _. exists hi, lo. split_and!; try done. lia.
    + intros x [[= <-]|[= <-]].
      * by eapply list_elem_of_lookup_2.
      * apply last_Some in Hlo as [l' ->]. apply elem_of_app. right. by left.
  - intros [= <-]. cbn. split; [done|]. by intros x [?|?].
Qed.

(** X18: when the balancer advises to rebalance, the overloaded member
    has at least 3 active tasks, at least 3 more than the underutilized
    member, who is another member; so a team of one member is always
    balanced. *)
Theorem X18_suggestWorkloadBalancing_advice_needs_a_gap teamMembers tasks ms ts s :
  heap s !! teamMembers = Some (Members ms) ->
  heap s !! tasks = Some (Tasks ts) ->
  ms <> [] ->
  exists b s',
    suggestWorkloadBalancing teamMembers tasks s = (Ok b, s')
    /\ (Balancing.needsBalancing b = true ->
        exists hi lo,
          Balancing.overloaded b = Some hi
          /\ Balancing.underutilized b = Some lo
          /\ 0 <= Workload.taskCount lo
          /\ Workload.taskCount lo + 3 <= Workload.taskCount hi
          /\ Workload.member hi <> Workload.member lo
          /\ (2 <= length ms)%nat)
    /\ (length ms = 1%nat -> Balancing.needsBalancing b = false).
Proof.
  intros Hms Hts Hne.
  pose proof (suggestWorkloadBalancing_run_store _ _ _ _ _ Hms Hts) as Hrun.
  cbn zeta in Hrun.
  set (ws := workloadsFrom (length (heap s)) ts ms) in *.
  set (w := sort (byKeyDesc Workload.taskCount) ws) in *.
  destruct (sorted_workload_ends (length (heap s)) ts ms Hne) as (hi0 & lo0 & Hhi0 & Hlo0).
  fold ws in Hhi0, Hlo0. fold w in Hhi0, Hlo0.
  destruct (balancingOf w) as [b|e] eqn:Hb; cycle 1.
  { unfold balancingOf in Hb. rewrite Hhi0, Hlo0 in Hb. by destruct (3 <=? _). }
  destruct (balancingOf_ends _ _ Hb) as [Hneeds Hin].
  assert (needs : Balancing.needsBalancing b = true ->
          exists hi lo,
            Balancing.overloaded b = Some hi
            /\ Balancing.underutilized b = Some lo
            /\ 0 <= Workload.taskCount lo
            /\ Workload.taskCount lo + 3 <= Workload.taskCount hi
            /\ Workload.member hi <> Workload.member lo
            /\ (2 <= length ms)%nat).
  { intros Hn. destruct (Hneeds Hn) as (hi & lo & Hov & Hun & Hhi & Hlo & Hgap).
    exists hi, lo.
    assert (hi ∈ ws) as Hhiw by (apply (sort_elem Workload.taskCount), Hin; auto).
    assert (lo ∈ ws) as Hlow by (apply (sort_elem Workload.taskCount), Hin; auto).
    apply workloadsFrom_elem in Hhiw as (_ & Hchi & _).
    apply workloadsFrom_elem in Hlow as (_ & Hclo & _).
    split_and!; try done.
    - rewrite Hclo. unfold activeTaskCount. lia.
    - intros Heq. rewrite Hchi, Hclo, Heq in Hgap. lia.
    - assert (length w = length ms) as Hlen.
      { unfold w. rewrite sort_length. unfold ws.
        by rewrite <- (workloadsFrom_members (length (heap s)) ts ms) at 2;
          rewrite length_map. }
      destruct w as [|x [|y w']]; [done| |cbn [length] in Hlen; lia].
      cbn in Hhi, Hlo. assert (hi = lo) by congruence. subst. lia. }
  exists b. eexists. split; [exact Hrun|]. split; [exact needs|].
  intros Hone. destruct (Balancing.needsBalancing b); [|done].
  destruct (needs eq_refl) as (_ & _ & _ & _ & _ & _ & _ & H2). lia.
Qed.

Lemma X18_witness :
  (exists b hi lo,
     (suggestWorkloadBalancing 0%nat 1%nat team).1 = Ok b
     /\ Balancing.needsBalancing b = true
     /\ Balancing.overloaded b = Some hi
     /\ Balancing.underutilized b = Some lo
     /\ 0 <= Workload.taskCount lo
     /\ Workload.taskCount lo + 3 <= Workload.taskCount hi
     /\ Workload.member hi <> Workload.member lo
     /\ (2 <= length [ann; bob; cat; dan])%nat)
  /\ (exists b,
        (suggestWorkloadBalancing 0%nat 1%nat soloTeam).1 = Ok b
        /\ length [ann] = 1%nat
        /\ Balancing.needsBalancing b = false).
Proof.
  split.
  - destruct (X18_suggestWorkloadBalancing_advice_needs_a_gap 0%nat 1%nat
                [ann; bob; cat; dan] teamTasks team)
      as (b & s' & Hrun & Hneeds & _); [reflexivity|reflexivity|discriminate|].
    assert (Balancing.needsBalancing b = true) as Hb.
    { pose proof suggestWorkloadBalancing_team as Ht. rewrite Hrun in Ht.
      cbn [fst] in Ht. injection Ht as ->. reflexivity. }
    destruct (Hneeds Hb) as (hi & lo & Hhi & Hlo & H0 & Hgap & Hne & Hlen).
    exists b, hi, lo. rewrite Hrun. by split_and!.
  - destruct (X18_suggestWorkloadBalancing_advice_needs_a_gap 0%nat 1%nat
                [ann] teamTasks soloTeam)
      as (b & s' & Hrun & _ & Hone); [reflexivity|reflexivity|discriminate|].
    exists b. rewrite Hrun. split_and!; [done|done|]. by apply Hone.
Defined.

(** X19: the workload entries the balancer returns carry arrays of their
    own, allocated by the call: each holds the member's pending and
    in_progress tasks in the order of the input, and taskCount is its
    length.  The balancer does not read the clock. *)
Theorem X19_suggestWorkloadBalancing_task_arrays teamMembers tasks ms ts s :
  heap s !! teamMembers = Some (Members ms) ->
  heap s !! tasks = Some (Tasks ts) ->
  ms <> [] ->
  exists b s',
    suggestWorkloadBalancing teamMembers tasks s = (Ok b, s')
    /\ reads s' = reads s
    /\ forall w,
         Balancing.overloaded b = Some w \/ Balancing.underutilized b = Some w ->
         exists mts,
           heap s' !! Workload.tasks w = Some (Tasks mts)
           /\ (length (heap s) <= Workload.tasks w)%nat
           /\ Workload.taskCount w = Z.of_nat (length mts)
           /\ mts = List.filter (isActiveTaskOf (Workload.member w)) ts
           /\ mts `sublist_of` ts
           /\ Forall (fun t =>
                        Task.assigned_to t = Some (Member.id (Workload.member w))
                        /\ (Task.status t = pending \/ Task.status t = in_progress))
                mts.
Proof.
  intros Hms Hts Hne.
  pose proof (suggestWorkloadBalancing_run_store _ _ _ _ _ Hms Hts) as Hrun.
  cbn zeta in Hrun.
  set (ws := workloadsFrom (length (heap s)) ts ms) in *.
  set (w := sort (byKeyDesc Workload.taskCount) ws) in *.
  destruct (sorted_workload_ends (length (heap s)) ts ms Hne) as (hi0 & lo0 & Hhi0 & Hlo0).
  fold ws in Hhi0, Hlo0. fold w in Hhi0, Hlo0.
  destruct (balancingOf w) as [b|e] eqn:Hb; cycle 1.
  { unfold balancingOf in Hb. rewrite Hhi0, Hlo0 in Hb. by destruct (3 <=? _). }
  destruct (balancingOf_ends _ _ Hb) as [_ Hin].
  exists b. eexists. split; [exact Hrun|]. split; [done|].
  intros x Hx. specialize (Hin x Hx). unfold w in Hin. rewrite sort_elem in Hin.
  apply workloadsFrom_elem in Hin as (_ & Hc & Hl & Ht).
  exists (memberTasksOf (Workload.member x) ts).
  split_and!; try done.
  - cbn [extend heap]. rewrite lookup_app_r by lia.
    apply lookup_app_l_Some. exact Ht.
  - apply filter_sublist.
  - apply Forall_forall. intros t Ht'.
    apply list_elem_of_In, filter_In in Ht' as [_ Hact].
    unfold isActiveTaskOf in Hact. apply andb_true_iff in Hact as [Ha Hst].
    apply bool_decide_eq_true in Ha. split; [done|].
    by destruct (Task.status t); auto.
Qed.

Lemma X19_witness :
  exists b s',
    suggestWorkloadBalancing 0%nat 1%nat team = (Ok b, s')
    /\ reads s' = reads team
    /\ forall w,
         Balancing.overloaded b = Some w \/ Balancing.underutilized b = Some w ->
         exists mts,
           heap s' !! Workload.tasks w = Some (Tasks mts)
           /\ (length (heap team) <= Workload.tasks w)%nat
           /\ Workload.taskCount w = Z.of_nat (length mts)
           /\ mts = List.filter (isActiveTaskOf (Workload.member w)) teamTasks
           /\ mts `sublist_of` teamTasks
           /\ Forall (fun t =>
                        Task.assigned_to t = Some (Member.id (Workload.member w))
                        /\ (Task.status t = pending \/ Task.status t = in_progress))
                mts.
Proof.
  apply (X19_suggestWorkloadBalancing_task_arrays 0%nat 1%nat [ann; bob; cat; dan]
           teamTasks team); [reflexivity|reflexivity|discriminate].
Defined.

(** ** Which tasks count *)

Lemma candidatesFrom_ext ck k taskData ts1 ts2 ms :
  (forall m, m ∈ ms -> memberTasksOf m ts1 = memberTasksOf m ts2) ->
  candidatesFrom ck k taskData ts1 ms = candidatesFrom ck k taskData ts2 ms.
Proof.
  revert k. induction ms as [|m ms IH]; intros k Hsame; [done|].
  cbn [candidatesFrom]. unfold candidateAt, rawScoreAt.
  rewrite (Hsame m) by (by left).
  f_equal. apply IH. intros m' Hm'. apply Hsame. by right.
Qed.

Lemma workloadsFrom_ext l ts1 ts2 ms :
  (forall m, m ∈ ms -> memberTasksOf m ts1 = memberTasksOf m ts2) ->
  workloadsFrom l ts1 ms = workloadsFrom l ts2 ms.
Proof.
  revert l. induction ms as [|m ms IH]; intros l Hsame; [done|].
  cbn [workloadsFrom]. unfold activeTaskCount.
  rewrite (Hsame m) by (by left).
  f_equal. apply IH. intros m' Hm'. apply Hsame. by right.
Qed.

(** X20: the recommender and the balancer look at the tasks only through
    each member's pending and in_progress tasks: two arrays of tasks that
    give every member the same active tasks give the same answer, so
    completed and cancelled tasks, and tasks of people outside the list
    of members, change nothing. *)
Theorem X20_only_the_members_active_tasks_count
  taskData teamMembers tasks ms ts1 ts2 s1 s2 :
  heap s1 !! teamMembers = Some (Members ms) ->
  heap s2 !! teamMembers = Some (Members ms) ->
  heap s1 !! tasks = Some (Tasks ts1) ->
  heap s2 !! tasks = Some (Tasks ts2) ->
  (forall m, m ∈ ms ->
     List.filter (isActiveTaskOf m) ts1 = List.filter (isActiveTaskOf m) ts2) ->
  clock s1 = clock s2 ->
  reads s1 = reads s2 ->
  length (heap s1) = length (heap s2) ->
  (suggestAssignee taskData teamMembers tasks s1).1
  = (suggestAssignee taskData teamMembers tasks s2).1
  /\ (suggestWorkloadBalancing teamMembers tasks s1).1
     = (suggestWorkloadBalancing teamMembers tasks s2).1.
Proof.
  intros Hm1 Hm2 Ht1 Ht2 Hsame Hck Hrd Hlen. split.
  - destruct (suggestAssignee_run taskData _ _ _ _ _ Hm1 Ht1) as [s1' ->].
    destruct (suggestAssignee_run taskData _ _ _ _ _ Hm2 Ht2) as [s2' ->].
    cbn [fst]. rewrite Hck, Hrd.
    by rewrite (candidatesFrom_ext _ _ _ ts1 ts2 ms Hsame).
  - rewrite (suggestWorkloadBalancing_run_store _ _ _ _ _ Hm1 Ht1).
    rewrite (suggestWorkloadBalancing_run_store _ _ _ _ _ Hm2 Ht2).
    cbn [fst]. rewrite Hlen.
    by rewrite (workloadsFrom_ext _ ts1 ts2 ms Hsame).
Qed.

Lemma X20_witness :
  (suggestAssignee newTask 0%nat 1%nat office).1
  = (suggestAssignee newTask 0%nat 1%nat officeArchive).1
  /\ (suggestWorkloadBalancing 0%nat 1%nat office).1
     = (suggestWorkloadBalancing 0%nat 1%nat officeArchive).1.
Proof.
  apply (X20_only_the_members_active_tasks_count newTask 0%nat 1%nat [ann; bob]
           annsTasks (completedLastWeek :: annsTasks ++ [newTask]) office officeArchive);
    try reflexivity.
  intros m Hm. apply elem_of_cons in Hm as [->|Hm]; [reflexivity|].
  apply elem_of_cons in Hm as [->|Hm]; [reflexivity|].
  by apply elem_of_nil in Hm.
Defined.

(** ** The placeholders of a query *)

Lemma append_assoc (a b c : string) : (a +:+ b) +:+ c = a +:+ b +:+ c.
Proof.
  induction a as [|x a IH]; [done|].
  change ((String x a +:+ b) +:+ c) with (String x ((a +:+ b) +:+ c)).
  by rewrite IH.
Qed.

Lemma questionMarks_app a b :
  questionMarks (a +:+ b) = (questionMarks a + questionMarks b)%N.
Proof.
  induction a as [|c a IH]; [done|].
  change (String c a +:+ b) with (String c (a +:+ b)). cbn [questionMarks].
  rewrite IH. destruct (Ascii.eqb c "?"%char); lia.
Qed.

Lemma pretty_N_char_no_question_mark x : Ascii.eqb (pretty_N_char x) "?"%char = false.
Proof. unfold pretty_N_char. by repeat case_match. Qed.

Lemma pretty_N_go_no_question_mark x s :
  questionMarks s = 0%N -> questionMarks (pretty_N_go x s) = 0%N.
Proof.
  revert s. induction (N.lt_wf_0 x) as [x _ IH]; intros s Hs.
  assert (x = 0 \/ 0 < x)%N as [->|Hx] by lia.
  - by rewrite pretty_N_go_0.
  - rewrite pretty_N_go_step by done. apply IH.
    + by apply N.div_lt.
    + cbn [questionMarks]. by rewrite pretty_N_char_no_question_mark.
Qed.

Lemma pretty_N_no_question_mark (x : N) : questionMarks (pretty x) = 0%N.
Proof.
  unfold pretty, pretty_N. destruct (decide (x = 0%N)); [done|].
  by apply pretty_N_go_no_question_mark.
Qed.

Lemma replaceQuestionMarks_counter sql index :
  (replaceQuestionMarks sql index).2 = (index + questionMarks sql)%N.
Proof.
  revert index. induction sql as [|c sql IH]; intros index; cbn; [lia|].
  destruct (Ascii.eqb c "?"%char).
  - specialize (IH (index + 1)%N).
    destruct (replaceQuestionMarks sql (index + 1)) as [rest' index']. cbn in *. lia.
  - specialize (IH index).
    destruct (replaceQuestionMarks sql index) as [rest' index']. cbn in *. lia.
Qed.

Lemma replaceQuestionMarks_none sql index :
  questionMarks (replaceQuestionMarks sql index).1 = 0%N.
Proof.
  revert index. induction sql as [|c sql IH]; intros index; cbn; [done|].
  destruct (Ascii.eqb c "?"%char) eqn:Hc.
  - specialize (IH (index + 1)%N).
    destruct (replaceQuestionMarks sql (index + 1)) as [rest' index']. cbn in *.
    change (String "$" (pretty index +:+ rest')) with ("$" +:+ pretty index +:+ rest').
    by rewrite !questionMarks_app, pretty_N_no_question_mark, IH.
  - specialize (IH index).
    destruct (replaceQuestionMarks sql index) as [rest' index']. cbn in *.
    by rewrite Hc.
Qed.

Lemma replaceQuestionMarks_unchanged sql index :
  questionMarks sql = 0%N -> replaceQuestionMarks sql index = (sql, index).
Proof.
  induction sql as [|c sql IH]; [done|]. cbn.
  destruct (Ascii.eqb c "?"%char); [lia|]. intros H. by rewrite IH.
Qed.

Lemma replaceQuestionMarks_app a b index :
  replaceQuestionMarks (a +:+ b) index
  = let '(a', index) := replaceQuestionMarks a index in
    let '(b', index) := replaceQuestionMarks b index in
    (a' +:+ b', index).
Proof.
  revert index. induction a as [|c a IH]; intros index.
  - change ("" +:+ b) with b. cbn [replaceQuestionMarks].
    destruct (replaceQuestionMarks b index); reflexivity.
  - change (String c a +:+ b) with (String c (a +:+ b)). cbn [replaceQuestionMarks].
    destruct (Ascii.eqb c "?"%char).
    + cbn [nextPlaceholder]. rewrite IH.
      destruct (replaceQuestionMarks a (index + 1)) as [a' i1].
      destruct (replaceQuestionMarks b i1) as [b' i2].
      f_equal.
      change (String "$" (pretty index +:+ a' +:+ b')
              = String "$" ((pretty index +:+ a') +:+ b')).
      by rewrite append_assoc.
    + rewrite IH.
      destruct (replaceQuestionMarks a index) as [a' i1].
      by destruct (replaceQuestionMarks b i1) as [b' i2].
Qed.

(** X21: [convertPlaceholders] leaves no question mark; it changes
    nothing in a text without question marks, so converting twice is
    converting once, and a query written with [$1], [$2] passes through
    unchanged. *)
Theorem X21_convertPlaceholders_idempotent sql :
  questionMarks (convertPlaceholders sql) = 0%N
  /\ convertPlaceholders (convertPlaceholders sql) = convertPlaceholders sql
  /\ (questionMarks sql = 0%N -> convertPlaceholders sql = sql).
Proof.
  unfold convertPlaceholders. cbn zeta. split_and!.
  - apply replaceQuestionMarks_none.
  - by rewrite (replaceQuestionMarks_unchanged _ _ (replaceQuestionMarks_none sql 1)).
  - intros H. by rewrite (replaceQuestionMarks_unchanged _ _ H).
Qed.

(** X22: [convertPlaceholders] numbers the question marks from 1, from
    left to right: the question mark that follows [n] others becomes
    [$(n+1)], the text before it is converted as it is on its own, and the
    text after it is converted with the numbers that follow. *)
Theorem X22_convertPlaceholders_numbers_in_order before after :
  let n := questionMarks before in
  convertPlaceholders (before +:+ "?" +:+ after)
  = convertPlaceholders before +:+ "$" +:+ pretty (n + 1)%N
    +:+ (replaceQuestionMarks after (n + 2)%N).1.
Proof.
  intros n. unfold convertPlaceholders. cbn zeta.
  rewrite replaceQuestionMarks_app.
  pose proof (replaceQuestionMarks_counter before 1) as Hb.
  destruct (replaceQuestionMarks before 1) as [b' i1]. cbn [fst snd] in *.
  change ("?" +:+ after) with (String "?" after).
  cbn [replaceQuestionMarks Ascii.eqb Bool.eqb nextPlaceholder].
  replace (i1 + 1)%N with (n + 2)%N by (unfold n; lia).
  replace i1 with (n + 1)%N by (unfold n; lia).
  by destruct (replaceQuestionMarks after (n + 2)) as [a' i2].
Qed.

(** ** The routes *)

Lemma tryCatch_ok {A} (body : M A) handler s a s' :
  body s = (Ok a, s') -> tryCatch body handler s = (Ok a, s').
Proof. unfold tryCatch. by intros ->. Qed.

Lemma tryCatch_throw {A} (body : M A) handler s e s' :
  body s = (Throw e, s') -> tryCatch body handler s = handler e s'.
Proof. unfold tryCatch. by intros ->. Qed.

Lemma loadTasks_inv l s a s' :
  loadTasks l s = (Ok a, s') -> heap s !! l = Some (Tasks a) /\ s' = s.
Proof.
  unfold loadTasks, bind, load.
  destruct (heap s !! l) as [[ | | | | | ]|]; try done. by intros [= -> ->].
Qed.

(** [detectRisks] returns only when its argument is an array of tasks. *)
Lemma detectRisks_inv tasks s risks s' :
  detectRisks tasks s = (Ok risks, s') -> exists ts, heap s !! tasks = Some (Tasks ts).
Proof.
  unfold detectRisks. erewrite bind_run; [|apply alloc_run].
  unfold bind at 1.
  destruct (loadTasks tasks (extend [Risks []] s)) as [[ts|e] s1] eqn:Hload; [|done].
  intros _. apply loadTasks_inv in Hload as [Hl _]. cbn [extend heap] in Hl.
  apply lookup_app_Some in Hl as [Hl|[_ Hl]]; [by exists ts|].
  destruct (tasks - length (heap s))%nat as [|[|n]]; done.
Qed.

Lemma filter_by_severity (rs : list RiskEntry.t) :
  Forall (fun r => RiskEntry.severity r = severityOf (RiskEntry.riskScore r)) rs ->
  List.filter (fun r => bool_decide (RiskEntry.severity r = High)) rs
  = List.filter (fun r => 7 <=? RiskEntry.riskScore r) rs
  /\ List.filter (fun r => bool_decide (RiskEntry.severity r = Medium)) rs
     = List.filter (fun r => RiskEntry.riskScore r <? 7) rs.
Proof.
  induction 1 as [|r rs Hr _ [IH1 IH2]]; [done|]. cbn [List.filter].
  rewrite Hr, IH1, IH2. unfold severityOf.
  by destruct (Z.leb_spec 7 (RiskEntry.riskScore r)), (Z.ltb_spec (RiskEntry.riskScore r) 7);
    try lia.
Qed.

Lemma filter_split_length {A} (p q : A -> bool) (a : list A) :
  (forall x, q x = negb (p x)) ->
  (length (List.filter p a) + length (List.filter q a) = length a)%nat.
Proof.
  intros Hq. induction a as [|x a IH]; [done|]. cbn [List.filter].
  rewrite Hq. destruct (p x); cbn [negb length]; lia.
Qed.

(** X23: [GET /risks] always sends a response.  It is the error 500
    "Failed to detect risks" when the query or [detectRisks] throws.
    Otherwise it carries the array [detectRisks] returns; [count] is its
    length, [high_severity] the number of its entries with a score of 7 or
    more, [medium_severity] the number of its entries with a score from 4
    to 6, and the two add up to [count]. *)
Theorem X23_getRisks_counts db user s :
  exists resp s',
    getRisks db user s = (Ok resp, s')
    /\ (resp = statusJson 500 (ErrorBody "Failed to detect risks")
        \/ exists risks rs count high_severity medium_severity,
             resp = json (RisksBody risks count high_severity medium_severity)
             /\ heap s' !! risks = Some (Risks rs)
             /\ count = Z.of_nat (length rs)
             /\ high_severity
                = Z.of_nat (length (List.filter
                     (fun r => 7 <=? RiskEntry.riskScore r) rs))
             /\ medium_severity
                = Z.of_nat (length (List.filter
                     (fun r => RiskEntry.riskScore r <? 7) rs))
             /\ Forall (fun r => 4 <= RiskEntry.riskScore r <= 10) rs
             /\ count = high_severity + medium_severity).
Proof.
  unfold getRisks.
  match goal with
  | |- context [tryCatch (match ?c with (_, _) => _ end)] =>
      destruct c as [query params]
  end.
  set (body := bind _ _).
  destruct (body s) as [[resp|e] s1] eqn:Hbody; cycle 1.
  { eexists _, _. split; [by erewrite tryCatch_throw|]. by left. }
  exists resp, s1. split; [by erewrite tryCatch_ok|]. right.
  unfold body in Hbody. clear body.
  unfold bind at 1 in Hbody.
  destruct (dbQuery db query params s) as [[tasks|e] s0]; [|done].
  unfold bind at 1 in Hbody.
  destruct (detectRisks tasks s0) as [[risks|e] s2] eqn:Hdetect; [|done].
  destruct (detectRisks_inv _ _ _ _ Hdetect) as [ts Hts].
  destruct (detectRisks_entries _ _ _ Hts) as (s2' & pushed & Hrun & _ & Hp & Hrs & _).
  rewrite Hrun in Hdetect. injection Hdetect as <- <-.
  erewrite bind_run in Hbody; [|by apply loadRisks_run].
  injection Hbody as <- <-.
  set (rs := sort (byKeyDesc RiskEntry.riskScore) pushed) in *.
  assert (Forall (fun r => RiskEntry.severity r = severityOf (RiskEntry.riskScore r)
                           /\ 4 <= RiskEntry.riskScore r <= 10) rs) as Hall.
  { apply Forall_forall. intros e He. unfold rs in He. rewrite sort_elem, Hp in He.
    apply riskEntries_elem in He as (_ & H4 & Hsev & j & Hj).
    split; [done|]. split; [done|]. rewrite Hj. apply riskScoreAt_range. }
  destruct (filter_by_severity rs) as [Hhigh Hmedium].
  { eapply Forall_impl; [exact Hall|]. by intros r [? _]. }
  eexists _, rs, _, _, _. split; [reflexivity|].
  split; [exact Hrs|]. split; [done|]. rewrite Hhigh, Hmedium.
  split; [done|]. split; [done|]. split.
  - eapply Forall_impl; [exact Hall|]. by intros r [_ ?].
  - rewrite <- Nat2Z.inj_add. f_equal. symmetry. apply filter_split_length.
    intros r. destruct (Z.leb_spec 7 (RiskEntry.riskScore r)),
      (Z.ltb_spec (RiskEntry.riskScore r) 7); try lia; done.
Qed.

(** X24: the module the routes require as [db] has no [query]
    ([backend/database.js] exports [pool], [runQuery], [getOne] and
    [getAll]), so the call [db.query(...)] throws inside the [try]:
    [GET /risks] answers 500 to every request, and [GET /suggestions]
    answers 500 to every request that passes its check of the parameters,
    400 to the others.  Neither reaches the engine, and the store is as it
    was. *)
Theorem X24_routes_answer_500_without_db_query user context task_id s :
  getRisks database user s
  = (Ok (statusJson 500 (ErrorBody "Failed to detect risks")), s)
  /\ getSuggestions database user context task_id s
     = (Ok (match assignmentRequest context task_id with
            | Some _ => statusJson 500 (ErrorBody "Failed to generate suggestions")
            | None => statusJson 400 (ErrorBody "Invalid context or missing parameters")
            end), s).
Proof.
  split.
  - unfold getRisks.
    match goal with
    | |- context [tryCatch (match ?c with (_, _) => _ end)] =>
        destruct c as [query params]
    end.
    by erewrite (tryCatch_throw _ _ s TypeError s).
  - unfold getSuggestions. destruct (assignmentRequest context task_id) as [i|].
    + by erewrite (tryCatch_throw _ _ s TypeError s).
    + by apply tryCatch_ok.
Qed.

(** X25: [GET /suggestions] always sends a response.  It is the error
    400 exactly when [context] is not 'task_assignment' or [task_id] is
    missing or empty, and then no query is made: the state is as it was.
    Otherwise the status is 200, 404 or 500. *)
Theorem X25_getSuggestions_checks_the_parameters db user context task_id s :
  exists resp s',
    getSuggestions db user context task_id s = (Ok resp, s')
    /\ (Response.status resp = 400 <->
        ~ (context = Some "task_assignment"
           /\ exists i, task_id = Some i /\ i <> ""))
    /\ (Response.status resp = 400 ->
        s' = s
        /\ Response.body resp = ErrorBody "Invalid context or missing parameters")
    /\ (Response.status resp = 200 \/ Response.status resp = 400
        \/ Response.status resp = 404 \/ Response.status resp = 500).
Proof.
  assert (assignmentRequest context task_id = None <->
          ~ (context = Some "task_assignment"
             /\ exists i, task_id = Some i /\ i <> "")) as Hguard.
  { unfold assignmentRequest. destruct context as [c|], task_id as [i|].
    - destruct (String.eqb_spec c "task_assignment") as [->|Hc],
        (String.eqb_spec i "") as [->|Hi]; cbn [andb negb].
      + split; [|done]. intros _ (_ & i & [= <-] & ?). done.
      + split; [done|]. intros H. destruct H. split; [done|]. by exists i.
      + split; [|done]. intros _ ([= ?] & _). done.
      + split; [|done]. intros _ ([= ?] & _). done.
    - split; [|done]. by intros _ (_ & i & ? & _).
    - split; [|done]. by intros _ (? & _).
    - split; [|done]. by intros _ (? & _). }
  unfold getSuggestions.
  destruct (assignmentRequest context task_id) as [i|] eqn:Hreq; cycle 1.
  { eexists _, _. split; [by apply tryCatch_ok|]. cbn.
    split_and!; [by rewrite <- Hguard|done|auto]. }
  assert (~ ~ (context = Some "task_assignment"
               /\ exists i, task_id = Some i /\ i <> "")) as Hnn.
  { rewrite <- Hguard. done. }
  set (body := bind _ _).
  assert (forall resp s', body s = (Ok resp, s') ->
            Response.status resp = 200 \/ Response.status resp = 404) as Hbody.
  { intros resp s'. unfold body. unfold bind at 1.
    destruct (dbQuery db _ _ s) as [[task|e] s0]; [|done].
    unfold bind at 1.
    destruct (loadTasks task s0) as [[[|taskData rest]|e] s1]; [| |done].
    { intros [= <- _]. by right. }
    unfold bind at 1.
    destruct (dbQuery db _ _ s1) as [[teamMembers|e] s2]; [|done].
    unfold bind at 1.
    destruct (dbQuery db _ _ s2) as [[activeTasks|e] s3]; [|done].
    unfold bind at 1.
    destruct (suggestAssignee taskData teamMembers activeTasks s3)
      as [[[best|]|e] s4]; [| |done].
    - intros [= <- _]. by left.
    - done. }
  destruct (body s) as [[resp|e] s1] eqn:Hrun.
  - exists resp, s1. split; [by apply tryCatch_ok|].
    destruct (Hbody _ _ eq_refl) as [H|H]; rewrite H;
      (split_and!; [split; [lia|done]|lia|auto]).
  - eexists _, _. split; [by erewrite tryCatch_throw|]. cbn.
    split_and!; [split; [lia|done]|lia|auto].
Qed.

(** X26: when the three queries of [GET /suggestions] give a task, the
    members of the department and the active tasks, the response carries
    the candidate [suggestAssignee] ranks first, with its member's id and
    name, its score, its reasoning and its number of active tasks; with no
    member in the department there is no such candidate, and the response
    is the error 500 "Failed to generate suggestions". *)
Theorem X26_getSuggestions_answers_with_the_best
  db user context task_id i task members active taskData rest ms ts s s1 s2 s3 :
  assignmentRequest context task_id = Some i ->
  dbQuery db taskByIdSql [SqlText i] s = (Ok task, s1) ->
  heap s1 !! task = Some (Tasks (taskData :: rest)) ->
  dbQuery db teamMembersSql (teamMembersParams user) s1 = (Ok members, s2) ->
  dbQuery db activeTasksSql activeTasksParams s2 = (Ok active, s3) ->
  heap s3 !! members = Some (Members ms) ->
  heap s3 !! active = Some (Tasks ts) ->
  let ranked :=
    sort (byKeyDesc Candidate.score)
      (candidatesFrom (clock s3) (reads s3) taskData ts ms) in
  (getSuggestions db user context task_id s).1 = Ok (suggestionResponse (ranked !! 0%nat))
  /\ (ms = [] ->
      (getSuggestions db user context task_id s).1
      = Ok (statusJson 500 (ErrorBody "Failed to generate suggestions")))
  /\ (ms <> [] ->
      Response.status (suggestionResponse (ranked !! 0%nat)) = 200).
Proof.
  intros Hreq Htask Hrows Hmembers Hactive Hms Hts ranked.
  assert ((getSuggestions db user context task_id s).1
          = Ok (suggestionResponse (ranked !! 0%nat))) as Hresp.
  { unfold getSuggestions. rewrite Hreq.
    destruct (suggestAssignee_run taskData _ _ _ _ _ Hms Hts) as [s4 Hrun].
    fold ranked in Hrun. unfold tryCatch.
    erewrite bind_run; [|exact Htask].
    erewrite bind_run; [|by apply loadTasks_run].
    cbv beta iota.
    erewrite bind_run; [|exact Hmembers].
    erewrite bind_run; [|exact Hactive].
    erewrite bind_run; [|exact Hrun].
    by destruct (ranked !! 0%nat). }
  split; [exact Hresp|]. split.
  - intros ->. rewrite Hresp. reflexivity.
  - intros Hne.
    destruct (ranked !! 0%nat) as [best|] eqn:Hbest; [done|]. exfalso.
    apply lookup_ge_None in Hbest. unfold ranked in Hbest. rewrite sort_length in Hbest.
    assert (length (candidatesFrom (clock s3) (reads s3) taskData ts ms) = length ms)
      as Hlen.
    { rewrite <- (length_map Candidate.member (candidatesFrom _ _ _ _ _)).
      by rewrite candidatesFrom_members. }
    rewrite Hlen in Hbest. destruct ms; [done|]. cbn [length] in Hbest. lia.
Qed.

Lemma X26_witness :
  (let ranked :=
     sort (byKeyDesc Candidate.score)
       (candidatesFrom (clock staffed) (reads staffed) newTask annsTasks [ann; bob]) in
   (getSuggestions cannedDatabase lead (Some "task_assignment") (Some "9") staffed).1
   = Ok (suggestionResponse (ranked !! 0%nat))
   /\ [ann; bob] <> []
   /\ Response.status (suggestionResponse (ranked !! 0%nat)) = 200)
  /\ (@nil Member.t = []
      /\ (getSuggestions cannedDatabase lead (Some "task_assignment") (Some "9")
            unstaffed).1
         = Ok (statusJson 500 (ErrorBody "Failed to generate suggestions"))).
Proof.
  split.
  - destruct (X26_getSuggestions_answers_with_the_best cannedDatabase lead
                (Some "task_assignment") (Some "9") "9" 0%nat 1%nat 2%nat newTask []
                [ann; bob] annsTasks staffed staffed staffed staffed)
      as (Hresp & _ & Hok); try reflexivity.
    cbn zeta. split_and!; [exact Hresp|discriminate|]. apply Hok. discriminate.
  - destruct (X26_getSuggestions_answers_with_the_best cannedDatabase lead
                (Some "task_assignment") (Some "9") "9" 0%nat 1%nat 2%nat newTask []
                [] annsTasks unstaffed unstaffed unstaffed unstaffed)
      as (_ & Hnone & _); try reflexivity.
    split; [reflexivity|]. by apply Hnone.
Defined.

(** ** The order of a stable sort *)

Lemma descending_head_max {A} (key : A -> Z) x a y :
  Descending key (x :: a) -> y ∈ x :: a -> key y <= key x.
Proof.
  unfold Descending. intros Hs Hy. apply StronglySorted_inv in Hs as [_ Hx].
  apply elem_of_cons in Hy as [->|Hy]; [lia|].
  rewrite Forall_forall in Hx. by apply Hx.
Qed.

Lemma filter_key_elem {A} (key : A -> Z) v y (a : list A) :
  y ∈ List.filter (fun x => key x =? v) a -> y ∈ a.
Proof. intros Hy. by apply list_elem_of_In, filter_In in Hy as [?%list_elem_of_In _]. Qed.

Lemma descending_stable_unique {A} (key : A -> Z) (a1 a2 : list A) :
  Descending key a1 -> Descending key a2 ->
  (forall v, List.filter (fun x => key x =? v) a1 = List.filter (fun x => key x =? v) a2) ->
  a1 = a2.
Proof.
  revert a2. induction a1 as [|x a1 IH]; intros a2 H1 H2 Hf.
  - destruct a2 as [|y a2]; [done|]. specialize (Hf (key y)).
    cbn [List.filter] in Hf. by rewrite Z.eqb_refl in Hf.
  - destruct a2 as [|y a2].
    { specialize (Hf (key x)). cbn [List.filter] in Hf. by rewrite Z.eqb_refl in Hf. }
    assert (key x = key y) as Hk.
    { assert (key y <= key x).
      { apply (descending_head_max key x a1); [done|].
        apply (filter_key_elem key (key y)). rewrite Hf. cbn [List.filter].
        rewrite Z.eqb_refl. by left. }
      assert (key x <= key y); [|lia].
      apply (descending_head_max key y a2); [done|].
      apply (filter_key_elem key (key x)). rewrite <- Hf. cbn [List.filter].
      rewrite Z.eqb_refl. by left. }
    pose proof (Hf (key x)) as Hx. cbn [List.filter] in Hx.
    rewrite <- Hk, Z.eqb_refl in Hx. injection Hx as <- Hx.
    f_equal. apply IH.
    + unfold Descending in *. by apply StronglySorted_inv in H1 as [? _].
    + unfold Descending in *. by apply StronglySorted_inv in H2 as [? _].
    + intros v. specialize (Hf v). cbn [List.filter] in Hf.
      destruct (key x =? v); [by injection Hf|done].
Qed.

(** X27: the order the engine's sorts give is the only one a stable
    sort can give: an array in descending order of the key that keeps the
    elements of each key in the order they had is the array the sort
    returns. *)
Theorem X27_sort_is_the_stable_descending_order {A} (key : A -> Z) (a a' : list A) :
  Descending key a' ->
  (forall v, List.filter (fun x => key x =? v) a'
             = List.filter (fun x => key x =? v) a) ->
  a' = sort (byKeyDesc key) a.
Proof.
  intros Hd Hf. apply (descending_stable_unique key); [done|apply sort_descending|].
  intros v. by rewrite sort_stable.
Qed.

Lemma X27_witness :
  [dan; cat; bob; ann] = sort (byKeyDesc Member.id) [ann; dan; bob; cat].
Proof.
  apply (X27_sort_is_the_stable_descending_order Member.id [ann; dan; bob; cat]
           [dan; cat; bob; ann]).
  - unfold Descending. repeat constructor; cbn; lia.
  - intros v. cbn [List.filter Member.id ann bob cat dan].
    destruct (Z.eqb_spec 4 v), (Z.eqb_spec 3 v), (Z.eqb_spec 2 v), (Z.eqb_spec 1 v);
      try lia; reflexivity.
Defined.
